(** * A shallow embedding of the relational data-access layer

    Source: [src/shared/sqlalchemy_connector.py] (class [SQLAlchemyConnector])
    and [src/shared/database/enums.py].

    The connector is modelled the way it is written: Python values as an
    inductive type with the [isinstance] hierarchy written out, dictionaries
    as association lists (Python dictionaries iterate in insertion order, and
    the code relies on it), exceptions as an error result, and the methods
    that talk to the database as computations in a state-and-error monad
    whose state holds the connector's caches, the backend, and a log of what
    every session was asked to do. *)

From Stdlib Require Import String Ascii List ZArith NArith Lia Bool Arith DecimalString.
Import ListNotations.
Open Scope string_scope.

Set Implicit Arguments.
Set Warnings "-abstract-large-number".
Set Warnings "-notation-for-abbreviation".

(* ===================================================================== *)
(** ** Python values and exceptions *)
(* ===================================================================== *)

Module Py.

(** Errors of the database driver, as far as the code tells them apart:
    [table_exists] looks for "UndefinedTable" or "invalid object name" in
    the text of the exception. *)
Inductive db_error : Type :=
| UndefinedTable
| InvalidObjectName
| DbFailure (msg : string).

Inductive exn : Type :=
| ValueError (msg : string)
| TypeError (msg : string)
| KeyError (key : string)
| AttributeError (msg : string)
| OverflowError (msg : string)
| RuntimeError (msg : string)
| IndexError (msg : string)
| RecursionError
| NoSuchTableError (name : string)
| SQLAlchemyError (e : db_error).

Inductive res (A : Type) : Type :=
| Ok (a : A)
| Raise (e : exn).
Arguments Ok {A} a.
Arguments Raise {A} e.

Definition is_ok {A} (r : res A) : bool :=
  match r with Ok _ => true | Raise _ => false end.

Definition is_value_error {A} (r : res A) : bool :=
  match r with Raise (ValueError _) => true | _ => false end.

(** [decimal.Decimal]: sign, coefficient and exponent, or a special. *)
Inductive Decimal : Type :=
| DFinite (neg : bool) (coeff : N) (exp : Z)
| DInfinity (neg : bool)
| DNaN.

(** The scalar values a record field can hold.  [VTimedelta] carries the
    text [str(val)] gives for it, which is all the code asks of one. *)
Inductive pyval : Type :=
| VNone
| VBool (b : bool)
| VInt (z : Z)
| VStr (s : string)
| VDate (year month day : nat)
| VDateTime (year month day hour minute second : nat)
| VTime (hour minute second : nat)
| VTimedelta (text : string)
| VDecimal (d : Decimal).

(** [isinstance(val, date)]: [datetime.datetime] is a subclass of
    [datetime.date], so a datetime is an instance of both. *)
Definition isinstance_date (v : pyval) : bool :=
  match v with VDate _ _ _ | VDateTime _ _ _ _ _ _ => true | _ => false end.

Definition isinstance_datetime (v : pyval) : bool :=
  match v with VDateTime _ _ _ _ _ _ => true | _ => false end.

Definition isinstance_time (v : pyval) : bool :=
  match v with VTime _ _ _ => true | _ => false end.

Definition isinstance_timedelta (v : pyval) : bool :=
  match v with VTimedelta _ => true | _ => false end.

Definition isinstance_Decimal (v : pyval) : bool :=
  match v with VDecimal _ => true | _ => false end.

Definition isinstance_str (v : pyval) : bool :=
  match v with VStr _ => true | _ => false end.

Definition is_None (v : pyval) : bool :=
  match v with VNone => true | _ => false end.

(** *** Text of numbers *)

Definition str_nat (n : nat) : string := NilZero.string_of_uint (Nat.to_uint n).
Definition str_Z (z : Z) : string := NilZero.string_of_int (Z.to_int z).

Fixpoint zeros (k : nat) : string :=
  match k with O => "" | S k' => String "0" (zeros k') end.

(** A number zero-padded to [width] digits, as [%m], [%d], [%H], [%M],
    [%S] (width 2) and [%Y] (width 4) print it. *)
Definition zfill (width n : nat) : string :=
  let s := str_nat n in zeros (width - String.length s) ++ s.

Definition date_year (v : pyval) : nat :=
  match v with VDate y _ _ | VDateTime y _ _ _ _ _ => y | _ => 0 end.
Definition date_month (v : pyval) : nat :=
  match v with VDate _ m _ | VDateTime _ m _ _ _ _ => m | _ => 0 end.
Definition date_day (v : pyval) : nat :=
  match v with VDate _ _ d | VDateTime _ _ d _ _ _ => d | _ => 0 end.
Definition time_hour (v : pyval) : nat :=
  match v with VDateTime _ _ _ h _ _ | VTime h _ _ => h | _ => 0 end.
Definition time_minute (v : pyval) : nat :=
  match v with VDateTime _ _ _ _ m _ | VTime _ m _ => m | _ => 0 end.
Definition time_second (v : pyval) : nat :=
  match v with VDateTime _ _ _ _ _ s | VTime _ _ s => s | _ => 0 end.

(** [val.strftime("%Y-%m-%d")] *)
Definition strftime_Ymd (v : pyval) : string :=
  zfill 4 (date_year v) ++ "-" ++ zfill 2 (date_month v) ++ "-" ++ zfill 2 (date_day v).

(** [val.strftime("%H:%M:%S")] *)
Definition strftime_HMS (v : pyval) : string :=
  zfill 2 (time_hour v) ++ ":" ++ zfill 2 (time_minute v) ++ ":" ++ zfill 2 (time_second v).

(** [val.strftime("%Y-%m-%d %H:%M:%S")] *)
Definition strftime_Ymd_HMS (v : pyval) : string :=
  strftime_Ymd v ++ " " ++ strftime_HMS v.

(** [int(val)] on a [Decimal]: truncation towards zero; the specials
    raise. *)
Definition int_of_Decimal (d : Decimal) : res Z :=
  match d with
  | DFinite neg c e =>
      let mag := if (0 <=? e)%Z then (Z.of_N c * 10 ^ e)%Z
                 else (Z.of_N c / 10 ^ (- e))%Z in
      Ok (if neg then (- mag)%Z else mag)
  | DInfinity _ => Raise (OverflowError "cannot convert Infinity to integer")
  | DNaN => Raise (ValueError "cannot convert NaN to integer")
  end.

(** [f"{val}"] / [str(val)] *)
Definition format (v : pyval) : string :=
  match v with
  | VNone => "None"
  | VBool true => "True"
  | VBool false => "False"
  | VInt z => str_Z z
  | VStr s => s
  | VDate _ _ _ => strftime_Ymd v
  | VDateTime _ _ _ _ _ _ => strftime_Ymd_HMS v
  | VTime _ _ _ => strftime_HMS v
  | VTimedelta t => t
  | VDecimal (DFinite neg c e) =>
      (* only the integral, exponent-free shape is printed exactly *)
      (if neg then "-" else "") ++ str_Z (Z.of_N c) ++
      (if (e =? 0)%Z then "" else "E" ++ str_Z e)
  | VDecimal (DInfinity neg) => (if neg then "-" else "") ++ "Infinity"
  | VDecimal DNaN => "NaN"
  end.

(** *** String helpers *)

Definition startswith (s p : string) : bool := String.prefix p s.

Fixpoint rev_string (s acc : string) : string :=
  match s with
  | EmptyString => acc
  | String c s' => rev_string s' (String c acc)
  end.

Definition endswith (s p : string) : bool :=
  String.prefix (rev_string p "") (rev_string s "").

Definition lower_ascii (c : ascii) : ascii :=
  let n := nat_of_ascii c in
  if (65 <=? n)%nat && (n <=? 90)%nat then ascii_of_nat (n + 32) else c.

Fixpoint lower (s : string) : string :=
  match s with
  | EmptyString => EmptyString
  | String c s' => String (lower_ascii c) (lower s')
  end.

Fixpoint str_in (x : string) (l : list string) : bool :=
  match l with
  | [] => false
  | y :: l' => String.eqb x y || str_in x l'
  end.

(** [s.split(".")] *)
Fixpoint split_dot (s : string) : list string :=
  match s with
  | EmptyString => [EmptyString]
  | String c s' =>
      if Ascii.eqb c "." then EmptyString :: split_dot s'
      else match split_dot s' with
           | [] => [String c EmptyString]
           | h :: t => String c h :: t
           end
  end.

(** [s.count(".")] *)
Definition count_dot (s : string) : nat := length (split_dot s) - 1.

(** [sep.join(parts)] *)
Definition join (sep : string) (parts : list string) : string :=
  String.concat sep parts.

End Py.
Export Py.

(* ===================================================================== *)
(** ** Enumerations ([objects/database/enums.py]) *)
(* ===================================================================== *)

Inductive SQLDialect : Type :=
| POSTGRES | SNOWFLAKE | REDSHIFT | TSQL | NEO4J | ORACLE | DATABRICKS.

Inductive WriteMode : Type :=
| APPEND | UPSERT | OVERWRITE | IF_NOT_EXISTS.

Definition dialect_eqb (a b : SQLDialect) : bool :=
  match a, b with
  | POSTGRES, POSTGRES | SNOWFLAKE, SNOWFLAKE | REDSHIFT, REDSHIFT
  | TSQL, TSQL | NEO4J, NEO4J | ORACLE, ORACLE | DATABRICKS, DATABRICKS => true
  | _, _ => false
  end.

Definition mode_eqb (a b : WriteMode) : bool :=
  match a, b with
  | APPEND, APPEND | UPSERT, UPSERT | OVERWRITE, OVERWRITE
  | IF_NOT_EXISTS, IF_NOT_EXISTS => true
  | _, _ => false
  end.

(* ===================================================================== *)
(** ** The literal wrapper ([wrap_literal], [should_wrap_quotes]) *)
(* ===================================================================== *)

Module Literal.

(** The [backend] object handed to [wrap_literal]: a collaborator outside
    this class, taken as an interface. *)
Record LiteralBackend : Type := {
  sql_type_is_array : SQLDialect -> string -> bool;
  get_sql_type_category : SQLDialect -> string -> string;
  get_sql_standard_type_category : SQLDialect -> string -> string;
  literal_is_wrapped : SQLDialect -> string -> bool;
  wrap_string_literal : SQLDialect -> string -> string -> string
}.

(** [get_add_type_category]: a memoised call of
    [backend.get_sql_type_category]; the memo table does not change what
    is returned. *)
Definition get_add_type_category (type_name : string) (backend : LiteralBackend)
           (dialect : SQLDialect) : string :=
  get_sql_type_category backend dialect type_name.

(** [should_wrap_quotes]; the dialects without a branch fall off the end
    of the method, and the [None] they give is false where it is used. *)
Definition should_wrap_quotes (type_name : string) (dialect : SQLDialect)
           (backend : LiteralBackend) : bool :=
  match dialect with
  | POSTGRES =>
      if sql_type_is_array backend dialect type_name then true
      else if String.eqb type_name "money" then true
      else
        let category := get_add_type_category type_name backend dialect in
        negb (str_in category ["boolean"; "geometry"; "numeric"; "unknown"])
  | DATABRICKS =>
      str_in (lower type_name)
             ["binary"; "date"; "string"; "timestamp"; "timestamp_ntz";
              "interval day to second"; "interval year to month"]
  | TSQL =>
      let standard_cat := get_sql_standard_type_category backend dialect type_name in
      existsb (fun cat => startswith standard_cat cat)
              ["string"; "schema"; "chronological"; "pseudo"]
  | _ => false
  end.

Definition dquote : ascii := ascii_of_nat 34.
Definition squote : ascii := ascii_of_nat 39.
Definition backslash : ascii := ascii_of_nat 92.

(** [s.replace(single_quote, backslash double_quote)]: every single
    quote becomes a backslash followed by a double quote. *)
Fixpoint replace_squote (s : string) : string :=
  match s with
  | EmptyString => EmptyString
  | String c s' =>
      if Ascii.eqb c squote then String backslash (String dquote (replace_squote s'))
      else String c (replace_squote s')
  end.

(** [orig_type(str(val).replace(...))] for the values that reach
    the last branch of the first chain, an [int] or a [bool]:
    [bool(s)] is true for every non-empty string, [int(s)] parses. *)
Definition rebuild_from_text (v : pyval) : res pyval :=
  let s := replace_squote (format v) in
  match v with
  | VBool _ => Ok (VBool (negb (String.eqb s "")))
  | VInt _ =>
      match NilZero.int_of_string s with
      | Some i => Ok (VInt (Z.of_int i))
      | None => Raise (ValueError "invalid literal for int() with base 10")
      end
  | _ => Ok v
  end.

(** The first [if]/[elif] chain of [wrap_literal], which rewrites [val]
    by its runtime type.  The tests are tried in the order of the source:
    [date] first, then [datetime], [time], [timedelta], [Decimal], and
    last anything that is neither a string nor [None]. *)
Definition normalise (val : pyval) : res pyval :=
  if isinstance_date val then Ok (VStr (strftime_Ymd val))
  else if isinstance_datetime val then Ok (VStr (strftime_Ymd_HMS val))
  else if isinstance_time val then Ok (VStr (strftime_HMS val))
  else if isinstance_timedelta val then Ok (VStr (format val))
  else if isinstance_Decimal val then
    match val with
    | VDecimal d =>
        match int_of_Decimal d with
        | Ok z => Ok (VInt z)
        | Raise e => Raise e
        end
    | _ => Ok val
    end
  else if negb (isinstance_str val) && negb (is_None val) then rebuild_from_text val
  else Ok val.

(** [wrap_literal(val, type_name, backend, dialect)].  A [memoryview]
    never survives the first chain (its last branch rebuilds the value
    from text), so the array branch of the second chain is not reached
    by any value of [pyval]. *)
Definition wrap_literal (val : pyval) (type_name : option string)
           (backend : option LiteralBackend) (dialect : option SQLDialect)
  : res string :=
  match normalise val with
  | Raise e => Raise e
  | Ok val =>
      let typed :=
        match type_name, backend with
        | Some t, Some b => if String.eqb t "" then None else Some (t, b)
        | _, _ => None
        end in
      match typed with
      | Some (t, b) =>
          match dialect with
          | None => Raise (ValueError "dialect must be passed if backend is passed.")
          | Some d =>
              match val with
              | VStr s =>
                  if should_wrap_quotes t d b && negb (literal_is_wrapped b d s)
                  then Ok (wrap_string_literal b d t s)
                  else Ok (format val)
              | _ => Ok (format val)
              end
          end
      | None =>
          match val with
          | VStr s =>
              if negb (startswith s "'") && negb (endswith s "'")
              then Ok ("'" ++ s ++ "'")
              else Ok (format val)
          | _ => Ok (format val)
          end
      end
  end.

(** [wrap_literal(val)] with every optional argument left out. *)
Definition wrap_literal_untyped (val : pyval) : res string :=
  wrap_literal val None None None.

End Literal.
Export Literal.

(* ===================================================================== *)
(** ** Dictionaries, records and sets *)
(* ===================================================================== *)

(** From here on [++] is list concatenation; strings are appended with
    [(_ ++ _)%string]. *)
Open Scope list_scope.

Module Dict.

Section Assoc.
Variables (K V : Type) (keq : K -> K -> bool).

(** [d.get(k)] *)
Fixpoint lookup (k : K) (d : list (K * V)) : option V :=
  match d with
  | [] => None
  | (k', v) :: d' => if keq k k' then Some v else lookup k d'
  end.

(** [k in d] *)
Definition mem (k : K) (d : list (K * V)) : bool :=
  match lookup k d with Some _ => true | None => false end.

(** [d[k] = v]: a key already present keeps its place, a new key goes
    to the end. *)
Fixpoint set (k : K) (v : V) (d : list (K * V)) : list (K * V) :=
  match d with
  | [] => [(k, v)]
  | (k', v') :: d' => if keq k k' then (k', v) :: d' else (k', v') :: set k v d'
  end.

Definition keys (d : list (K * V)) : list K := map fst d.
End Assoc.

Fixpoint list_eqb {A} (eqb : A -> A -> bool) (l1 l2 : list A) : bool :=
  match l1, l2 with
  | [], [] => true
  | a :: l1', b :: l2' => eqb a b && list_eqb eqb l1' l2'
  | _, _ => false
  end.

(** Equality of tuples of column names. *)
Definition tuple_eqb : list string -> list string -> bool := list_eqb String.eqb.

(** A Python [set], kept as a duplicate-free list in order of first
    insertion.  Python leaves the iteration order of a set unspecified;
    nothing proved below depends on the order chosen here. *)
Fixpoint set_mem {A} (eqb : A -> A -> bool) (x : A) (s : list A) : bool :=
  match s with
  | [] => false
  | y :: s' => eqb x y || set_mem eqb x s'
  end.

Definition set_add {A} (eqb : A -> A -> bool) (x : A) (s : list A) : list A :=
  if set_mem eqb x s then s else s ++ [x].

Definition set_of_list {A} (eqb : A -> A -> bool) (l : list A) : list A :=
  fold_left (fun s x => set_add eqb x s) l [].

End Dict.

(** A record of the incoming data: a dictionary from column name to value. *)
Definition record : Type := list (string * pyval).

Definition record_get (k : string) (r : record) : option pyval :=
  Dict.lookup String.eqb k r.

Definition record_has (k : string) (r : record) : bool :=
  Dict.mem String.eqb k r.

Definition pyval_eqb (a b : pyval) : bool :=
  match a, b with
  | VNone, VNone => true
  | VBool x, VBool y => Bool.eqb x y
  | VInt x, VInt y => Z.eqb x y
  | VStr x, VStr y => String.eqb x y
  | VDate y1 m1 d1, VDate y2 m2 d2 =>
      Nat.eqb y1 y2 && Nat.eqb m1 m2 && Nat.eqb d1 d2
  | VDateTime y1 m1 d1 h1 mi1 s1, VDateTime y2 m2 d2 h2 mi2 s2 =>
      Nat.eqb y1 y2 && Nat.eqb m1 m2 && Nat.eqb d1 d2 &&
      Nat.eqb h1 h2 && Nat.eqb mi1 mi2 && Nat.eqb s1 s2
  | VTime h1 mi1 s1, VTime h2 mi2 s2 =>
      Nat.eqb h1 h2 && Nat.eqb mi1 mi2 && Nat.eqb s1 s2
  | VTimedelta x, VTimedelta y => String.eqb x y
  | VDecimal (DFinite n1 c1 e1), VDecimal (DFinite n2 c2 e2) =>
      Bool.eqb n1 n2 && N.eqb c1 c2 && Z.eqb e1 e2
  | VDecimal (DInfinity n1), VDecimal (DInfinity n2) => Bool.eqb n1 n2
  | _, _ => false
  end.

(* ===================================================================== *)
(** ** Reflected table metadata *)
(* ===================================================================== *)

Module Meta.

(** [sqlalchemy.Identity]: the only attribute read is [always]. *)
Record Identity : Type := { always : bool }.

Record Column : Type := {
  col_name : string;
  col_type : string;
  identity : option Identity
}.

Inductive Constraint : Type :=
| UniqueConstraint (cols : list Column)
| PrimaryKeyConstraint (cols : list Column)
| OtherConstraint (cols : list Column).

(** A reflected [sqlalchemy.Table]. *)
Record Table : Type := {
  columns : list Column;
  constraints : list Constraint
}.

Definition constraint_columns (k : Constraint) : list Column :=
  match k with
  | UniqueConstraint cols | PrimaryKeyConstraint cols | OtherConstraint cols => cols
  end.

Definition is_UniqueConstraint (k : Constraint) : bool :=
  match k with UniqueConstraint _ => true | _ => false end.

Definition is_PrimaryKeyConstraint (k : Constraint) : bool :=
  match k with PrimaryKeyConstraint _ => true | _ => false end.

(** [col.identity is not None and col.identity.always] *)
Definition identity_always (c : Column) : bool :=
  match identity c with Some i => always i | None => false end.

(** [col.identity is not None] *)
Definition has_identity (c : Column) : bool :=
  match identity c with Some _ => true | None => false end.

Definition constraint_names (k : Constraint) : list string :=
  map col_name (constraint_columns k).

(** [get_id_columns], on the reflected table. *)
Definition id_columns_of (table : Table) : list string :=
  map col_name (filter has_identity (columns table)).

(** The dictionary [unique_const_cts] of [get_merge_columns]: constraints
    grouped by their width. *)
Definition group_by_width (unique_const : list (list string))
  : list (nat * list (list string)) :=
  fold_left
    (fun cts const =>
       let key_len := length const in
       let cts := if Dict.mem Nat.eqb key_len cts then cts
                  else Dict.set Nat.eqb key_len [] cts in
       match Dict.lookup Nat.eqb key_len cts with
       | Some group => Dict.set Nat.eqb key_len (group ++ [const]) cts
       | None => cts
       end)
    unique_const [].

(** [max(d)] over the keys of a dictionary; empty raises. *)
Definition max_key {V} (d : list (nat * V)) : res nat :=
  match Dict.keys d with
  | [] => Raise (ValueError "max() arg is an empty sequence")
  | k :: ks => Ok (fold_left Nat.max ks k)
  end.

(** [is_unique_constraint(table_name, cols)], after reflection: are the
    columns among those of the unique and primary-key constraints? *)
Definition is_unique_constraint_of (table : Table) (cols : list string) : bool :=
  let unique_cols :=
    flat_map (fun const =>
                match const with
                | UniqueConstraint _ | PrimaryKeyConstraint _ => constraint_names const
                | OtherConstraint _ => []
                end)
             (constraints table) in
  forallb (fun c => str_in c unique_cols) cols.

(** [min(...)] over a list of widths; empty raises. *)
Definition min_width (l : list (list string)) : res nat :=
  match map (@length string) l with
  | [] => Raise (ValueError "min() arg is an empty sequence")
  | k :: ks => Ok (fold_left Nat.min ks k)
  end.

(** [get_table_columns(table_name, cols_only=False, incl_identity)]: the
    columns, without the always-generated identity columns unless asked. *)
Definition table_columns_of (table : Table) (incl_identity : bool) : list Column :=
  if incl_identity then columns table
  else filter (fun c => negb (identity_always c)) (columns table).

(** The columns [write] may insert into: those whose server default is
    not an always-generated identity. *)
Definition writable_columns (table : Table) : list (string * string) :=
  map (fun c => (col_name c, col_type c))
      (filter (fun c => negb (identity_always c)) (columns table)).

End Meta.
Export Meta.

(* ===================================================================== *)
(** ** SQL statements, sessions and the backend *)
(* ===================================================================== *)

Module Sql.

(** A cell of a result row. *)
Inductive cell : Type :=
| CNull
| CBool (b : bool)
| CInt (z : Z)
| CStr (s : string)
| CStrs (l : list string).

(** A result row, keyed by column name. *)
Definition row : Type := list (string * cell).

(** The statements the connector sends, one constructor per statement
    text of the source, carrying the values substituted into it. *)
Inductive sql : Type :=
(** [select true from {t} limit 1] ([table_exists], [table_has_data]) *)
| SelectTrueLimit1 (table : string)
(** [select top 0 * from {t}] ([table_exists], T-SQL) *)
| SelectTop0 (table : string)
(** [drop table if exists {t}] *)
| DropTableIfExists (table : string)
(** [BEGIN; LOCK TABLE {target}; CREATE TABLE {staging} (LIKE {target}
    INCLUDING ALL); COMMIT;] *)
| LockCreateLike (staging target : string)
(** [DELETE FROM {t} WHERE 1 = 1] *)
| DeleteAll (table : string)
(** [SELECT setval(pg_get_serial_sequence('{t}', 'id'), 1) from {t}] *)
| SetvalSerial (table : string)
(** [insert(target_tbl)] executed with the records; the optional casts
    of [do_explicit_cast] and the [ON CONFLICT DO NOTHING] columns. *)
| Insert (table : string) (casts : option (list (string * string)))
         (on_conflict_do_nothing : option (list string)) (rows : list record)
(** [delete(table).where(... in values)] *)
| DeleteIn (table : string) (lookup : list string) (values : list (list pyval))
(** [SELECT schemaname FROM pg_tables WHERE schemaname LIKE 'pg_temp_%'] *)
| TempSchemas
(** [create temporary table {name} as SELECT {cols} FROM {source}
    WHERE ({filter_cols}) in ({filter_vals})] *)
| CreateTempTableAs (name : string) (cols : list string) (source : string)
                    (filter_cols : list string) (filter_vals : list (list string))
(** [SELECT schemaname, tablename FROM pg_tables WHERE ... tablename = '{name}'] *)
| FullTempTableName (name : string)
(** [select '{col}' as column_name from {t} where {col} is null limit 1] *)
| NullProbe (table col : string)
(** [merge into {target} as t using {source} as s on (...) when not
    matched then insert (...) values (...) when matched then update set
    ...]; each join column says whether it is compared with
    [is not distinct from]. *)
| Merge (target source : string) (on_cols : list (string * bool))
        (insert_cols update_cols : list string)
(** [drop table {t}] *)
| DropTable (table : string)
(** the catalog query of [setup_fkey_relationships] *)
| FkeyCatalog (pkeys_only skip_builtins : bool) (builtins : string)
(** [select 1 from {parent} as p inner join {child} as c on {join_key}
    where ({filter_cols}) in ({filter_vals}) limit 1] *)
| JoinExists (parent child : string) (join_key : list (string * string))
             (filter_cols : list string) (filter_vals : list (list string)).

(** What executing a statement gives: an error of the driver, rows, or
    no rows; the database after the statement. *)
Inductive exec_result (DB : Type) : Type :=
| Failed (e : db_error)
| Rows (rs : list row) (db' : DB)
| Done (db' : DB).
Arguments Failed {DB} e.
Arguments Rows {DB} rs db'.
Arguments Done {DB} db'.

(** The world outside the connector: the database engine, the metadata
    reflection of SQLAlchemy, and the conversions of [_COERCE_METHODS],
    looked up by the type of the column. *)
Record Backend : Type := {
  DB : Type;
  run : DB -> sql -> exec_result DB;
  reflect : DB -> string -> option Table;
  coerce_methods : string -> option (pyval -> res pyval)
}.

(** Sessions are objects; one is either handed in by the caller of the
    connector or opened by the connector itself ([Session(self.engine)]),
    numbered in order of creation. *)
Inductive session_id : Type :=
| CallerSession (n : nat)
| OwnSession (n : nat).

Definition session_eqb (a b : session_id) : bool :=
  match a, b with
  | CallerSession x, CallerSession y => Nat.eqb x y
  | OwnSession x, OwnSession y => Nat.eqb x y
  | _, _ => false
  end.

(** What a session was asked to do. *)
Inductive event : Type :=
| EvExec (s : session_id) (q : sql)
| EvCommit (s : session_id)
| EvClose (s : session_id)
| EvRollback (s : session_id).

Definition event_session (e : event) : session_id :=
  match e with
  | EvExec s _ | EvCommit s | EvClose s | EvRollback s => s
  end.

End Sql.
Export Sql.

(** The relationship graph: parent table -> child table -> parent key
    tuple -> list of child key tuples. *)
Definition fkeys_t : Type := list (list string * list (list string)).
Definition children_t : Type := list (string * fkeys_t).
Definition relationships_t : Type := list (string * children_t).

(* ===================================================================== *)
(** ** The connector's state and its monad *)
(* ===================================================================== *)

Section Monad.

Variable B : Backend.

(** The mutable state a method can touch: the database, the cache
    [self.relationships], the log of session events, the number of
    sessions opened so far, and the random source with the number of
    draws taken from it. *)
Record state : Type := {
  st_db : DB B;
  st_relationships : relationships_t;
  st_log : list event;
  st_next_session : nat;
  st_rand : nat -> nat;
  st_tick : nat
}.

Definition M (A : Type) : Type := state -> res A * state.

Definition ret {A} (a : A) : M A := fun st => (Ok a, st).

Definition raise {A} (e : exn) : M A := fun st => (Raise e, st).

Definition bind {A C} (m : M A) (f : A -> M C) : M C :=
  fun st =>
    match m st with
    | (Ok a, st') => f a st'
    | (Raise e, st') => (Raise e, st')
    end.

(** [try: m except Exception as ex: handler(ex)] *)
Definition try_except {A} (m : M A) (handler : exn -> M A) : M A :=
  fun st =>
    match m st with
    | (Ok a, st') => (Ok a, st')
    | (Raise e, st') => handler e st'
    end.

Definition lift {A} (r : res A) : M A :=
  match r with Ok a => ret a | Raise e => raise e end.

Definition get_state : M state := fun st => (Ok st, st).

Definition emit (e : event) : M unit :=
  fun st =>
    (Ok tt, {| st_db := st_db st; st_relationships := st_relationships st;
               st_log := st_log st ++ [e];
               st_next_session := st_next_session st;
               st_rand := st_rand st; st_tick := st_tick st |}).

Definition set_db (d : DB B) : M unit :=
  fun st =>
    (Ok tt, {| st_db := d; st_relationships := st_relationships st;
               st_log := st_log st;
               st_next_session := st_next_session st;
               st_rand := st_rand st; st_tick := st_tick st |}).

Definition set_relationships (r : relationships_t) : M unit :=
  fun st =>
    (Ok tt, {| st_db := st_db st; st_relationships := r;
               st_log := st_log st;
               st_next_session := st_next_session st;
               st_rand := st_rand st; st_tick := st_tick st |}).

(** [Session(self.engine)] *)
Definition new_session : M session_id :=
  fun st =>
    (Ok (OwnSession (st_next_session st)),
     {| st_db := st_db st; st_relationships := st_relationships st;
        st_log := st_log st;
        st_next_session := S (st_next_session st);
        st_rand := st_rand st; st_tick := st_tick st |}).

(** One draw from the random source. *)
Definition draw : M nat :=
  fun st =>
    (Ok (st_rand st (st_tick st)),
     {| st_db := st_db st; st_relationships := st_relationships st;
        st_log := st_log st;
        st_next_session := st_next_session st;
        st_rand := st_rand st; st_tick := S (st_tick st) |}).

(** [session.execute(...)]: the statement is logged, then run; [None]
    stands for a result that returns no rows. *)
Definition session_execute (s : session_id) (q : sql) : M (option (list row)) :=
  bind (emit (EvExec s q)) (fun _ =>
  bind get_state (fun st =>
    match run B (st_db st) q with
    | Failed e => raise (SQLAlchemyError e)
    | Rows rs db' => bind (set_db db') (fun _ => ret (Some rs))
    | Done db' => bind (set_db db') (fun _ => ret None)
    end)).

Definition session_commit (s : session_id) : M unit := emit (EvCommit s).
Definition session_close (s : session_id) : M unit := emit (EvClose s).
Definition session_rollback (s : session_id) : M unit := emit (EvRollback s).

(** [any(f(x) for x in l)] and loops that return at the first hit. *)
Fixpoint existsM {A} (f : A -> M bool) (l : list A) : M bool :=
  match l with
  | [] => ret false
  | x :: l' => bind (f x) (fun b => if b then ret true else existsM f l')
  end.

(** [[x for x in l if f(x)]] with an effectful test. *)
Fixpoint filterM {A} (f : A -> M bool) (l : list A) : M (list A) :=
  match l with
  | [] => ret []
  | x :: l' =>
      bind (f x) (fun b =>
      bind (filterM f l') (fun rest => ret (if b then x :: rest else rest)))
  end.

(** [[f(x) for x in l]] with an effectful body. *)
Fixpoint mapM {A C} (f : A -> M C) (l : list A) : M (list C) :=
  match l with
  | [] => ret []
  | x :: l' => bind (f x) (fun y => bind (mapM f l') (fun ys => ret (y :: ys)))
  end.

(** [for x in l: f(x)] *)
Fixpoint forM_ {A} (f : A -> M unit) (l : list A) : M unit :=
  match l with
  | [] => ret tt
  | x :: l' => bind (f x) (fun _ => forM_ f l')
  end.

End Monad.

Arguments ret {B A} a _.
Arguments raise {B A} e _.
Arguments lift {B A} r _.
Arguments bind {B A C} m f _.
Arguments try_except {B A} m handler _.
Arguments get_state {B} _.
Arguments emit {B} e _.
Arguments set_db {B} d _.
Arguments set_relationships {B} r _.
Arguments new_session {B} _.
Arguments draw {B} _.
Arguments session_execute {B} s q _.
Arguments session_commit {B} s _.
Arguments session_close {B} s _.
Arguments session_rollback {B} s _.
Arguments existsM {B A} f l _.
Arguments filterM {B A} f l _.
Arguments mapM {B A C} f l _.
Arguments forM_ {B A} f l _.

Declare Scope conn_scope.
Delimit Scope conn_scope with conn.
Notation "x <- m ;; k" := (bind m (fun x => k))
  (at level 61, m at next level, right associativity) : conn_scope.
Notation "m ;; k" := (bind m (fun _ => k))
  (at level 61, right associativity) : conn_scope.
Open Scope conn_scope.

(* ===================================================================== *)
(** ** The connector ([SQLAlchemyConnector]) *)
(* ===================================================================== *)

(** [parent_column] of [tables_are_linked_by] is annotated [str]; Python
    does not enforce the annotation, and the membership test it is used in
    is against tuple keys, so both shapes are kept. *)
Inductive pykey : Type :=
| KStr (s : string)
| KTuple (t : list string).

Definition truthy_rows (r : option (list row)) : bool :=
  match r with
  | Some (_ :: _) => true
  | _ => false
  end.

Definition is_some {A} (o : option A) : bool :=
  match o with Some _ => true | None => false end.

(** [data[a:b]] *)
Definition slice {A} (a b : nat) (l : list A) : list A := firstn (b - a) (skipn a l).

(** [r[key]] on a result row, read as a string *)
Definition row_str (key : string) (r : row) : res string :=
  match Dict.lookup String.eqb key r with
  | Some (CStr s) => Ok s
  | Some _ => Raise (TypeError "expected str")
  | None => Raise (KeyError key)
  end.

(** [tuple(r[key])] on a result row holding an array of names *)
Definition row_strs (key : string) (r : row) : res (list string) :=
  match Dict.lookup String.eqb key r with
  | Some (CStrs l) => Ok l
  | Some _ => Raise (TypeError "expected a sequence")
  | None => Raise (KeyError key)
  end.

(** [set(a).intersection(b)] is non-empty *)
Definition intersects (a b : list string) : bool :=
  existsb (fun x => str_in x b) a.

(** One step of the loop of [setup_fkey_relationships]: the row's child
    key tuple is added under [parent_table][child_table][parent_cols]. *)
Definition add_relationship (rels : relationships_t)
           (parent_table child_table : string) (parent_cols fkey_cols : list string)
  : relationships_t :=
  let rels :=
    if Dict.mem String.eqb parent_table rels then rels
    else Dict.set String.eqb parent_table [] rels in
  let by_child :=
    match Dict.lookup String.eqb parent_table rels with Some m => m | None => [] end in
  let by_child :=
    if Dict.mem String.eqb child_table by_child then by_child
    else Dict.set String.eqb child_table [] by_child in
  let by_key :=
    match Dict.lookup String.eqb child_table by_child with Some m => m | None => [] end in
  let by_key :=
    if Dict.mem Dict.tuple_eqb parent_cols by_key then by_key
    else Dict.set Dict.tuple_eqb parent_cols [] by_key in
  let fkeys :=
    match Dict.lookup Dict.tuple_eqb parent_cols by_key with Some s => s | None => [] end in
  let fkeys := Dict.set_add Dict.tuple_eqb fkey_cols fkeys in
  Dict.set String.eqb parent_table
    (Dict.set String.eqb child_table
       (Dict.set Dict.tuple_eqb parent_cols fkeys by_key) by_child) rels.

(** [parent_column in child_tables[child_table]]: the keys are tuples, so
    a string is never among them. *)
Definition key_in (k : pykey) (d : fkeys_t) : bool :=
  match k with
  | KStr _ => false
  | KTuple t => Dict.mem Dict.tuple_eqb t d
  end.

(** The result of [get_merge_columns] before the random choice: either the
    primary key, returned as it is, or the candidates [unique_cols] handed
    to [random.choice]. *)
Inductive merge_plan : Type :=
| UsePrimaryKey (cols : list string)
| ChooseAmong (unique_cols : list (list string)).

Definition merge_columns_plan (table : Table) (data : option (list record))
           (ignore_identity : bool) : res merge_plan :=
  let unique_const := filter is_UniqueConstraint (constraints table) in
  (* Exclude constraints where an id column is used if requested *)
  let unique_const :=
    if ignore_identity
    then filter (fun const => negb (existsb identity_always (constraint_columns const)))
                unique_const
    else unique_const in
  let unique_const := map constraint_names unique_const in
  (* keep the constraints whose columns are all in [data[0]] *)
  let unique_const :=
    match data with
    | Some (r0 :: _) =>
        filter (fun const => forallb (fun c => record_has c r0) const) unique_const
    | _ => unique_const
    end in
  let pkey_const := filter is_PrimaryKeyConstraint (constraints table) in
  let pkey_const :=
    match pkey_const with
    | k :: _ => constraint_columns k
    | [] => []
    end in
  (* Prefer primary key column by default *)
  if negb (Nat.eqb (length pkey_const) 0) && negb (existsb identity_always pkey_const)
  then Ok (UsePrimaryKey (map col_name pkey_const))
  else
    (* Choose the widest constraint *)
    let unique_const_cts := group_by_width unique_const in
    match max_key unique_const_cts with
    | Raise e => Raise e
    | Ok max_cols =>
        let id_columns := id_columns_of table in
        let widest :=
          match Dict.lookup Nat.eqb max_cols unique_const_cts with
          | Some g => g
          | None => []
          end in
        Ok (ChooseAmong
              (filter (fun const => negb (existsb (fun c => str_in c id_columns) const))
                      widest))
    end.

(** The candidates of [get_unique_constraint_columns(table_name,
    ignore_identity, all_constraints=False)] before the random choice. *)
Definition unique_constraint_candidates (table : Table) (ignore_identity : bool)
  : res (list (list string)) :=
  let unique_const :=
    flat_map
      (fun const =>
         match const with
         | UniqueConstraint cols | PrimaryKeyConstraint cols =>
             if ignore_identity && existsb has_identity cols then []
             else match map col_name cols with
                  | [] => []
                  | elems => [elems]
                  end
         | OtherConstraint _ => []
         end)
      (constraints table) in
  match unique_const with
  | [only] => Ok [only]
  | _ =>
      match min_width unique_const with
      | Raise e => Raise e
      | Ok narrowest_width =>
          Ok (filter (fun cols => Nat.eqb (length cols) narrowest_width) unique_const)
      end
  end.

(** The conversions [write] applies to a record: for every column whose
    type has an entry in [_COERCE_METHODS], a value that is not [None] is
    converted. *)
Fixpoint coerce_record (coerce : list (string * (pyval -> res pyval))) (r : record)
  : res record :=
  match r with
  | [] => Ok []
  | (col, v) :: r' =>
      let v' :=
        match Dict.lookup String.eqb col coerce with
        | Some f => if is_None v then Ok v else f v
        | None => Ok v
        end in
      match v' with
      | Raise e => Raise e
      | Ok v' =>
          match coerce_record coerce r' with
          | Raise e => Raise e
          | Ok r'' => Ok ((col, v') :: r'')
          end
      end
  end.

Fixpoint coerce_data (coerce : list (string * (pyval -> res pyval))) (data : list record)
  : res (list record) :=
  match data with
  | [] => Ok []
  | r :: data' =>
      match coerce_record coerce r with
      | Raise e => Raise e
      | Ok r' =>
          match coerce_data coerce data' with
          | Raise e => Raise e
          | Ok d => Ok (r' :: d)
          end
      end
  end.

(** [[{col: record[col] for col in record if col in columns} for record in data]] *)
Definition keep_columns (columns : list (string * string)) (data : list record)
  : list record :=
  map (fun r : record => filter (fun cv => Dict.mem String.eqb (fst cv) columns) r) data.

(** The set of lookup tuples [upsert] builds from the records. *)
Definition upsert_values (upsert_cols : list string) (data : list record)
  : list (list pyval) :=
  Dict.set_of_list (Dict.list_eqb pyval_eqb)
    (map (fun r : record =>
            flat_map (fun k => match record_get k r with
                               | Some v => [v]
                               | None => []
                               end)
                     upsert_cols)
         data).

(** [format_table_for_metadata] *)
Definition format_table_for_metadata (table_name : string) : option string :=
  match split_dot table_name with
  | [_; s; t] => Some (lower (s ++ "." ++ t)%string)
  | [_; _] => Some (lower table_name)
  | _ => None
  end.

(** The fixed threshold of [write]. *)
Definition CHUNK_SIZE : nat := 100 * 100.

Section Connector.

Variable B : Backend.

(** [self.dialect] and [self.built_in_schemas], fixed by [connect]. *)
Variable dialect : SQLDialect.
Variable built_in_schemas : list string.

(** *** Sessions and statements *)

(** [execute(query, out_mode, session, rollback_stmt)].  Rows are kept
    keyed by column in every output mode. *)
Definition execute (query : sql) (session : option session_id) (rollback_stmt : bool)
  : M B (option (list row)) :=
  let is_sub := is_some session in
  session <- match session with
             | Some s => ret s
             | None => new_session
             end ;;
  results <-
    try_except
      (results <- session_execute session query ;;
       match results with
       | None =>
           (if negb is_sub && negb rollback_stmt
            then (session_commit session ;; session_close session)
            else if negb is_sub && rollback_stmt
                 then session_rollback session
                 else ret tt) ;;
           ret None
       | Some data => ret (Some data)
       end)
      (fun ex => session_close session ;; raise ex) ;;
  match results with
  | None => ret None
  | Some data =>
      (if negb is_sub && negb rollback_stmt
       then session_close session
       else if negb is_sub && rollback_stmt
            then session_rollback session
            else ret tt) ;;
      ret (Some data)
  end.

(** [read(query, query=True, session=session)] *)
Definition read (query : sql) (session : option session_id) : M B (option (list row)) :=
  execute query session false.

(** [__finalize_transaction(session, is_sub, do_commit)] *)
Definition finalize_transaction (session : session_id) (is_sub do_commit : bool)
  : M B unit :=
  (* Commit each transaction if requested *)
  if do_commit && negb is_sub then
    (session_commit session ;; session_close session)
  (* Commit without closing session *)
  else if do_commit then session_commit session
  (* Commit and close session *)
  else if negb is_sub then
    (session_commit session ;; session_close session)
  else ret tt.

(** [table_exists(table_name, session)] *)
Definition table_exists (table_name : string) (session : option session_id) : M B bool :=
  query <- match dialect with
           | TSQL => ret (SelectTop0 table_name)
           | POSTGRES => ret (SelectTrueLimit1 table_name)
           | _ => raise (RuntimeError "Not supported for dialect.")
           end ;;
  try_except
    (read query session ;; ret true)
    (fun ex =>
       match ex with
       | SQLAlchemyError UndefinedTable
       | SQLAlchemyError InvalidObjectName => ret false
       | _ => raise ex
       end).

(** [table_has_data(table_name)] *)
Definition table_has_data (table_name : string) : M B bool :=
  records <- read (SelectTrueLimit1 table_name) None ;;
  ret (truthy_rows records).

(** [drop_table(table_name)] *)
Definition drop_table (table_name : string) : M B unit :=
  execute (DropTable table_name) None false ;; ret tt.

(** *** Reflection *)

(** [get_table_obj(table_name)]: the reflected table, or the error of
    SQLAlchemy when there is none after the second attempt. *)
Definition get_table_obj (table_name : string) : M B Table :=
  st <- get_state ;;
  match reflect B (st_db st) table_name with
  | Some t => ret t
  | None => raise (NoSuchTableError table_name)
  end.

(** [self.metadata_tables[formatted]] *)
Definition metadata_table (formatted : option string) : M B Table :=
  match formatted with
  | None => raise (KeyError "None")
  | Some f =>
      st <- get_state ;;
      match reflect B (st_db st) f with
      | Some t => ret t
      | None => raise (KeyError f)
      end
  end.

(** [get_column_schema(table, names_only=True)]; [table] is [None] where
    the caller passes the [None] that [create_temp_table] can return. *)
Definition get_column_schema_names (table : option string) : M B (list string) :=
  match table with
  | None => raise (AttributeError "'NoneType' object has no attribute 'lower'")
  | Some table =>
      match split_dot (lower table) with
      | [_; _] =>
          t <- get_table_obj (lower table) ;;
          ret (map (fun c => lower (col_name c)) (columns t))
      | _ => raise (ValueError "wrong number of values to unpack")
      end
  end.

(** [get_table_columns(table_name, cols_only=False, incl_identity)] *)
Definition get_table_columns (table_name : string) (incl_identity : bool)
  : M B (list Column) :=
  match split_dot table_name with
  | [_; _] | [_] =>
      t <- get_table_obj table_name ;;
      ret (table_columns_of t incl_identity)
  | _ => raise (ValueError "wrong number of values to unpack")
  end.

(** [random.choice(seq)] *)
Definition random_choice {A} (l : list A) : M B A :=
  match l with
  | [] => raise (IndexError "Cannot choose from an empty sequence")
  | _ =>
      r <- draw ;;
      match nth_error l (r mod length l) with
      | Some x => ret x
      | None => raise (IndexError "list index out of range")
      end
  end.

(** [random.randint(a, b)] *)
Definition randint (a b : nat) : M B nat :=
  r <- draw ;; ret (a + r mod (b - a + 1)).

(** [get_merge_columns(table_name, data, ignore_identity)] *)
Definition get_merge_columns (table_name : string) (data : option (list record))
           (ignore_identity : bool) : M B (list string) :=
  table <- get_table_obj table_name ;;
  plan <- lift (merge_columns_plan table data ignore_identity) ;;
  match plan with
  | UsePrimaryKey cols => ret cols
  | ChooseAmong [] => ret []
  | ChooseAmong unique_cols => random_choice unique_cols
  end.

(** [is_unique_constraint(table_name, cols)] *)
Definition is_unique_constraint (table_name : string) (cols : list string) : M B bool :=
  table <- get_table_obj table_name ;;
  ret (is_unique_constraint_of table cols).

(** [get_unique_constraint_columns(table_name, all_constraints=False)] *)
Definition get_unique_constraint_columns (table_name : string) : M B (list string) :=
  table <- get_table_obj table_name ;;
  candidates <- lift (unique_constraint_candidates table true) ;;
  match candidates with
  | [] => raise (IndexError "list index out of range")
  | [only] => ret only
  | _ => random_choice candidates
  end.

(** *** The relationship graph *)

(** [setup_fkey_relationships(skip_builtins, overwrite, pkeys_only)] *)
Definition setup_fkey_relationships (skip_builtins overwrite pkeys_only : bool)
  : M B unit :=
  st <- get_state ;;
  match st_relationships st, overwrite with
  | _ :: _, false => ret tt
  | _, _ =>
      (* Overwrite the data or pull data initially *)
      set_relationships [] ;;
      let builtins := lower (join "','" built_in_schemas) in
      query <- match dialect with
               | POSTGRES => ret (FkeyCatalog pkeys_only skip_builtins builtins)
               | _ => raise (RuntimeError "Not supported yet for dialect.")
               end ;;
      data <- read query None ;;
      match data with
      | None => raise (TypeError "'NoneType' object is not iterable")
      | Some data =>
          forM_ (fun r =>
                   parent_table <- lift (row_str "parent_table" r) ;;
                   child_table <- lift (row_str "child_table" r) ;;
                   parent_cols <- lift (row_strs "parent_keys" r) ;;
                   fkey_cols <- lift (row_strs "child_keys" r) ;;
                   st <- get_state ;;
                   set_relationships
                     (add_relationship (st_relationships st)
                        parent_table child_table parent_cols fkey_cols))
                data
      end
  end.

(** [get_foreign_keys(parent_table)], with [child_table] and [pkey] left
    out: the children of the table, or [None]. *)
Definition get_foreign_keys (parent_table : string) : M B (option children_t) :=
  setup_fkey_relationships true false false ;;
  st <- get_state ;;
  ret (Dict.lookup String.eqb parent_table (st_relationships st)).

(** [has_dependent_tables(parent_table)] *)
Definition has_dependent_tables (parent_table : string) : M B bool :=
  st <- get_state ;;
  ret (Dict.mem String.eqb parent_table (st_relationships st)).

(** [tables_are_linked_by(parent_table, child_table, parent_column,
    checked)].  The set [checked] is one object shared by the whole
    recursion (an empty or missing one is replaced by a fresh set first),
    so it is threaded through and returned.  The result is [Some b] for
    a returned boolean and [None] where the method falls off its end.
    [depth] is the call depth left before Python gives up. *)
Section LinkedLoops.
Variable recur : string -> list string -> M B (option bool * list string).

Fixpoint linked_inner (sub_child : string) (fkeys : list (list string))
         (checked : list string) : M B (bool * list string) :=
  match fkeys with
  | [] => ret (false, checked)
  | _ :: rest =>
      rc <- recur sub_child checked ;;
      match fst rc with
      | Some true => ret (true, snd rc)
      | _ => linked_inner sub_child rest (snd rc)
      end
  end.

Fixpoint linked_outer (items : children_t) (checked : list string)
  : M B (bool * list string) :=
  match items with
  | [] => ret (false, checked)
  | (sub_child, fkeys) :: rest =>
      if str_in sub_child checked then linked_outer rest checked
      else
        rc <- linked_inner sub_child (Dict.keys fkeys) checked ;;
        if fst rc then ret (true, snd rc)
        else linked_outer rest (snd rc)
  end.
End LinkedLoops.

Fixpoint tables_are_linked_by (depth : nat) (parent_table child_table : string)
         (parent_column : pykey) (checked : list string)
  : M B (option bool * list string) :=
  match depth with
  | O => raise RecursionError
  | S depth' =>
      child_tables <- get_foreign_keys parent_table ;;
      match child_tables with
      | None => raise (TypeError "argument of type 'NoneType' is not iterable")
      | Some child_tables =>
          match Dict.lookup String.eqb child_table child_tables with
          | None => ret (Some false, checked)
          | Some fkeys =>
              (* If directly reachable then indicate true *)
              if key_in parent_column fkeys then ret (Some true, checked)
              else
                let checked := Dict.set_add String.eqb child_table checked in
                (* Traverse the graph to determine if reachable *)
                rc <- linked_outer
                        (fun sub_child checked =>
                           tables_are_linked_by depth' parent_table sub_child
                                                parent_column checked)
                        child_tables checked ;;
                if fst rc then ret (Some true, snd rc)
                else ret (None, snd rc)
          end
      end
  end.


(** *** Temporary and staging tables *)

(** [[wrap_literal(v) for v in f_col_val]] for every lookup tuple *)
Fixpoint wrap_tuple (vs : list pyval) : res (list string) :=
  match vs with
  | [] => Ok []
  | v :: vs' =>
      match wrap_literal_untyped v with
      | Raise e => Raise e
      | Ok s => match wrap_tuple vs' with
                | Raise e => Raise e
                | Ok ss => Ok (s :: ss)
                end
      end
  end.

Fixpoint wrap_tuples (vals : list (list pyval)) : res (list (list string)) :=
  match vals with
  | [] => Ok []
  | t :: vals' =>
      match wrap_tuple t with
      | Raise e => Raise e
      | Ok s => match wrap_tuples vals' with
                | Raise e => Raise e
                | Ok ss => Ok (s :: ss)
                end
      end
  end.

(** [get_temp_schemas(session)] *)
Definition get_temp_schemas (session : option session_id) : M B (option (list string)) :=
  records <- read TempSchemas session ;;
  match records with
  | Some (r :: rs) =>
      names <- mapM (fun r => lift (row_str "schemaname" r)) (r :: rs) ;;
      ret (Some names)
  | _ => ret None
  end.

(** [get_object_schema(obj_name)] *)
Definition get_object_schema (obj_name : string) : option string :=
  match split_dot obj_name with
  | [_; schema; _] => Some schema
  | [schema; _] => Some schema
  | _ => None
  end.

Definition contains_dot (s : string) : bool := Nat.leb 1 (count_dot s).

(** [name.split(".")[-1]] *)
Definition last_component (s : string) : string := last (split_dot s) "".

(** The [while] loop of [get_random_temp_table_name]; [remaining] is
    [20 - retry_ct].  The existence test comes before the test of the
    counter, as in the source. *)
Fixpoint retry_temp_name (remaining : nat) (base_name : string) (must_not_exist : bool)
         (session : option session_id) (tmp_tbl_name : string) : M B (string * nat) :=
  if must_not_exist then ret (tmp_tbl_name, remaining)
  else
    taken <- table_exists tmp_tbl_name session ;;
    match remaining with
    | S remaining' =>
        if taken then
          r <- randint 1 1000 ;;
          retry_temp_name remaining' base_name must_not_exist session
                          (base_name ++ str_nat r)%string
        else ret (tmp_tbl_name, remaining)
    | O => ret (tmp_tbl_name, O)
    end.

(** [get_random_temp_table_name(base_name, session, must_not_exist)] *)
Definition get_random_temp_table_name (base_name : option string)
           (session : option session_id) (must_not_exist : bool) : M B string :=
  schemas <- get_temp_schemas session ;;
  let schemas := match schemas with Some l => l | None => [] end in
  let no_base := match base_name with
                 | None => true
                 | Some b => String.eqb b ""
                 end in
  base_name <- (match schemas with
                | _ :: _ =>
                    if no_base then
                      c <- random_choice schemas ;; ret (Some (c ++ ".")%string)
                    else ret base_name
                | [] => ret base_name
                end) ;;
  match base_name with
  | None => raise (TypeError "argument of type 'NoneType' is not iterable")
  | Some base_name =>
      (* Do not use schema that isn't temp if was provided in base_name *)
      base_name <-
        (if contains_dot base_name &&
            negb (match get_object_schema base_name with
                  | Some sch => str_in sch schemas
                  | None => false
                  end)
         then
           match schemas with
           | [] => ret (last_component base_name)
           | _ :: _ =>
               c <- random_choice schemas ;;
               ret (c ++ "." ++ last_component base_name)%string
           end
         else ret base_name) ;;
      r <- randint 1 1000 ;;
      res <- retry_temp_name 20 base_name must_not_exist session
                             (base_name ++ str_nat r)%string ;;
      match snd res with
      | O => raise (RuntimeError "Could not genereate temp table name after 20 retries.")
      | S _ => ret (fst res)
      end
  end.

(** [get_full_temp_table_name(tmp_table_name, session)] *)
Definition get_full_temp_table_name (tmp_table_name : string)
           (session : option session_id) : M B (option string) :=
  records <- read (FullTempTableName (lower tmp_table_name)) session ;;
  match records with
  | Some (r :: rs) =>
      names <- mapM (fun r =>
                       sch <- lift (row_str "schemaname" r) ;;
                       tbl <- lift (row_str "tablename" r) ;;
                       ret (sch ++ "." ++ tbl)%string)
                    (r :: rs) ;;
      ret (hd_error names)
  | _ => ret None
  end.

(** [create_temp_table(source_query, tmp_table_name, session)], for the
    one shape of source query the class builds: the columns of [source]
    filtered by the lookup tuples. *)
Definition create_temp_table (cols : list string) (source : string)
           (filter_cols : list string) (filter_vals : list (list string))
           (tmp_table_name : option string) (session : option session_id)
  : M B (option string) :=
  tmp_table_name <-
    (match tmp_table_name with
     | Some n => if String.eqb n ""
                 then get_random_temp_table_name None session true
                 else ret n
     | None => get_random_temp_table_name None session true
     end) ;;
  (* Do not use schema in temp table name *)
  tmp_table_name <-
    (if contains_dot tmp_table_name then
       match split_dot tmp_table_name with
       | [_; t] => ret t
       | _ => raise (ValueError "wrong number of values to unpack")
       end
     else ret tmp_table_name) ;;
  execute (CreateTempTableAs tmp_table_name cols source filter_cols filter_vals)
          session false ;;
  (* If schema not provided then get the full table name *)
  if negb (contains_dot tmp_table_name)
  then get_full_temp_table_name tmp_table_name session
  else ret (Some tmp_table_name).

(** [get_columns_with_null_records(table_name, session)] *)
Definition get_columns_with_null_records (table_name : option string)
           (session : option session_id) : M B (list string) :=
  cols <- get_column_schema_names table_name ;;
  filterM (fun col =>
             records <- read (NullProbe
                                (match table_name with Some t => t | None => "None" end)
                                col) session ;;
             ret (truthy_rows records))
          cols.

(** [__downstream_data_exists_for_cols(table_name, upsert_cols)]; the
    dictionary [upsert_cols] has one entry, the lookup tuple and its
    list of values. *)
Definition downstream_data_exists_for_cols (table_name : string)
           (lookup : list string) (values : list (list pyval)) : M B bool :=
  child_tables <- get_foreign_keys table_name ;;
  match child_tables with
  | None | Some [] => ret false
  | Some child_tables =>
      filter_vals <- lift (wrap_tuples values) ;;
      existsM
        (fun entry : string * fkeys_t =>
           let child_table := fst entry in
           let relationships := snd entry in
           has_data <- table_has_data child_table ;;
           if negb has_data then ret false
           else if negb (existsb (fun rels => intersects rels lookup)
                                 (Dict.keys relationships))
                then ret false
                else
                  let candidates :=
                    filter (fun kv => intersects (fst kv) lookup) relationships in
                  existsM
                    (fun cand : list string * list (list string) =>
                       existsM
                         (fun fkey =>
                            records <- read (JoinExists table_name child_table
                                               (combine (fst cand) fkey)
                                               lookup filter_vals) None ;;
                            ret (truthy_rows records))
                         (snd cand))
                    candidates)
        child_tables
  end.

(** *** Writing *)

Section Knot.

(** The method [write], for the calls the methods below make back
    into it. *)
Variable write_rec :
  list record -> string -> WriteMode -> option session_id -> bool ->
  option (list (string * string)) -> option (list string) -> bool -> M B unit.

(** [create_staging_table(table_name, data, session)] *)
Definition create_staging_table (table_name : string) (data : option (list record))
           (session : option session_id) : M B string :=
  let staging_table_name := (table_name ++ "_staging")%string in
  execute (DropTableIfExists staging_table_name) session false ;;
  execute (LockCreateLike staging_table_name table_name) session false ;;
  match data with
  | Some data =>
      write_rec data staging_table_name OVERWRITE None false None None false
  | None => ret tt
  end ;;
  ret staging_table_name.

(** [merge_tables(source, target, merge_cols, filter_values, session,
    do_commit)] *)
Definition merge_tables (source target : string) (merge_cols : option (list string))
           (filter_values : option (list string * list (list pyval)))
           (session : option session_id) (do_commit : bool) : M B unit :=
  let is_sub := is_some session in
  session <- match session with
             | Some s => ret s
             | None => new_session
             end ;;
  columns <- get_table_columns target false ;;
  let col_names := map col_name columns in
  merge_cols <-
    (match merge_cols with
     | None =>
         mc <- get_merge_columns target None true ;;
         match mc with
         | [] => raise (ValueError "No unique columns or merge columns specified for table")
         | _ => ret mc
         end
     | Some mc => ret mc
     end) ;;
  (* Filter out source set if filter_values was provided using a CTE *)
  using_ <-
    (match filter_values with
     | Some (lookup, values) =>
         filter_vals <- lift (wrap_tuples values) ;;
         tmp_tbl_name <-
           get_random_temp_table_name (Some (target ++ "_source_")%string) None false ;;
         create_temp_table col_names source lookup filter_vals
                           (Some tmp_tbl_name) (Some session)
     | None => ret (Some source)
     end) ;;
  match merge_cols with
  | [] => raise (ValueError "Could not determine columns to perform merge with.")
  | _ =>
      source_columns_null_records <-
        get_columns_with_null_records using_ (Some session) ;;
      target_columns_null_records <-
        get_columns_with_null_records (Some target) (Some session) ;;
      (* Use IS NOT DISTINCT FROM to handle null presence in either column *)
      let match_stmt :=
        map (fun c =>
               (c, negb (negb (str_in c source_columns_null_records) &&
                         negb (str_in c target_columns_null_records))))
            merge_cols in
      let update_stmt := filter (fun c => negb (str_in c merge_cols)) col_names in
      session_execute session
        (Merge target (match using_ with Some u => u | None => "None" end)
               match_stmt col_names update_stmt) ;;
      finalize_transaction session is_sub do_commit
  end.

(** [merge_data(data, table_name, merge_cols, filter_values, session,
    do_commit)] *)
Definition merge_data (data : list record) (table_name : string)
           (merge_cols : option (list string))
           (filter_values : option (list string * list (list pyval)))
           (session : option session_id) (do_commit : bool) : M B unit :=
  staging_table_name <- create_staging_table table_name (Some data) session ;;
  merge_tables staging_table_name table_name merge_cols filter_values
               session do_commit ;;
  drop_table staging_table_name.

(** How [upsert] settles its lookup columns: those passed in, else the
    set of [get_merge_columns(table_name)]. *)
Definition resolve_upsert_cols (table_name : string)
           (upsert_cols : option (list string)) : M B (list string) :=
  match upsert_cols with
  | None =>
      cols <- get_merge_columns table_name None true ;;
      ret (Dict.set_of_list String.eqb cols)
  | Some cols => ret cols
  end.

(** [upsert(data, table_name, upsert_cols, session, do_commit)], in
    the two stages of the source: first everything up to and including
    the test of its [if] (the lookup columns and values, the session,
    the column check, the relationship graph and the probes for
    dependent data), then the branch taken and the closing
    [__finalize_transaction]. *)
Record upsert_plan : Type := {
  up_lookup : list string;
  up_values : list (list pyval);
  up_session : session_id;
  up_is_sub : bool;
  up_merge : bool
}.

Definition upsert_decide (data : list record) (table_name : string)
           (upsert_cols : option (list string))
           (session : option session_id) : M B upsert_plan :=
  (* Use unique key as upsert columns if not provided *)
  lookup <- resolve_upsert_cols table_name upsert_cols ;;
  let upsert_vals := upsert_values lookup data in
  let is_sub := is_some session in
  session <- match session with
             | Some s => ret s
             | None => new_session
             end ;;
  get_table_obj table_name ;;
  (* Throw exception if not all of the upsert columns are present *)
  table_cols <- get_column_schema_names (Some table_name) ;;
  let invalid := filter (fun c => negb (str_in c table_cols)) lookup in
  match invalid with
  | _ :: _ =>
      raise (ValueError "The following upsert columns not present in the table.")
  | [] =>
      setup_fkey_relationships false false false ;;
      dependent <- has_dependent_tables table_name ;;
      downstream <-
        (if dependent
         then downstream_data_exists_for_cols table_name lookup upsert_vals
         else ret false) ;;
      ret {| up_lookup := lookup; up_values := upsert_vals;
             up_session := session; up_is_sub := is_sub;
             up_merge := downstream |}
  end.

Definition upsert_apply (data : list record) (table_name : string)
           (do_commit : bool) (p : upsert_plan) : M B unit :=
  (if up_merge p then
     (* Perform a MERGE instead of a delete and insert *)
     merge_cols <- get_merge_columns table_name (Some data) true ;;
     unique <- is_unique_constraint table_name merge_cols ;;
     if negb unique then
       raise (ValueError "Cannot upsert: is not used in a unique constraint and has dependent tables with values, therefore requiring a merge.")
     else
       merge_data data table_name (Some merge_cols)
                  (Some (up_lookup p, up_values p)) (Some (up_session p)) do_commit
   else
     (* Do delete then insert *)
     session_execute (up_session p)
                     (DeleteIn table_name (up_lookup p) (up_values p)) ;;
     write_rec data table_name APPEND (Some (up_session p)) false None None
               do_commit) ;;
  (* Close out the transaction *)
  finalize_transaction (up_session p) (up_is_sub p) do_commit.

Definition upsert (data : list record) (table_name : string)
           (upsert_cols : option (list string))
           (session : option session_id) (do_commit : bool) : M B unit :=
  match data with
  | [] => ret tt
  | _ =>
      p <- upsert_decide data table_name upsert_cols session ;;
      upsert_apply data table_name do_commit p
  end.

(** [__write_in_chunks(data, chunk_size, table_name, mode, session)] *)
Definition write_in_chunks (data : list record) (chunk_size : nat)
           (table_name : string) (mode : WriteMode) (session : session_id)
  : M B unit :=
  forM_ (fun n =>
           let chunk_elems := slice (n * chunk_size) ((n + 1) * chunk_size) data in
           match chunk_elems with
           | [] => ret tt
           | _ => write_rec chunk_elems table_name APPEND (Some session)
                            false None None true
           end)
        (seq 0 (length data / chunk_size + 1)) ;;
  session_close session.

(** The body of [write(data, table_name, mode, session,
    do_explicit_cast, table_schema, upsert_cols, do_commit)] for a
    list of records and a [WriteMode]. *)
Definition write_body (data : list record) (table_name : string) (mode : WriteMode)
           (session : option session_id) (do_explicit_cast : bool)
           (table_schema : option (list (string * string)))
           (upsert_cols : option (list string)) (do_commit : bool) : M B unit :=
  present <- table_exists table_name None ;;
  if negb present then
    raise (ValueError "table_name does not exist at current connection.")
  else
    let is_sub := is_some session in
    match data with
    | [] => ret tt
    | _ =>
        if mode_eqb mode UPSERT then
          upsert data table_name upsert_cols session do_commit
        else
          session <- match session with
                     | Some s => ret s
                     | None => new_session
                     end ;;
          target_tbl <- metadata_table (format_table_for_metadata table_name) ;;
          (* Exclude id columns that are always generated *)
          let reflected :=
            match table_schema with
            | Some (_ :: _) => false
            | _ => true
            end in
          let columns :=
            match table_schema with
            | Some (c :: cs) => c :: cs
            | _ => writable_columns target_tbl
            end in
          (if mode_eqb mode OVERWRITE then
             (* Delete all records before inserting *)
             session_execute session (DeleteAll table_name) ;;
             (* Reset identity columns if present *)
             if Dict.mem String.eqb "id" columns
             then session_execute session
                    (SetvalSerial
                       (match format_table_for_metadata table_name with
                        | Some f => f
                        | None => table_name
                        end)) ;; ret tt
             else ret tt
           else ret tt) ;;
          (* Only keep columns that will fit in the table *)
          let data := keep_columns columns data in
          (* Coerce the data if necessary *)
          let coerce :=
            if reflected
            then flat_map (fun ct : string * string =>
                             match coerce_methods B (snd ct) with
                             | Some f => [(fst ct, f)]
                             | None => []
                             end)
                          columns
            else [] in
          data <- lift (coerce_data coerce data) ;;
          (* Write in chunks if too large *)
          if Nat.ltb CHUNK_SIZE (length data) then
            write_in_chunks data CHUNK_SIZE table_name mode session
          else
            let casts := if do_explicit_cast then Some columns else None in
            on_conflict <-
              (if mode_eqb mode IF_NOT_EXISTS
               then (cols <- get_unique_constraint_columns table_name ;;
                     ret (Some cols))
               else ret None) ;;
            session_execute session (Insert table_name casts on_conflict data) ;;
            finalize_transaction session is_sub do_commit
    end.

End Knot.

(** [write], with the call depth left: a call of [write] from inside
    [write] uses one level, and Python gives up with a [RecursionError]
    when there is none left. *)
Fixpoint write (depth : nat) (data : list record) (table_name : string)
         (mode : WriteMode) (session : option session_id) (do_explicit_cast : bool)
         (table_schema : option (list (string * string)))
         (upsert_cols : option (list string)) (do_commit : bool) : M B unit :=
  match depth with
  | O => raise RecursionError
  | S depth' =>
      write_body (write depth') data table_name mode session do_explicit_cast
                 table_schema upsert_cols do_commit
  end.

(** [upsert] called from outside, with the call depth left for the
    calls of [write] it makes. *)
Definition upsert_top (depth : nat) : list record -> string -> option (list string) ->
                                      option session_id -> bool -> M B unit :=
  upsert (write depth).

End Connector.

Arguments execute {B} query session rollback_stmt _.
Arguments read {B} query session _.
Arguments finalize_transaction {B} session is_sub do_commit _.
Arguments table_exists {B} dialect table_name session _.
Arguments table_has_data {B} table_name _.
Arguments drop_table {B} table_name _.
Arguments get_table_obj {B} table_name _.
Arguments metadata_table {B} formatted _.
Arguments get_column_schema_names {B} table _.
Arguments get_table_columns {B} table_name incl_identity _.
Arguments random_choice {B A} l _.
Arguments randint {B} a b _.
Arguments get_merge_columns {B} table_name data ignore_identity _.
Arguments is_unique_constraint {B} table_name cols _.
Arguments get_unique_constraint_columns {B} table_name _.
Arguments setup_fkey_relationships {B} dialect built_in_schemas skip_builtins overwrite pkeys_only _.
Arguments get_foreign_keys {B} dialect built_in_schemas parent_table _.
Arguments has_dependent_tables {B} parent_table _.
Arguments tables_are_linked_by {B} dialect built_in_schemas depth parent_table child_table parent_column checked _.
Arguments get_temp_schemas {B} session _.
Arguments retry_temp_name {B} dialect remaining base_name must_not_exist session tmp_tbl_name _.
Arguments get_random_temp_table_name {B} dialect base_name session must_not_exist _.
Arguments get_full_temp_table_name {B} tmp_table_name session _.
Arguments create_temp_table {B} dialect cols source filter_cols filter_vals tmp_table_name session _.
Arguments get_columns_with_null_records {B} table_name session _.
Arguments downstream_data_exists_for_cols {B} dialect built_in_schemas table_name lookup values _.
Arguments create_staging_table {B} write_rec table_name data session _.
Arguments merge_tables {B} dialect source target merge_cols filter_values session do_commit _.
Arguments merge_data {B} dialect write_rec data table_name merge_cols filter_values session do_commit _.
Arguments resolve_upsert_cols {B} table_name upsert_cols _.
Arguments upsert_decide {B} dialect built_in_schemas data table_name upsert_cols session _.
Arguments upsert_apply {B} dialect write_rec data table_name do_commit p _.
Arguments upsert {B} dialect built_in_schemas write_rec data table_name upsert_cols session do_commit _.
Arguments write_in_chunks {B} write_rec data chunk_size table_name mode session _.
Arguments write_body {B} dialect built_in_schemas write_rec data table_name mode session do_explicit_cast table_schema upsert_cols do_commit _.
Arguments write {B} dialect built_in_schemas depth data table_name mode session do_explicit_cast table_schema upsert_cols do_commit _.
Arguments upsert_top {B} dialect built_in_schemas depth data table_name upsert_cols session do_commit _.

(* ===================================================================== *)
(** ** A small backend to run the connector on *)
(* ===================================================================== *)

(** A database reduced to what the connector can observe of it: which
    tables exist.  Every table that exists holds rows; the foreign keys,
    the answer of the join probe, whether a [MERGE] is accepted and the
    structure of each table are set by the scenario. *)
Module Toy.

Record scenario : Type := {
  sc_fkeys : list row;
  sc_downstream : bool;
  sc_merge_fails : bool;
  sc_table : string -> Table
}.

Definition remove_name (t : string) (db : list string) : list string :=
  filter (fun x => negb (String.eqb x t)) db.

Definition one_row : list row := [[("?column?", CInt 1)]].

Definition toy_run (sc : scenario) (db : list string) (q : sql)
  : exec_result (list string) :=
  match q with
  | SelectTrueLimit1 t | SelectTop0 t =>
      if str_in t db then Rows one_row db else Failed UndefinedTable
  | DropTableIfExists t => Done (remove_name t db)
  | LockCreateLike staging target =>
      if str_in target db then Done (staging :: db) else Failed UndefinedTable
  | DeleteAll t | DeleteIn t _ _ | Insert t _ _ _ =>
      if str_in t db then Done db else Failed UndefinedTable
  | SetvalSerial _ => Rows [] db
  | TempSchemas => Rows [] db
  | CreateTempTableAs name _ source _ _ =>
      if str_in source db then Done (("pg_temp_3." ++ name)%string :: db)
      else Failed UndefinedTable
  | FullTempTableName name =>
      if str_in ("pg_temp_3." ++ name)%string db
      then Rows [[("schemaname", CStr "pg_temp_3"); ("tablename", CStr name)]] db
      else Rows [] db
  | NullProbe _ _ => Rows [] db
  | Merge target source _ _ _ =>
      if sc_merge_fails sc then Failed (DbFailure "duplicate key value violates unique constraint")
      else if str_in target db && str_in source db then Done db
           else Failed UndefinedTable
  | DropTable t =>
      if str_in t db then Done (remove_name t db) else Failed UndefinedTable
  | FkeyCatalog _ _ _ => Rows (sc_fkeys sc) db
  | JoinExists _ _ _ _ _ =>
      if sc_downstream sc then Rows one_row db else Rows [] db
  end.

Definition toy_reflect (sc : scenario) (db : list string) (name : string)
  : option Table :=
  if str_in name db then Some (sc_table sc name) else None.

Definition backend (sc : scenario) : Backend :=
  {| DB := list string;
     run := toy_run sc;
     reflect := toy_reflect sc;
     coerce_methods := fun _ => None |}.

(** The state of a connector just connected to a database holding the
    given tables: empty caches, nothing logged, no session opened. *)
Definition fresh (sc : scenario) (tables : list string) (rand : nat -> nat)
  : state (backend sc) :=
  {| st_db := (tables : DB (backend sc));
     st_relationships := [];
     st_log := [];
     st_next_session := 0;
     st_rand := rand;
     st_tick := 0 |}.

(** *** The parent/child schema of the scenarios *)

Definition col (name type : string) : Column :=
  {| col_name := name; col_type := type; identity := None |}.

Definition id_always : Column :=
  {| col_name := "id"; col_type := "integer"; identity := Some {| always := true |} |}.

(** [parent(id, code, extra)]: [id] an always-generated identity and the
    primary key, [code] unique. *)
Definition parent_table : Table :=
  {| columns := [id_always; col "code" "text"; col "extra" "text"];
     constraints := [PrimaryKeyConstraint [id_always];
                     UniqueConstraint [col "code" "text"]] |}.

(** The same table with a plain integer primary key. *)
Definition parent_table_plain_pk : Table :=
  {| columns := [col "id" "integer"; col "code" "text"; col "extra" "text"];
     constraints := [PrimaryKeyConstraint [col "id" "integer"];
                     UniqueConstraint [col "code" "text"]] |}.

Definition child_table : Table :=
  {| columns := [id_always; col "parent_code" "text"];
     constraints := [PrimaryKeyConstraint [id_always];
                     OtherConstraint [col "parent_code" "text"]] |}.

(** What a temporary copy of the writable parent columns reflects to. *)
Definition temp_table : Table :=
  {| columns := [col "code" "text"; col "extra" "text"]; constraints := [] |}.

Definition tables_with (parent : Table) (name : string) : Table :=
  if String.eqb name "public.child" then child_table
  else if String.prefix "pg_temp_3." name then temp_table
       else parent.

Definition child_fkey : row :=
  [("parent_table", CStr "public.parent"); ("parent_keys", CStrs ["code"]);
   ("child_table", CStr "public.child"); ("child_keys", CStrs ["parent_code"])].

(** The scenario of the specification: a child row references
    [code = 'A']. *)
Definition referenced (parent : Table) (merge_fails : bool) : scenario :=
  {| sc_fkeys := [child_fkey];
     sc_downstream := true;
     sc_merge_fails := merge_fails;
     sc_table := tables_with parent |}.

(** No foreign key anywhere. *)
Definition unreferenced (parent : Table) : scenario :=
  {| sc_fkeys := [];
     sc_downstream := false;
     sc_merge_fails := false;
     sc_table := tables_with parent |}.

Definition two_tables : list string := ["public.parent"; "public.child"].

Definition record_A : record := [("code", VStr "A"); ("extra", VStr "v2")].

End Toy.

(* ===================================================================== *)
(** ** Notions used to state the properties *)
(* ===================================================================== *)

(** The columns of the primary key of a reflected table. *)
Definition primary_key_columns (t : Table) : list Column :=
  match filter is_PrimaryKeyConstraint (constraints t) with
  | k :: _ => constraint_columns k
  | [] => []
  end.

(** The primary key exists and none of its columns is an always-generated
    identity. *)
Definition pk_usable (t : Table) : bool :=
  negb (Nat.eqb (length (primary_key_columns t)) 0) &&
  negb (existsb identity_always (primary_key_columns t)).


(** The unique and primary-key constraints of a table, by column names. *)
Definition key_constraints (t : Table) : list (list string) :=
  flat_map (fun k => match k with
                     | UniqueConstraint _ | PrimaryKeyConstraint _ =>
                         match constraint_names k with
                         | [] => []
                         | names => [names]
                         end
                     | OtherConstraint _ => []
                     end)
           (constraints t).

(** Every record of the data has every one of the columns. *)
Definition all_present (cols : list string) (data : list record) : bool :=
  forallb (fun r => forallb (fun c => record_has c r) cols) data.


(** The columns are exactly those of a unique or primary-key constraint. *)
Definition backed_by_constraint (t : Table) (cols : list string) : bool :=
  existsb (Dict.tuple_eqb cols) (key_constraints t).

Module Scenario.
Import Toy.




End Scenario.

(** *** Grouping by width, for the proofs about [get_merge_columns] *)

(** The constraints of a given width, in their order. *)
Definition of_width (k : nat) (l : list (list string)) : list (list string) :=
  filter (fun c => Nat.eqb (length c) k) l.

Definition group_step (cts : list (nat * list (list string))) (const : list string) :=
  let key_len := length const in
  let cts := if Dict.mem Nat.eqb key_len cts then cts
             else Dict.set Nat.eqb key_len [] cts in
  match Dict.lookup Nat.eqb key_len cts with
  | Some group => Dict.set Nat.eqb key_len (group ++ [const]) cts
  | None => cts
  end.

Definition grouped (acc : list (nat * list (list string))) (seen : list (list string)) :=
  forall k, Dict.lookup Nat.eqb k acc =
            match of_width k seen with [] => None | g => Some g end.


(** *** States of the toy connector *)

(** The state after the graph of the parent/child schema has been built. *)
Definition built_parent_child : state (Toy.backend (Toy.referenced Toy.parent_table false)) :=
  snd (setup_fkey_relationships POSTGRES ["public"] false false false
         (Toy.fresh (Toy.referenced Toy.parent_table false) Toy.two_tables (fun n => n))).

(** The state after the graph of a schema without foreign keys has been
    built: the build succeeded and the cache is empty. *)
Definition built_unreferenced : state (Toy.backend (Toy.unreferenced Toy.parent_table)) :=
  snd (setup_fkey_relationships POSTGRES ["public"] false false false
         (Toy.fresh (Toy.unreferenced Toy.parent_table) Toy.two_tables (fun n => n))).


(** A schema with a cycle: the child references the parent by [code] and
    the parent references the child by [id]. *)
Definition parent_fkey_back : row :=
  [("parent_table", CStr "public.child"); ("parent_keys", CStrs ["id"]);
   ("child_table", CStr "public.parent"); ("child_keys", CStrs ["child_id"])].

Definition cyclic_scenario : Toy.scenario :=
  {| Toy.sc_fkeys := [Toy.child_fkey; parent_fkey_back];
     Toy.sc_downstream := true;
     Toy.sc_merge_fails := false;
     Toy.sc_table := Toy.tables_with Toy.parent_table |}.

Definition built_cyclic : state (Toy.backend cyclic_scenario) :=
  snd (setup_fkey_relationships POSTGRES ["public"] false false false
         (Toy.fresh cyclic_scenario Toy.two_tables (fun n => n))).

(** *** Classes of events *)

(** The event belongs to the existence probe of [table]: the probe itself
    or the end of the connector's own session that ran it. *)
Definition is_existence_probe (table : string) (e : event) : Prop :=
  match e with
  | EvExec (OwnSession _) (SelectTrueLimit1 t)
  | EvExec (OwnSession _) (SelectTop0 t) => t = table
  | EvCommit (OwnSession _) | EvClose (OwnSession _) | EvRollback (OwnSession _) => True
  | _ => False
  end.

(** *** What a session did, as far as chunked writing is concerned *)

Inductive action : Type :=
| AInsert (table : string) (nrows : nat)
| ACommit
| AClose
| ARollback
| AOther (q : sql).

Definition action_of (e : event) : action :=
  match e with
  | EvExec _ (Insert t _ _ rows) => AInsert t (length rows)
  | EvExec _ q => AOther q
  | EvCommit _ => ACommit
  | EvClose _ => AClose
  | EvRollback _ => ARollback
  end.

(** The events of one session, in order. *)
Definition on_session (s : session_id) (evs : list event) : list event :=
  filter (fun e => session_eqb (event_session e) s) evs.

Definition session_actions (s : session_id) (evs : list event) : list action :=
  map action_of (on_session s evs).

(** The events a run added to the log. *)
Definition new_events {B} (st st' : state B) : list event :=
  skipn (length (st_log st)) (st_log st').

(** The sizes of the non-empty slices [data[i*cs:(i+1)*cs]] for [i] in
    [range(n // cs + 1)], [n] being the number of records. *)
Definition chunk_sizes (cs n : nat) : list nat :=
  filter (fun k => negb (Nat.eqb k 0))
         (map (fun i => Nat.min cs (n - i * cs)) (seq 0 (n / cs + 1))).


(** Twenty-five thousand records. *)
Definition many_records : list record := repeat [("code", VStr "A")] 25000.








(** *** The scenario of the specification *)

(** [parent(id, code, extra)] with a child row referencing [code = 'A'];
    the connector has just connected. *)
Definition spec_scenario : Toy.scenario := Toy.referenced Toy.parent_table false.

Definition spec_state : state (Toy.backend spec_scenario) :=
  Toy.fresh spec_scenario Toy.two_tables (fun n => n).




(** The same scenario with a plain integer primary key. *)
Definition plain_pk_scenario : Toy.scenario := Toy.referenced Toy.parent_table_plain_pk false.

Definition plain_pk_state : state (Toy.backend plain_pk_scenario) :=
  Toy.fresh plain_pk_scenario Toy.two_tables (fun n => n).

(** *** A parent whose only unique constraint is on an identity column *)

Definition seq_by_default : Column :=
  {| col_name := "seq"; col_type := "integer"; identity := Some {| always := false |} |}.

(** [parent(id, code, seq)]: the primary key [id] is an always-generated
    identity and the one unique constraint is on [seq], an identity
    generated by default. *)
Definition keyless_parent : Table :=
  {| columns := [Toy.id_always; Toy.col "code" "text"; seq_by_default];
     constraints := [PrimaryKeyConstraint [Toy.id_always];
                     UniqueConstraint [seq_by_default]] |}.

Definition keyless_scenario : Toy.scenario := Toy.referenced keyless_parent false.

Definition keyless_state : state (Toy.backend keyless_scenario) :=
  Toy.fresh keyless_scenario Toy.two_tables (fun n => n).

Definition keyless_record : record := [("code", VStr "A"); ("seq", VInt 5)].

(** *** The session of the caller *)

(** The text of the statement ends the transaction it runs in: the block
    that makes the staging table is [BEGIN; ...; COMMIT;]. *)
Definition self_committing (q : sql) : bool :=
  match q with
  | LockCreateLike _ _ => true
  | _ => false
  end.

(** The event leaves the transaction of session [s0] alone: it is not a
    commit, close or rollback of [s0], nor a statement on [s0] that
    commits by itself. *)
Definition quiet (s0 : session_id) (e : event) : Prop :=
  match e with
  | EvExec s q => s = s0 -> self_committing q = false
  | EvCommit s | EvClose s | EvRollback s => s <> s0
  end.

(** The event is not a commit or rollback of session [s0]. *)
Definition uncommitted (s0 : session_id) (e : event) : Prop :=
  match e with
  | EvCommit s | EvRollback s => s <> s0
  | _ => True
  end.

(** The session argument is not a session of the caller. *)
Definition own_or_none (session : option session_id) : Prop :=
  match session with
  | Some (CallerSession _) => False
  | _ => True
  end.

(** The entries of [children] whose table is not in the set [checked]. *)
Definition unchecked (children : children_t) (checked : list string) : children_t :=
  filter (fun it => negb (str_in (fst it) checked)) children.

(** Every member of [c] is a member of [c']. *)
Definition subset (c c' : list string) : Prop :=
  forall x, str_in x c = true -> str_in x c' = true.

(** The call depth a traversal from [child] can need: one level for each
    table still to be checked, and one more when [child] is not one of
    them. *)
Definition depth_needed (children : children_t) (child : string) (checked : list string)
  : nat :=
  if negb (str_in child checked) && Dict.mem String.eqb child children
  then length (unchecked children checked)
  else S (length (unchecked children checked)).

(** The children the cache holds for a table, none when it has no entry. *)
Definition children_of (rels : relationships_t) (parent_table : string) : children_t :=
  match Dict.lookup String.eqb parent_table rels with
  | Some children => children
  | None => []
  end.

(* ===================================================================== *)
(** ** Judgements on computations *)
(* ===================================================================== *)

(** The events a computation adds to the log all satisfy [P]. *)
Definition inv {B A} (P : event -> Prop) (m : M B A) : Prop :=
  forall st, exists evs,
    st_log (snd (m st)) = st_log st ++ evs /\ Forall P evs.

(** Every value the computation returns satisfies [V]. *)
Definition returns {B A} (m : M B A) (V : A -> Prop) : Prop :=
  forall st a st', m st = (Ok a, st') -> V a.



From Stdlib Require DecimalPos DecimalZ.

(* ===================================================================== *)
(** ** Further notions: outcomes of single statements *)
(* ===================================================================== *)

(** What [execute] gives back for the result of the driver. *)
Definition execute_result {DB} (r : exec_result DB) : res (option (list row)) :=
  match r with
  | Failed e => Raise (SQLAlchemyError e)
  | Rows rs _ => Ok (Some rs)
  | Done _ => Ok None
  end.


(** The answer of [table_exists] for the result of its probe. *)
Definition probe_answer {DB} (r : exec_result DB) : res bool :=
  match r with
  | Failed UndefinedTable | Failed InvalidObjectName => Ok false
  | Failed e => Raise (SQLAlchemyError e)
  | Rows _ _ | Done _ => Ok true
  end.

(** The statement [table_exists] sends for a dialect, if it supports it. *)
Definition existence_probe (dialect : SQLDialect) (table_name : string) : option sql :=
  match dialect with
  | TSQL => Some (SelectTop0 table_name)
  | POSTGRES => Some (SelectTrueLimit1 table_name)
  | _ => None
  end.

(* ===================================================================== *)
(** ** Further notions: what a write sends *)
(* ===================================================================== *)

(** The column names of a record. *)
Definition record_keys (r : record) : list string := map fst r.

(** Every record of an [INSERT] has only columns the reflected target
    table has and [write] may insert into (none that is an
    always-generated identity). *)
Definition insert_fits (B : Backend) (e : event) : Prop :=
  match e with
  | EvExec _ (Insert t _ _ rows) =>
      exists db tbl,
        reflect B db (match format_table_for_metadata t with
                      | Some f => f
                      | None => t
                      end) = Some tbl /\
        forall r k, In r rows -> In k (record_keys r) ->
                    In k (map fst (writable_columns tbl))
  | _ => True
  end.

(** A database that accepts every statement but an [INSERT], which it
    rejects; it has no foreign keys, and every table reflects to the
    parent table of the scenarios. *)
Definition rejecting_backend : Backend :=
  {| DB := unit;
     run := fun db q =>
              match q with
              | Insert _ _ _ _ =>
                  Failed (DbFailure "null value in column violates not-null constraint")
              | SelectTrueLimit1 _ | SelectTop0 _ | FkeyCatalog _ _ _ => Rows [] db
              | _ => Done db
              end;
     reflect := fun _ _ => Some Toy.parent_table;
     coerce_methods := fun _ => None |}.

Definition rejecting_state : state rejecting_backend :=
  {| st_db := (tt : DB rejecting_backend);
     st_relationships := [];
     st_log := [];
     st_next_session := 0;
     st_rand := fun n => n;
     st_tick := 0 |}.

(* ===================================================================== *)
(** ** Further notions: the constraints a lookup may use *)
(* ===================================================================== *)


(* ===================================================================== *)
(** ** Further notions: temporary names *)
(* ===================================================================== *)

(** The only statement sent is the query for the temporary schemas. *)
Definition asks_temp_schemas_only (e : event) : Prop :=
  match e with
  | EvExec _ q => q = TempSchemas
  | _ => True
  end.

(* ===================================================================== *)
(** ** Further notions: records before and after coercion *)
(* ===================================================================== *)

(** A field after coercion against the field before: the same column; a
    [None] is still [None]; a column without a conversion keeps its value;
    a value that was converted is the result of the conversion. *)
Definition field_coerced (coerce : list (string * (pyval -> res pyval)))
           (before after : string * pyval) : Prop :=
  fst after = fst before /\
  (is_None (snd before) = true -> snd after = snd before) /\
  match Dict.lookup String.eqb (fst before) coerce with
  | None => snd after = snd before
  | Some f => is_None (snd before) = false -> f (snd before) = Ok (snd after)
  end.

(* ===================================================================== *)
(** ** Further notions: what the relationship graph holds *)
(* ===================================================================== *)

(** The graph holds the relationship: under the parent table, the child
    table and the tuple of parent columns it lists the tuple of child
    columns. *)
Definition linked (rels : relationships_t) (parent_table child_table : string)
           (parent_cols fkey_cols : list string) : Prop :=
  exists children keys fkeys,
    Dict.lookup String.eqb parent_table rels = Some children /\
    Dict.lookup String.eqb child_table children = Some keys /\
    Dict.lookup Dict.tuple_eqb parent_cols keys = Some fkeys /\
    In fkey_cols fkeys.

(** The four fields [setup_fkey_relationships] reads off a row of the
    catalog query, in the order it reads them. *)
Definition fkey_fields (r : row) : res (string * string * list string * list string) :=
  match row_str "parent_table" r with
  | Raise e => Raise e
  | Ok parent_table =>
      match row_str "child_table" r with
      | Raise e => Raise e
      | Ok child_table =>
          match row_strs "parent_keys" r with
          | Raise e => Raise e
          | Ok parent_cols =>
              match row_strs "child_keys" r with
              | Raise e => Raise e
              | Ok fkey_cols => Ok (parent_table, child_table, parent_cols, fkey_cols)
              end
          end
      end
  end.

(** The catalog query [setup_fkey_relationships] sends. *)
Definition catalog_query (built_in_schemas : list string) (skip_builtins pkeys_only : bool)
  : sql :=
  FkeyCatalog pkeys_only skip_builtins (lower (join "','" built_in_schemas)).

(* ===================================================================== *)
(** ** More of the connector: questions about the relationship graph *)
(* ===================================================================== *)

(** What [get_foreign_keys] can answer: [None], the children of the
    parent with their keys, or the keys of one child. *)
Inductive fk_answer : Type :=
| FkNone
| FkChildren (children : children_t)
| FkKeys (keys : fkeys_t).

(** A key argument that is a string stands for the tuple of that one
    string ([(pkey,)]). *)
Definition key_tuple (k : pykey) : list string :=
  match k with
  | KStr s => [s]
  | KTuple t => t
  end.

(** What [out[parent_table][fk]] holds in [get_foreign_key_parents]: one
    tuple of parent columns when a foreign key was asked for, a list of
    them otherwise. *)
Inductive parent_keys : Type :=
| OneKey (pkey : list string)
| KeyList (pkeys : list (list string)).

Definition parents_t : Type := list (string * list (list string * parent_keys)).

(** [out[parent_table][fkey] = pkey] *)
Definition store_key (out : parents_t) (parent_table : string)
           (fkey pkey : list string) : res parents_t :=
  match Dict.lookup String.eqb parent_table out with
  | None => Raise (KeyError parent_table)
  | Some by_fk =>
      Ok (Dict.set String.eqb parent_table
                   (Dict.set Dict.tuple_eqb fkey (OneKey pkey) by_fk) out)
  end.

(** [for fk in fkeys: if fk not in out[parent_table]: out[parent_table][fk]
    = []; out[parent_table][fk].append(pkey)] *)
Fixpoint append_key (out : parents_t) (parent_table : string)
         (fkeys : list (list string)) (pkey : list string) : res parents_t :=
  match fkeys with
  | [] => Ok out
  | fk :: rest =>
      match Dict.lookup String.eqb parent_table out with
      | None => Raise (KeyError parent_table)
      | Some by_fk =>
          let by_fk :=
            if Dict.mem Dict.tuple_eqb fk by_fk then by_fk
            else Dict.set Dict.tuple_eqb fk (KeyList []) by_fk in
          match Dict.lookup Dict.tuple_eqb fk by_fk with
          | Some (KeyList l) =>
              append_key (Dict.set String.eqb parent_table
                            (Dict.set Dict.tuple_eqb fk (KeyList (l ++ [pkey])) by_fk)
                            out)
                         parent_table rest pkey
          | Some (OneKey _) =>
              Raise (AttributeError "'tuple' object has no attribute 'append'")
          | None => Raise (KeyError parent_table)
          end
      end
  end.

(** [if fkey]: the key was passed and is not the empty tuple. *)
Definition key_given (fkey : option (list string)) : bool :=
  match fkey with
  | Some (_ :: _) => true
  | _ => false
  end.

(** [fkey not in fkeys] *)
Definition key_missing (fkey : option (list string)) (fkeys : list (list string)) : bool :=
  match fkey with
  | Some k => negb (Dict.set_mem Dict.tuple_eqb k fkeys)
  | None => true
  end.

(** The loop of [get_foreign_key_parents] over the keys of one child
    when no parent table is named: a key without the foreign key asked
    for is passed over ([continue]). *)
Fixpoint parents_of_keys (out : parents_t) (parent_table : string)
         (fkey : option (list string)) (items : fkeys_t) : res parents_t :=
  match items with
  | [] => Ok out
  | (pkey, fkeys) :: rest =>
      if key_given fkey && key_missing fkey fkeys
      then parents_of_keys out parent_table fkey rest
      else
        let out := if Dict.mem String.eqb parent_table out then out
                   else Dict.set String.eqb parent_table [] out in
        let out' :=
          if key_given fkey
          then store_key out parent_table
                         (match fkey with Some k => k | None => [] end) pkey
          else append_key out parent_table fkeys pkey in
        match out' with
        | Raise e => Raise e
        | Ok out => parents_of_keys out parent_table fkey rest
        end
  end.

(** The loop over all parents when no parent table is named. *)
Fixpoint parents_of_all (out : parents_t) (child_table : string)
         (fkey : option (list string)) (rels : relationships_t) : res parents_t :=
  match rels with
  | [] => Ok out
  | (parent_table, relationships) :: rest =>
      match Dict.lookup String.eqb child_table relationships with
      | None => parents_of_all out child_table fkey rest
      | Some keys =>
          match parents_of_keys out parent_table fkey keys with
          | Raise e => Raise e
          | Ok out => parents_of_all out child_table fkey rest
          end
      end
  end.

(** The loop when the parent table is named: it starts from an empty
    [out], stops at the first key without the foreign key asked for
    ([break]), and stores under [out[parent_table]] without having made
    that entry. *)
Fixpoint parents_of_named (out : parents_t) (parent_table : string)
         (fkey : option (list string)) (items : fkeys_t) : res parents_t :=
  match items with
  | [] => Ok out
  | (pkey, fkeys) :: rest =>
      if key_given fkey && key_missing fkey fkeys then Ok out
      else
        let out' :=
          if key_given fkey
          then store_key out parent_table
                         (match fkey with Some k => k | None => [] end) pkey
          else append_key out parent_table fkeys pkey in
        match out' with
        | Raise e => Raise e
        | Ok out => parents_of_named out parent_table fkey rest
        end
  end.

Definition newline : string := String (ascii_of_nat 10) EmptyString.

Section ConnectorGraph.

Variable B : Backend.
Variable dialect : SQLDialect.
Variable built_in_schemas : list string.

(** [get_foreign_keys(parent_table, child_table, pkey)] with all its
    arguments. *)
Definition get_foreign_keys_full (parent_table : string) (child_table : option string)
           (pkey : option pykey) : M B fk_answer :=
  let pkey := option_map key_tuple pkey in
  setup_fkey_relationships dialect built_in_schemas true false false ;;
  st <- get_state ;;
  match Dict.lookup String.eqb parent_table (st_relationships st) with
  | None => ret FkNone
  | Some rels =>
      match child_table with
      | None =>
          ret (FkChildren
                 (map (fun ct : string * fkeys_t =>
                         (fst ct,
                          filter (fun kv : list string * list (list string) =>
                                    match pkey with
                                    | Some k => Dict.tuple_eqb (fst kv) k
                                    | None => true
                                    end)
                                 (snd ct)))
                      rels))
      | Some child_table =>
          match Dict.lookup String.eqb child_table rels with
          | Some keys =>
              (* Retrieve all foreign keys ignoring the passed primary key *)
              if negb (key_given pkey) then ret (FkKeys keys)
              else ret (FkKeys
                          (filter (fun kv : list string * list (list string) =>
                                     match pkey with
                                     | Some k => Dict.tuple_eqb (fst kv) k
                                     | None => true
                                     end)
                                  keys))
          | None => ret FkNone
          end
      end
  end.

(** [tables_have_relationship(l_table, r_table)]; both existence checks
    are made on [l_table], as in the source. *)
Definition tables_have_relationship (l_table r_table : string) : M B bool :=
  l_exists <- table_exists dialect l_table None ;;
  let errs := if negb l_exists then [(l_table ++ " does not exist.")%string] else [] in
  l_exists_again <- table_exists dialect l_table None ;;
  let errs := if negb l_exists_again
              then errs ++ [(r_table ++ " does not exist.")%string]
              else errs in
  match errs with
  | _ :: _ => raise (ValueError (join newline errs))
  | [] =>
      answer <- get_foreign_keys_full l_table (Some r_table) None ;;
      ret (match answer with FkNone => false | _ => true end)
  end.

(** [get_foreign_key_parents(child_table, parent_table, fkey)] *)
Definition get_foreign_key_parents (child_table : string) (parent_table : option string)
           (fkey : option pykey) : M B (option parents_t) :=
  setup_fkey_relationships dialect built_in_schemas true false false ;;
  let fkey := option_map key_tuple fkey in
  st <- get_state ;;
  let rels := st_relationships st in
  match parent_table with
  | Some parent_table =>
      match Dict.lookup String.eqb parent_table rels with
      | None => ret None
      | Some children =>
          match Dict.lookup String.eqb child_table children with
          | None => ret None
          | Some relationships =>
              out <- lift (parents_of_named [] parent_table fkey relationships) ;;
              ret (Some out)
          end
      end
  | None =>
      out <- lift (parents_of_all [] child_table fkey rels) ;;
      ret (Some out)
  end.

End ConnectorGraph.

Arguments get_foreign_keys_full {B} dialect built_in_schemas parent_table child_table pkey _.
Arguments tables_have_relationship {B} dialect built_in_schemas l_table r_table _.
Arguments get_foreign_key_parents {B} dialect built_in_schemas child_table parent_table fkey _.

(** The statements [tables_have_relationship] may send when asked about
    [l_table]: existence probes of [l_table], and the catalog query. *)
Definition asks_about_left_only (l_table : string) (e : event) : Prop :=
  match e with
  | EvExec _ (SelectTrueLimit1 t) | EvExec _ (SelectTop0 t) => t = l_table
  | EvExec _ (FkeyCatalog _ _ _) => True
  | EvExec _ _ => False
  | _ => True
  end.

(* ===================================================================== *)
(** ** More of the connector: rows given by position *)
(* ===================================================================== *)

(** Data by column: [{column name -> [values]}]. *)
Definition columnar : Type := list (string * list pyval).

(** The columns [assign_columns] assigns to: those of the table that are
    not named [timestamp], [row_id] or [id]. *)
Definition assignable_names (table : Table) : list string :=
  filter (fun n => negb (str_in n ["timestamp"; "row_id"; "id"]))
         (map col_name (columns table)).

(** [{elem["name"]: [] for elem in columns}] *)
Definition empty_columns (names : list string) : columnar :=
  fold_left (fun df n => Dict.set String.eqb n [] df) names [].

(** [for idx, val in enumerate(row): col = idx_to_col[idx];
    df[col].append(val)], from position [idx] on. *)
Fixpoint assign_row (names : list string) (idx : nat) (row : list pyval) (df : columnar)
  : res columnar :=
  match row with
  | [] => Ok df
  | val :: row' =>
      match nth_error names idx with
      | None => Raise (KeyError (str_nat idx))
      | Some col =>
          match Dict.lookup String.eqb col df with
          | None => Raise (KeyError col)
          | Some vals =>
              assign_row names (S idx) row'
                         (Dict.set String.eqb col (vals ++ [val]) df)
          end
      end
  end.

Fixpoint assign_rows (names : list string) (data : list (list pyval)) (df : columnar)
  : res columnar :=
  match data with
  | [] => Ok df
  | row :: data' =>
      match assign_row names 0 row df with
      | Raise e => Raise e
      | Ok df => assign_rows names data' df
      end
  end.

(** [{col: data[col][row] for col in data}] *)
Fixpoint record_at (df : columnar) (keys : list string) (row : nat) : res record :=
  match keys with
  | [] => Ok []
  | col :: keys' =>
      match Dict.lookup String.eqb col df with
      | None => Raise (KeyError col)
      | Some vals =>
          match nth_error vals row with
          | None => Raise (IndexError "list index out of range")
          | Some v =>
              match record_at df keys' row with
              | Raise e => Raise e
              | Ok r => Ok ((col, v) :: r)
              end
          end
      end
  end.

Fixpoint records_at (df : columnar) (rows : list nat) : res (list record) :=
  match rows with
  | [] => Ok []
  | row :: rows' =>
      match record_at df (Dict.keys df) row with
      | Raise e => Raise e
      | Ok r =>
          match records_at df rows' with
          | Raise e => Raise e
          | Ok rs => Ok (r :: rs)
          end
      end
  end.

(** What [write] does with data that is a list of rows and not of
    dictionaries, once [assign_columns] has turned it into columns:
    [cols = [col for col, _ in columns.items() if col in data]],
    [num_records = len(data[cols[0]])], and one dictionary for each row
    number. *)
Definition records_of_columns (columns : list (string * string)) (df : columnar)
  : res (list record) :=
  match filter (fun col => Dict.mem String.eqb col df) (map fst columns) with
  | [] => Raise (IndexError "list index out of range")
  | col0 :: _ =>
      match Dict.lookup String.eqb col0 df with
      | None => Raise (KeyError col0)
      | Some vals => records_at df (seq 0 (length vals))
      end
  end.

(** The columns after one more row, as lists in the order of the names:
    each has the value of the row at its position appended. *)
Definition push (cols : list (list pyval)) (row : list pyval) : list (list pyval) :=
  map (fun lv => fst lv ++ [snd lv]) (combine cols row).

Section ConnectorColumns.

Variable B : Backend.

(** [assign_columns(data, target_table)] *)
Definition assign_columns (data : list (list pyval)) (target_table : string)
  : M B columnar :=
  match format_table_for_metadata target_table with
  | None => raise (ValueError "Target table not currently defined at connection.")
  | Some formatted =>
      st <- get_state ;;
      match reflect B (st_db st) formatted with
      | None => raise (ValueError "Target table not currently defined at connection.")
      | Some table =>
          let names := assignable_names table in
          lift (assign_rows names data (empty_columns names))
      end
  end.

End ConnectorColumns.

Arguments assign_columns {B} data target_table _.
(* ===================================================================== *)
(** * Reasoning about runs of the connector *)
(* ===================================================================== *)

Section Logic.

Variable B : Backend.

Lemma inv_silent {A} (P : event -> Prop) (m : M B A) :
  (forall st, st_log (snd (m st)) = st_log st) -> inv P m.
Proof.
  intros H st. exists []. rewrite app_nil_r. split; [apply H | constructor].
Qed.

Lemma inv_ret {A} P (a : A) : inv P (ret (B:=B) a).
Proof. apply inv_silent. reflexivity. Qed.

Lemma inv_raise {A} P e : inv P (raise (B:=B) (A:=A) e).
Proof. apply inv_silent. reflexivity. Qed.

Lemma inv_lift {A} P (r : res A) : inv P (lift (B:=B) r).
Proof. destruct r; [apply inv_ret | apply inv_raise]. Qed.

Lemma inv_get_state P : inv P (get_state (B:=B)).
Proof. apply inv_silent. reflexivity. Qed.

Lemma inv_set_db P d : inv P (set_db (B:=B) d).
Proof. apply inv_silent. reflexivity. Qed.

Lemma inv_set_relationships P r : inv P (set_relationships (B:=B) r).
Proof. apply inv_silent. reflexivity. Qed.

Lemma inv_new_session P : inv P (new_session (B:=B)).
Proof. apply inv_silent. reflexivity. Qed.

Lemma inv_draw P : inv P (draw (B:=B)).
Proof. apply inv_silent. reflexivity. Qed.

Lemma inv_emit (P : event -> Prop) e : P e -> inv P (emit (B:=B) e).
Proof.
  intros H st. exists [e]. split; [reflexivity | constructor; [assumption | constructor]].
Qed.

Lemma inv_bind {A C} P (m : M B A) (f : A -> M B C) :
  inv P m -> (forall a, inv P (f a)) -> inv P (bind m f).
Proof.
  intros Hm Hf st. unfold bind.
  destruct (Hm st) as [evs1 [E1 F1]].
  destruct (m st) as [[a | e] st1]; simpl in *.
  - destruct (Hf a st1) as [evs2 [E2 F2]].
    exists (evs1 ++ evs2). split.
    + rewrite E2, E1, app_assoc. reflexivity.
    + apply Forall_app. split; assumption.
  - exists evs1. split; assumption.
Qed.

Lemma inv_try_except {A} P (m : M B A) (h : exn -> M B A) :
  inv P m -> (forall e, inv P (h e)) -> inv P (try_except m h).
Proof.
  intros Hm Hh st. unfold try_except.
  destruct (Hm st) as [evs1 [E1 F1]].
  destruct (m st) as [[a | e] st1]; simpl in *.
  - exists evs1. split; assumption.
  - destruct (Hh e st1) as [evs2 [E2 F2]].
    exists (evs1 ++ evs2). split.
    + rewrite E2, E1, app_assoc. reflexivity.
    + apply Forall_app. split; assumption.
Qed.

Lemma inv_weaken {A} (P Q : event -> Prop) (m : M B A) :
  (forall e, P e -> Q e) -> inv P m -> inv Q m.
Proof.
  intros HPQ Hm st. destruct (Hm st) as [evs [E F]].
  exists evs. split; [assumption |].
  eapply Forall_impl; [| exact F]. exact HPQ.
Qed.

Lemma inv_session_execute (P : event -> Prop) s q :
  P (EvExec s q) -> inv P (session_execute (B:=B) s q).
Proof.
  intros H. unfold session_execute.
  apply inv_bind; [apply inv_emit; assumption | intros _].
  apply inv_bind; [apply inv_get_state | intros st].
  destruct (run B (st_db st) q).
  - apply inv_raise.
  - apply inv_bind; [apply inv_set_db | intros _; apply inv_ret].
  - apply inv_bind; [apply inv_set_db | intros _; apply inv_ret].
Qed.

Lemma inv_existsM {A} P (f : A -> M B bool) l :
  (forall x, inv P (f x)) -> inv P (existsM f l).
Proof.
  intros Hf. induction l as [| x l IH]; simpl.
  - apply inv_ret.
  - apply inv_bind; [apply Hf | intros [|]; [apply inv_ret | exact IH]].
Qed.

Lemma inv_filterM {A} P (f : A -> M B bool) l :
  (forall x, inv P (f x)) -> inv P (filterM f l).
Proof.
  intros Hf. induction l as [| x l IH]; simpl.
  - apply inv_ret.
  - apply inv_bind; [apply Hf | intros b].
    apply inv_bind; [exact IH | intros rest; apply inv_ret].
Qed.

Lemma inv_mapM {A C} P (f : A -> M B C) l :
  (forall x, inv P (f x)) -> inv P (mapM f l).
Proof.
  intros Hf. induction l as [| x l IH]; simpl.
  - apply inv_ret.
  - apply inv_bind; [apply Hf | intros b].
    apply inv_bind; [exact IH | intros rest; apply inv_ret].
Qed.

Lemma inv_forM_ {A} P (f : A -> M B unit) l :
  (forall x, inv P (f x)) -> inv P (forM_ f l).
Proof.
  intros Hf. induction l as [| x l IH]; simpl.
  - apply inv_ret.
  - apply inv_bind; [apply Hf | intros _; exact IH].
Qed.

Lemma inv_bind_ret {A C} P (a : A) (f : A -> M B C) :
  inv P (f a) -> inv P (bind (ret a) f).
Proof. intros H st. exact (H st). Qed.

Lemma inv_bind_raise {A C} P e (f : A -> M B C) :
  inv P (bind (raise e) f).
Proof. apply inv_silent. reflexivity. Qed.

Lemma inv_bind_new_session {C} P (f : session_id -> M B C) :
  (forall k, inv P (f (OwnSession k))) -> inv P (bind new_session f).
Proof.
  intros H st. unfold bind, new_session.
  destruct (H (st_next_session st)
              {| st_db := st_db st; st_relationships := st_relationships st;
                 st_log := st_log st; st_next_session := S (st_next_session st);
                 st_rand := st_rand st; st_tick := st_tick st |}) as [evs [E F]].
  exists evs. split; assumption.
Qed.

Lemma retry_temp_name_inv P dialect session base mne :
  (forall name, inv P (table_exists (B:=B) dialect name session)) ->
  forall remaining tmp,
    inv P (retry_temp_name (B:=B) dialect remaining base mne session tmp).
Proof.
  intros Ht. induction remaining as [| n IH]; intros tmp; simpl.
  - destruct mne; [apply inv_ret |].
    apply inv_bind; [apply Ht | intros taken; apply inv_ret].
  - destruct mne; [apply inv_ret |].
    apply inv_bind; [apply Ht | intros taken].
    destruct taken; [| apply inv_ret].
    apply inv_bind; [| intros r; apply IH].
    unfold randint. apply inv_bind; [apply inv_draw | intros r; apply inv_ret].
Qed.

Lemma returns_ret {A} (a : A) (V : A -> Prop) : V a -> returns (ret (B:=B) a) V.
Proof. intros H st a' st' E. inversion E; subst. exact H. Qed.

Lemma returns_bind {A C} (m : M B A) (f : A -> M B C) (V : C -> Prop) :
  (forall a, returns (f a) V) -> returns (bind m f) V.
Proof.
  intros H st c st' E. unfold bind in E.
  destruct (m st) as [[a | e] st1]; [| discriminate].
  exact (H a st1 c st' E).
Qed.

Lemma inv_bind_val {A C} P (V : A -> Prop) (m : M B A) (f : A -> M B C) :
  inv P m -> returns m V -> (forall a, V a -> inv P (f a)) -> inv P (bind m f).
Proof.
  intros Hm Hv Hf st. unfold bind.
  destruct (Hm st) as [evs1 [E1 F1]].
  destruct (m st) as [[a | e] st1] eqn:Em; simpl in *.
  - destruct (Hf a (Hv _ _ _ Em) st1) as [evs2 [E2 F2]].
    exists (evs1 ++ evs2). split.
    + rewrite E2, E1, app_assoc. reflexivity.
    + apply Forall_app. split; assumption.
  - exists evs1. split; assumption.
Qed.

Lemma returns_bind_ret {A C} (a : A) (f : A -> M B C) (V : C -> Prop) :
  returns (f a) V -> returns (bind (ret a) f) V.
Proof. intros H st c st' E. exact (H st c st' E). Qed.

Lemma returns_bind_new_session {C} (f : session_id -> M B C) (V : C -> Prop) :
  (forall k, returns (f (OwnSession k)) V) -> returns (bind new_session f) V.
Proof.
  intros H st c st' E. unfold bind, new_session in E.
  exact (H _ _ _ _ E).
Qed.

Lemma returns_raise {A} e (V : A -> Prop) : returns (raise (B:=B) e) V.
Proof. intros st a st' E. discriminate. Qed.

(** The plan of an upsert carries the session handed in, marked as the
    session of the caller. *)
Lemma returns_upsert_decide_sub dialect bis data table ucols s :
  returns (upsert_decide (B:=B) dialect bis data table ucols (Some s))
          (fun p => up_session p = s /\ up_is_sub p = true).
Proof.
  unfold upsert_decide.
  apply returns_bind; intros lookup. cbn [is_some].
  apply returns_bind_ret.
  apply returns_bind; intros t. apply returns_bind; intros cols.
  destruct (filter _ lookup); [| apply returns_raise].
  repeat (apply returns_bind; intros ?).
  apply returns_ret. split; reflexivity.
Qed.

(** Without a session handed in, the plan carries one of the
    connector's own. *)
Lemma returns_upsert_decide_own dialect bis data table ucols :
  returns (upsert_decide (B:=B) dialect bis data table ucols None)
          (fun p => exists k, up_session p = OwnSession k /\ up_is_sub p = false).
Proof.
  unfold upsert_decide.
  apply returns_bind; intros lookup. cbn [is_some].
  apply returns_bind_new_session; intros k.
  apply returns_bind; intros t. apply returns_bind; intros cols.
  destruct (filter _ lookup); [| apply returns_raise].
  repeat (apply returns_bind; intros ?).
  apply returns_ret. exists k. split; reflexivity.
Qed.

Lemma returns_create_staging_table w t d s :
  returns (create_staging_table (B:=B) w t d s)
          (fun n => n = (t ++ "_staging")%string).
Proof.
  unfold create_staging_table.
  repeat (apply returns_bind; intros ?). apply returns_ret. reflexivity.
Qed.

(** What [inv] says of one run. *)
Lemma inv_run {A} P (m : M B A) st r st' :
  inv P m -> m st = (r, st') ->
  exists evs, st_log st' = st_log st ++ evs /\ Forall P evs.
Proof.
  intros H E. destruct (H st) as [evs [E1 F1]]. rewrite E in E1. simpl in E1.
  exists evs. split; assumption.
Qed.

(** Inversion of a successful or failed [bind]. *)
Lemma bind_inv {A C} (m : M B A) (f : A -> M B C) st r st' :
  bind m f st = (r, st') ->
  (exists a st1, m st = (Ok a, st1) /\ f a st1 = (r, st')) \/
  (exists e, m st = (Raise e, st') /\ r = Raise e).
Proof.
  unfold bind. destruct (m st) as [[a | e] st1]; intros H.
  - left. exists a, st1. split; [reflexivity | assumption].
  - right. exists e. inversion H; subst. split; reflexivity.
Qed.

Lemma bind_ok_inv {A C} (m : M B A) (f : A -> M B C) st c st' :
  bind m f st = (Ok c, st') ->
  exists a st1, m st = (Ok a, st1) /\ f a st1 = (Ok c, st').
Proof.
  intros H. destruct (bind_inv _ _ _ H) as [H1 | [e [_ H2]]]; [assumption | discriminate].
Qed.

End Logic.


(** One step of a proof of [inv]: the shape of the computation decides. *)
Ltac inv_step :=
  lazymatch goal with
  | |- inv _ (bind (create_staging_table _ _ _ _) _) =>
      eapply inv_bind_val;
      [| apply returns_create_staging_table | intros ? ?; subst ]
  | |- inv _ (bind (upsert_decide _ _ _ _ _ (Some _)) _) =>
      eapply inv_bind_val;
      [| apply returns_upsert_decide_sub
       | let p := fresh "p" in let H1 := fresh "Hsess" in let H2 := fresh "Hsub" in
         intros p [H1 H2]; destruct p; cbn [up_session up_is_sub up_merge up_lookup
                                               up_values] in *; subst ]
  | |- inv _ (bind (upsert_decide _ _ _ _ _ None) _) =>
      eapply inv_bind_val;
      [| apply returns_upsert_decide_own
       | let p := fresh "p" in let k := fresh "k" in
         let H1 := fresh "Hsess" in let H2 := fresh "Hsub" in
         intros p [k [H1 H2]]; destruct p; cbn [up_session up_is_sub up_merge up_lookup
                                                   up_values] in *; subst ]
  | |- inv _ (bind (match ?x with _ => _ end) _) => destruct x eqn:?
  | |- inv _ (bind (ret _) _) => apply inv_bind_ret
  | |- inv _ (bind (raise _) _) => apply inv_bind_raise
  | |- inv _ (bind (lift ?r) _) => destruct r eqn:?; cbn [lift]
  | |- inv _ (bind new_session _) => apply inv_bind_new_session; intros ?
  | |- inv _ (bind _ _) => apply inv_bind; [| intros ?]
  | |- inv _ (ret _) => apply inv_ret
  | |- inv _ (raise _) => apply inv_raise
  | |- inv _ (lift _) => apply inv_lift
  | |- inv _ get_state => apply inv_get_state
  | |- inv _ (set_db _) => apply inv_set_db
  | |- inv _ (set_relationships _) => apply inv_set_relationships
  | |- inv _ new_session => apply inv_new_session
  | |- inv _ draw => apply inv_draw
  | |- inv _ (try_except _ _) => apply inv_try_except; [| intros ?]
  | |- inv _ (existsM _ _) => apply inv_existsM; intros ?
  | |- inv _ (filterM _ _) => apply inv_filterM; intros ?
  | |- inv _ (mapM _ _) => apply inv_mapM; intros ?
  | |- inv _ (forM_ _ _) => apply inv_forM_; intros ?
  | |- inv _ (retry_temp_name _ _ _ _ _ _) => apply retry_temp_name_inv; intros ?
  | |- inv _ (session_execute _ _) => apply inv_session_execute
  | |- inv _ (session_commit _) => apply inv_emit
  | |- inv _ (session_close _) => apply inv_emit
  | |- inv _ (session_rollback _) => apply inv_emit
  | |- inv _ (emit _) => apply inv_emit
  | |- inv _ (match ?x with _ => _ end) => destruct x eqn:?
  | |- inv _ (let _ := _ in _) => cbv zeta
  end.

(** Unfolding of the methods that are not recursive. *)
Ltac inv_head :=
  lazymatch goal with
  | |- inv _ (execute _ _ _) => unfold execute
  | |- inv _ (read _ _) => unfold read
  | |- inv _ (finalize_transaction _ _ _) => unfold finalize_transaction
  | |- inv _ (table_exists _ _ _) => unfold table_exists
  | |- inv _ (table_has_data _) => unfold table_has_data
  | |- inv _ (drop_table _) => unfold drop_table
  | |- inv _ (get_table_obj _) => unfold get_table_obj
  | |- inv _ (metadata_table _) => unfold metadata_table
  | |- inv _ (get_column_schema_names _) => unfold get_column_schema_names
  | |- inv _ (get_table_columns _ _) => unfold get_table_columns
  | |- inv _ (random_choice _) => unfold random_choice
  | |- inv _ (randint _ _) => unfold randint
  | |- inv _ (get_merge_columns _ _ _) => unfold get_merge_columns
  | |- inv _ (is_unique_constraint _ _) => unfold is_unique_constraint
  | |- inv _ (get_unique_constraint_columns _) => unfold get_unique_constraint_columns
  | |- inv _ (setup_fkey_relationships _ _ _ _ _) => unfold setup_fkey_relationships
  | |- inv _ (get_foreign_keys _ _ _) => unfold get_foreign_keys
  | |- inv _ (has_dependent_tables _) => unfold has_dependent_tables
  | |- inv _ (get_temp_schemas _) => unfold get_temp_schemas
  | |- inv _ (get_full_temp_table_name _ _) => unfold get_full_temp_table_name
  | |- inv _ (get_columns_with_null_records _ _) => unfold get_columns_with_null_records
  | |- inv _ (downstream_data_exists_for_cols _ _ _ _ _) =>
      unfold downstream_data_exists_for_cols
  | |- inv _ (resolve_upsert_cols _ _) => unfold resolve_upsert_cols
  | |- inv _ (write_in_chunks _ _ _ _ _ _) => unfold write_in_chunks
  | |- inv _ (create_staging_table _ _ _ _) => unfold create_staging_table
  | |- inv _ (create_temp_table _ _ _ _ _ _ _) => unfold create_temp_table
  | |- inv _ (get_random_temp_table_name _ _ _ _) => unfold get_random_temp_table_name
  | |- inv _ (merge_tables _ _ _ _ _ _ _) => unfold merge_tables
  | |- inv _ (merge_data _ _ _ _ _ _ _ _) => unfold merge_data
  | |- inv _ (upsert_decide _ _ _ _ _ _) => unfold upsert_decide
  | |- inv _ (upsert_apply _ _ _ _ _ _) => unfold upsert_apply
  | |- inv _ (upsert _ _ _ _ _ _ _ _) => unfold upsert
  end.

Ltac inv_auto leaf :=
  repeat (first [ progress cbn [negb andb orb is_some mode_eqb] | inv_step | inv_head ]);
  leaf.

(* ===================================================================== *)
(** * The literal wrapper *)
(* ===================================================================== *)

Example wrap_date_example :
  wrap_literal_untyped (VDate 2024 1 2) = Ok "'2024-01-02'".
Proof. reflexivity. Qed.

Example wrap_time_example :
  wrap_literal_untyped (VTime 3 4 5) = Ok "'03:04:05'".
Proof. reflexivity. Qed.

Example wrap_decimal_example :
  wrap_literal_untyped (VDecimal (DFinite false 1234 (-2))) = Ok "12".
Proof. reflexivity. Qed.

Example wrap_negative_decimal_example :
  wrap_literal_untyped (VDecimal (DFinite true 1999 (-3))) = Ok "-1".
Proof. reflexivity. Qed.

(** A date is normalised to its [%Y-%m-%d] text. *)
Lemma normalise_date y m d :
  normalise (VDate y m d) = Ok (VStr (strftime_Ymd (VDate y m d))).
Proof. reflexivity. Qed.

(** A time is normalised to its [%H:%M:%S] text. *)
Lemma normalise_time h m s :
  normalise (VTime h m s) = Ok (VStr (strftime_HMS (VTime h m s))).
Proof. reflexivity. Qed.

(** A finite [Decimal] is wrapped as the text of its integer part. *)
Lemma wrap_literal_decimal neg c e z :
  int_of_Decimal (DFinite neg c e) = Ok z ->
  wrap_literal_untyped (VDecimal (DFinite neg c e)) = Ok (str_Z z).
Proof.
  intros H. unfold wrap_literal_untyped, wrap_literal, normalise.
  cbn [isinstance_date isinstance_datetime isinstance_time isinstance_timedelta
       isinstance_Decimal].
  rewrite H. reflexivity.
Qed.

(** The test for [date] comes first and a datetime passes it, so the
    branch that prints the time of day is never taken. *)
Lemma normalise_datetime_takes_date_branch y m d H M S :
  normalise (VDateTime y m d H M S) = Ok (VStr (strftime_Ymd (VDate y m d))).
Proof. reflexivity. Qed.

(** C6.  The wrapper is meant to print a datetime as
    [YYYY-MM-DD HH:MM:SS]; what it gives for every datetime is the text
    of the date alone, the same as for the date of that day: at
    2024-01-02 03:04:05 the result is ['2024-01-02'], not
    ['2024-01-02 03:04:05']. *)
Theorem wrap_literal_datetime_loses_time :
  (forall y m d H M S,
      wrap_literal_untyped (VDateTime y m d H M S)
      = wrap_literal_untyped (VDate y m d)) /\
  wrap_literal_untyped (VDateTime 2024 1 2 3 4 5) = Ok "'2024-01-02'" /\
  wrap_literal_untyped (VDateTime 2024 1 2 3 4 5) <> Ok "'2024-01-02 03:04:05'".
Proof.
  split; [| split].
  - intros. reflexivity.
  - reflexivity.
  - discriminate.
Qed.

(* ===================================================================== *)
(** * Resolution of the upsert and merge columns *)
(* ===================================================================== *)

Section DictFacts.
Variables (K V : Type) (keq : K -> K -> bool).
Hypothesis keq_spec : forall a b, keq a b = true <-> a = b.

Lemma keq_refl k : keq k k = true.
Proof. apply keq_spec. reflexivity. Qed.

Lemma keq_neq a b : a <> b -> keq a b = false.
Proof.
  intros H. destruct (keq a b) eqn:E; [| reflexivity].
  apply keq_spec in E. contradiction.
Qed.

Lemma lookup_set_same k (v : V) d :
  Dict.lookup keq k (Dict.set keq k v d) = Some v.
Proof.
  induction d as [| [k' v'] d IH]; simpl.
  - rewrite keq_refl. reflexivity.
  - destruct (keq k k') eqn:E; simpl; rewrite E; [reflexivity | exact IH].
Qed.

Lemma lookup_set_other k k' (v : V) d :
  k <> k' -> Dict.lookup keq k' (Dict.set keq k v d) = Dict.lookup keq k' d.
Proof.
  intros N. induction d as [| [k0 v0] d IH]; simpl.
  - rewrite keq_neq; [reflexivity | congruence].
  - destruct (keq k k0) eqn:E; simpl.
    + apply keq_spec in E. subst k0.
      rewrite keq_neq; [reflexivity | congruence].
    + rewrite IH. reflexivity.
Qed.

Lemma keys_mem k (d : list (K * V)) :
  In k (Dict.keys d) <-> Dict.mem keq k d = true.
Proof.
  unfold Dict.mem. induction d as [| [k0 v0] d IH]; simpl.
  - split; [contradiction | discriminate].
  - destruct (keq k k0) eqn:E.
    + apply keq_spec in E. subst. split; auto.
    + rewrite <- IH. split; [intros [H | H]; [| assumption] | auto].
      subst. rewrite keq_refl in E. discriminate.
Qed.
End DictFacts.

Arguments lookup_set_same {K V keq} keq_spec k v d.
Arguments lookup_set_other {K V keq} keq_spec k k' v d _.
Arguments keys_mem {K V keq} keq_spec k d.

Lemma nat_eqb_spec' a b : Nat.eqb a b = true <-> a = b.
Proof. apply Nat.eqb_eq. Qed.

Lemma group_step_grouped acc seen const :
  grouped acc seen -> grouped (group_step acc const) (seen ++ [const]).
Proof.
  intros G k. unfold group_step, of_width.
  rewrite filter_app. simpl.
  pose proof (G (length const)) as G0. unfold of_width in G0.
  unfold Dict.mem.
  destruct (Nat.eq_dec (length const) k) as [E | N].
  - subst k. rewrite Nat.eqb_refl.
    destruct (Dict.lookup Nat.eqb (length const) acc) as [g |] eqn:L.
    + rewrite L. rewrite (lookup_set_same nat_eqb_spec').
      destruct (filter _ seen) as [| c0 g0]; [discriminate |].
      inversion G0; subst. reflexivity.
    + rewrite (lookup_set_same nat_eqb_spec').
      rewrite (lookup_set_same nat_eqb_spec').
      destruct (filter _ seen) as [| c0 g0]; [reflexivity | discriminate].
  - assert (Nat.eqb (length const) k = false) as Ef by (apply Nat.eqb_neq; assumption).
    rewrite Ef, app_nil_r.
    destruct (Dict.lookup Nat.eqb (length const) acc) as [g |] eqn:L.
    + rewrite L. rewrite (lookup_set_other nat_eqb_spec' _ _ _ _ N). apply G.
    + rewrite (lookup_set_same nat_eqb_spec').
      rewrite !(lookup_set_other nat_eqb_spec' _ _ _ _ N). apply G.
Qed.

Lemma fold_group_grouped l : forall acc seen,
  grouped acc seen -> grouped (fold_left group_step l acc) (seen ++ l).
Proof.
  induction l as [| c l IH]; intros acc seen G; simpl.
  - rewrite app_nil_r. exact G.
  - replace (seen ++ c :: l) with ((seen ++ [c]) ++ l)
      by (rewrite <- app_assoc; reflexivity).
    apply IH. apply group_step_grouped. exact G.
Qed.

Lemma group_by_width_lookup l k :
  Dict.lookup Nat.eqb k (group_by_width l) =
  match of_width k l with [] => None | g => Some g end.
Proof.
  change (group_by_width l) with (fold_left group_step l []).
  apply (fold_group_grouped l (acc := []) (seen := [])).
  intros k'. reflexivity.
Qed.

Lemma fold_max_ge ks : forall k, k <= fold_left Nat.max ks k.
Proof.
  induction ks as [| x ks IH]; intros k; simpl; [lia |].
  specialize (IH (Nat.max k x)). lia.
Qed.

Lemma fold_max_spec ks : forall k,
  (forall x, In x (k :: ks) -> x <= fold_left Nat.max ks k) /\
  In (fold_left Nat.max ks k) (k :: ks).
Proof.
  induction ks as [| y ks IH]; intros k.
  - simpl. split; [intros x [H | []]; lia | auto].
  - destruct (IH (Nat.max k y)) as [Hle Hin].
    change (fold_left Nat.max (y :: ks) k) with (fold_left Nat.max ks (Nat.max k y)).
    split.
    + intros x Hx.
      assert (Nat.max k y <= fold_left Nat.max ks (Nat.max k y)) as Hm
          by (apply Hle; left; reflexivity).
      destruct Hx as [H | [H | H]].
      * subst. lia.
      * subst. lia.
      * apply Hle. right. assumption.
    + destruct Hin as [H | H].
      * rewrite <- H.
        destruct (Nat.max_spec k y) as [[_ E] | [_ E]]; rewrite E.
        -- right. left. reflexivity.
        -- left. reflexivity.
      * right. right. assumption.
Qed.

Lemma max_key_spec {V} (d : list (nat * V)) m :
  max_key d = Ok m ->
  In m (Dict.keys d) /\ forall k, In k (Dict.keys d) -> k <= m.
Proof.
  unfold max_key. destruct (Dict.keys d) as [| k ks]; [discriminate |].
  intros H. inversion H; subst.
  destruct (fold_max_spec ks k) as [Hle Hin]. split; assumption.
Qed.

(** The candidates [get_merge_columns] hands to [random.choice] are the
    widest of the constraints it kept, without those that have an
    identity column. *)
Lemma widest_group l m :
  max_key (group_by_width l) = Ok m ->
  Dict.lookup Nat.eqb m (group_by_width l) = Some (of_width m l) /\
  forall c, In c l -> length c <= m.
Proof.
  intros H. destruct (max_key_spec _ H) as [Hin Hmax]. split.
  - apply (keys_mem nat_eqb_spec') in Hin. unfold Dict.mem in Hin.
    rewrite group_by_width_lookup in *.
    destruct (of_width m l); [discriminate | reflexivity].
  - intros c Hc. apply Hmax. apply (keys_mem nat_eqb_spec').
    unfold Dict.mem. rewrite group_by_width_lookup.
    assert (In c (of_width (length c) l)) as Hf.
    { apply filter_In. split; [assumption | apply Nat.eqb_refl]. }
    destruct (of_width (length c) l); [contradiction | reflexivity].
Qed.


Lemma random_choice_In {B A} (l : list A) (st st' : state B) x :
  random_choice l st = (Ok x, st') -> In x l.
Proof.
  unfold random_choice. destruct l as [| a l]; [discriminate |].
  unfold bind, draw.
  destruct (nth_error (a :: l) _) eqn:E; intros H; inversion H; subst.
  exact (nth_error_In _ _ E).
Qed.

Lemma get_table_obj_ok {B} name (st st' : state B) t :
  get_table_obj name st = (Ok t, st') ->
  reflect B (st_db st) name = Some t /\ st' = st.
Proof.
  unfold get_table_obj, bind, get_state.
  destruct (reflect B (st_db st) name); intros H; inversion H; subst.
  split; reflexivity.
Qed.





(** With a plain primary key the columns resolved are those of the key,
    whether or not the records have them. *)
Example upsert_cols_primary_key_absent_from_data :
  fst (resolve_upsert_cols "public.parent" None
         (Toy.fresh (Toy.unreferenced Toy.parent_table_plain_pk) Toy.two_tables
                    (fun n => n))) = Ok ["id"] /\
  all_present ["id"] [Toy.record_A] = false.
Proof. split; reflexivity. Qed.

(* ===================================================================== *)
(** * The relationship graph *)
(* ===================================================================== *)

(** C8 (as the code has it).  Once the cache holds at least one
    relationship, building the graph again without the overwrite flag does
    nothing at all: no query is sent, no session is opened, and the state
    of the connector, its cache included, is the one before the call. *)
Theorem setup_fkey_relationships_cached_is_noop :
  forall (B : Backend) (dialect : SQLDialect) (built_in_schemas : list string)
         (skip_builtins pkeys_only : bool) (st : state B),
    st_relationships st <> [] ->
    setup_fkey_relationships dialect built_in_schemas skip_builtins false pkeys_only st
    = (Ok tt, st).
Proof.
  intros B dialect bis skip pk st H.
  unfold setup_fkey_relationships, bind, get_state.
  destruct (st_relationships st) as [| r rs]; [contradiction | reflexivity].
Qed.

Example built_parent_child_graph :
  st_relationships built_parent_child
  = [("public.parent", [("public.child", [(["code"], [["parent_code"]])])])].
Proof. reflexivity. Qed.

Lemma setup_fkey_relationships_cached_is_noop_witness :
  st_relationships built_parent_child <> [] /\
  setup_fkey_relationships POSTGRES ["public"] true false false built_parent_child
  = (Ok tt, built_parent_child).
Proof.
  split.
  - discriminate.
  - apply (@setup_fkey_relationships_cached_is_noop
             (Toy.backend (Toy.referenced Toy.parent_table false))
             POSTGRES ["public"] true false built_parent_child).
    discriminate.
Defined.

(** With the overwrite flag the catalog is read again. *)
Example setup_fkey_relationships_overwrite_example :
  st_log (snd (setup_fkey_relationships POSTGRES ["public"] false true false
                 built_parent_child))
  = st_log built_parent_child ++
    [EvExec (OwnSession 1) (FkeyCatalog false false "public"); EvClose (OwnSession 1)].
Proof. reflexivity. Qed.

(** C8, refuted as stated.  In a database without foreign keys the graph
    is built (one catalog query, no error) and is empty; the next call
    without the overwrite flag sends the catalog query again instead of
    returning at once. *)
Lemma setup_fkey_relationships_empty_graph_requeries :
  fst (setup_fkey_relationships POSTGRES ["public"] false false false
         (Toy.fresh (Toy.unreferenced Toy.parent_table) Toy.two_tables (fun n => n)))
  = Ok tt /\
  st_log built_unreferenced
  = [EvExec (OwnSession 0) (FkeyCatalog false false "public"); EvClose (OwnSession 0)] /\
  st_log (snd (setup_fkey_relationships POSTGRES ["public"] false false false
                 built_unreferenced))
  = st_log built_unreferenced ++
    [EvExec (OwnSession 1) (FkeyCatalog false false "public"); EvClose (OwnSession 1)] /\
  setup_fkey_relationships POSTGRES ["public"] false false false built_unreferenced
  <> (Ok tt, built_unreferenced).
Proof.
  split; [reflexivity |]. split; [reflexivity |]. split; [reflexivity |].
  intros H. apply (f_equal (fun p => length (st_log (snd p)))) in H.
  vm_compute in H. discriminate.
Qed.

Example built_cyclic_graph :
  st_relationships built_cyclic
  = [("public.parent", [("public.child", [(["code"], [["parent_code"]])])]);
     ("public.child", [("public.parent", [(["id"], [["child_id"]])])])].
Proof. reflexivity. Qed.

(** A child that is not among the children of the parent: [False]. *)
Example tables_are_linked_by_stranger :
  fst (tables_are_linked_by POSTGRES ["public"] 5 "public.parent" "public.other"
         (KStr "code") [] built_cyclic)
  = Ok (Some false, []).
Proof. reflexivity. Qed.

(** The key of the relationship passed as a tuple: [True]. *)
Example tables_are_linked_by_tuple :
  fst (tables_are_linked_by POSTGRES ["public"] 5 "public.parent" "public.child"
         (KTuple ["code"]) [] built_cyclic)
  = Ok (Some true, []).
Proof. reflexivity. Qed.

(** C9.  The traversal is meant to answer false when the child is not
    reached through the column.  On the cyclic schema, asked for a column
    that links nothing, it stops but falls off its end and gives [None],
    not [False].  On the parent/child schema, asked from the table that
    has no children, it does not answer at all: [get_foreign_keys] gives
    [None] for that table and the membership test on it raises a
    [TypeError]. *)
Theorem tables_are_linked_by_does_not_return_false :
  fst (tables_are_linked_by POSTGRES ["public"] 5 "public.parent" "public.child"
         (KStr "extra") [] built_cyclic)
  = Ok (None, ["public.child"]) /\
  fst (tables_are_linked_by POSTGRES ["public"] 5 "public.child" "public.parent"
         (KStr "id") [] built_parent_child)
  = Raise (TypeError "argument of type 'NoneType' is not iterable").
Proof. split; reflexivity. Qed.
(* ===================================================================== *)
(** * The traversal stops *)
(* ===================================================================== *)

Lemma set_mem_str_in x s : Dict.set_mem String.eqb x s = str_in x s.
Proof. induction s as [| y s IH]; simpl; [reflexivity | rewrite IH; reflexivity]. Qed.

Lemma str_in_app x a b : str_in x (a ++ b) = str_in x a || str_in x b.
Proof.
  induction a as [| y a IH]; simpl; [reflexivity |].
  rewrite IH. rewrite orb_assoc. reflexivity.
Qed.

Lemma str_in_set_add x y s :
  str_in x (Dict.set_add String.eqb y s) = str_in x s || String.eqb x y.
Proof.
  unfold Dict.set_add. rewrite set_mem_str_in.
  destruct (str_in y s) eqn:E.
  - destruct (String.eqb x y) eqn:Exy.
    + apply String.eqb_eq in Exy. subst. rewrite E. reflexivity.
    + rewrite orb_false_r. reflexivity.
  - rewrite str_in_app. simpl. rewrite orb_false_r. reflexivity.
Qed.

Lemma subset_refl c : subset c c.
Proof. intros x H. exact H. Qed.

Lemma subset_trans a b c : subset a b -> subset b c -> subset a c.
Proof. intros H1 H2 x H. apply H2, H1, H. Qed.

Lemma subset_set_add y s : subset s (Dict.set_add String.eqb y s).
Proof. intros x H. rewrite str_in_set_add, H. reflexivity. Qed.

Lemma str_in_set_add_self y s : str_in y (Dict.set_add String.eqb y s) = true.
Proof. rewrite str_in_set_add, String.eqb_refl. apply orb_true_r. Qed.

Lemma filter_length_mono {A} (p q : A -> bool) (l : list A) :
  (forall x, In x l -> q x = true -> p x = true) ->
  length (filter q l) <= length (filter p l).
Proof.
  induction l as [| a l IH]; intros H; simpl; [lia |].
  assert (length (filter q l) <= length (filter p l)) as IH'
      by (apply IH; intros x Hx; apply H; right; exact Hx).
  destruct (q a) eqn:Eq.
  - rewrite (H a (or_introl eq_refl) Eq). simpl. lia.
  - destruct (p a); simpl; lia.
Qed.

Lemma filter_length_strict {A} (p q : A -> bool) (l : list A) (a : A) :
  (forall x, In x l -> q x = true -> p x = true) ->
  In a l -> p a = true -> q a = false ->
  length (filter q l) < length (filter p l).
Proof.
  induction l as [| b l IH]; intros H Hin Hp Hq; simpl; [contradiction |].
  assert (length (filter q l) <= length (filter p l)) as Hle
      by (apply filter_length_mono; intros x Hx; apply H; right; exact Hx).
  destruct Hin as [-> | Hin].
  - rewrite Hp, Hq. simpl. lia.
  - assert (length (filter q l) < length (filter p l)) as Hlt
        by (apply IH; [intros x Hx; apply H; right; exact Hx | assumption ..]).
    destruct (q b) eqn:Eq.
    + rewrite (H b (or_introl eq_refl) Eq). simpl. lia.
    + destruct (p b); simpl; lia.
Qed.

Lemma unchecked_le children c c' :
  subset c c' -> length (unchecked children c') <= length (unchecked children c).
Proof.
  intros Hs. unfold unchecked. apply filter_length_mono.
  intros x _ Hx. destruct (str_in (fst x) c) eqn:E; [| reflexivity].
  apply Hs in E. rewrite E in Hx. discriminate.
Qed.

Lemma unchecked_lt children c c' k v :
  subset c c' -> In (k, v) children ->
  str_in k c = false -> str_in k c' = true ->
  length (unchecked children c') < length (unchecked children c).
Proof.
  intros Hs Hin Hc Hc'. unfold unchecked.
  apply filter_length_strict with (a := (k, v)).
  - intros x _ Hx. destruct (str_in (fst x) c) eqn:E; [| reflexivity].
    apply Hs in E. rewrite E in Hx. discriminate.
  - exact Hin.
  - simpl. rewrite Hc. reflexivity.
  - simpl. rewrite Hc'. reflexivity.
Qed.

Lemma unchecked_length children c : length (unchecked children c) <= length children.
Proof. unfold unchecked. apply List.filter_length_le. Qed.

Lemma dict_mem_In {V} k (d : list (string * V)) :
  Dict.mem String.eqb k d = true -> exists v, In (k, v) d.
Proof.
  unfold Dict.mem. induction d as [| [k' v'] d IH]; simpl; [discriminate |].
  destruct (String.eqb k k') eqn:E.
  - intros _. apply String.eqb_eq in E. subst. exists v'. left. reflexivity.
  - intros H. destruct (IH H) as [v Hv]. exists v. right. exact Hv.
Qed.

Lemma dict_In_mem {V} k v (d : list (string * V)) :
  In (k, v) d -> Dict.mem String.eqb k d = true.
Proof.
  unfold Dict.mem. induction d as [| [k' v'] d IH]; simpl; [contradiction |].
  intros [H | H].
  - inversion H; subst. rewrite String.eqb_refl. reflexivity.
  - destruct (String.eqb k k'); [reflexivity | apply IH; exact H].
Qed.

Section Traversal.
Variables (B : Backend) (dialect : SQLDialect) (built_in_schemas : list string).
Variables (st : state B) (parent_table : string) (children : children_t).
Variable parent_column : pykey.
Hypothesis built :
  Dict.lookup String.eqb parent_table (st_relationships st) = Some children.

(** With the graph in the cache [get_foreign_keys] asks the database
    nothing. *)
Lemma get_foreign_keys_built :
  get_foreign_keys dialect built_in_schemas parent_table st = (Ok (Some children), st).
Proof.
  unfold get_foreign_keys, setup_fkey_relationships, bind, get_state, ret.
  destruct (st_relationships st) as [| r rs] eqn:E; [discriminate built |].
  cbn. rewrite E. rewrite built. reflexivity.
Qed.

Section Loops.
Variable d : nat.
Variable recur : string -> list string -> M B (option bool * list string).

Hypothesis recur_ok :
  forall child checked,
    depth_needed children child checked <= d ->
    exists r checked',
      recur child checked st = (Ok (r, checked'), st) /\
      subset checked checked' /\
      (r <> Some true -> Dict.mem String.eqb child children = true ->
       str_in child checked' = true) /\
      (forall c, parent_column = KStr c -> r <> Some true).

Lemma linked_inner_ok :
  forall fkeys sub_child cur,
    Dict.mem String.eqb sub_child children = true ->
    depth_needed children sub_child cur <= d ->
    exists b cur',
      linked_inner recur sub_child fkeys cur st = (Ok (b, cur'), st) /\
      subset cur cur' /\
      (forall c, parent_column = KStr c -> b = false).
Proof.
  induction fkeys as [| fk rest IH]; intros sub_child cur Hmem Hd.
  - exists false, cur. split; [reflexivity | split; [apply subset_refl | reflexivity]].
  - destruct (recur_ok sub_child cur Hd) as [r [cur1 [Hr [Hs [Hin Hstr]]]]].
    cbn [linked_inner]. unfold bind at 1. rewrite Hr. cbn [fst snd].
    assert (r = Some true \/ r <> Some true) as [-> | Hne].
    { destruct r as [[|] |]; [left; reflexivity | right; discriminate ..]. }
    + exists true, cur1. split; [reflexivity | split; [exact Hs |]].
      intros c Hc. exfalso. apply (Hstr c Hc). reflexivity.
    + assert (str_in sub_child cur1 = true) as Hc1 by (apply Hin; assumption).
      assert (depth_needed children sub_child cur1 <= d) as Hd1.
      { unfold depth_needed in *. rewrite Hc1. cbn [negb andb].
        rewrite Hmem in Hd. rewrite andb_true_r in Hd.
        destruct (str_in sub_child cur) eqn:Hc; cbn [negb] in Hd.
        - pose proof (@unchecked_le children _ _ Hs). lia.
        - destruct (@dict_mem_In _ _ _ Hmem) as [v Hv].
          pose proof (@unchecked_lt children _ _ _ _ Hs Hv Hc Hc1). lia. }
      destruct (IH sub_child cur1 Hmem Hd1) as [b [cur2 [Hrun [Hs2 Hb]]]].
      exists b, cur2. split; [| split].
      * destruct r as [[|] |]; [congruence | exact Hrun | exact Hrun].
      * eapply subset_trans; eassumption.
      * exact Hb.
Qed.

Lemma linked_outer_ok :
  forall items cur,
    incl items children ->
    length (unchecked children cur) <= d ->
    exists b cur',
      linked_outer recur items cur st = (Ok (b, cur'), st) /\
      subset cur cur' /\
      (forall c, parent_column = KStr c -> b = false).
Proof.
  induction items as [| [sub_child fkeys] rest IH]; intros cur Hincl Hd.
  - exists false, cur. split; [reflexivity | split; [apply subset_refl | reflexivity]].
  - assert (incl rest children) as Hrest
        by (intros x Hx; apply Hincl; right; exact Hx).
    assert (Dict.mem String.eqb sub_child children = true) as Hmem
        by (apply dict_In_mem with (v := fkeys); apply Hincl; left; reflexivity).
    cbn [linked_outer].
    destruct (str_in sub_child cur) eqn:Hc.
    + apply IH; assumption.
    + assert (depth_needed children sub_child cur <= d) as Hd0
          by (unfold depth_needed; rewrite Hc, Hmem; exact Hd).
      destruct (linked_inner_ok (Dict.keys fkeys) sub_child cur Hmem Hd0)
        as [b [cur1 [Hrun [Hs Hb]]]].
      unfold bind at 1. rewrite Hrun. cbn [fst snd].
      destruct b.
      * exists true, cur1. split; [reflexivity | split; [exact Hs | exact Hb]].
      * assert (length (unchecked children cur1) <= d) as Hd1
            by (pose proof (@unchecked_le children _ _ Hs); lia).
        destruct (IH cur1 Hrest Hd1) as [b [cur2 [Hrun2 [Hs2 Hb2]]]].
        exists b, cur2.
        split; [exact Hrun2 | split; [eapply subset_trans; eassumption | exact Hb2]].
Qed.
End Loops.

Lemma depth_needed_pos child checked : 0 < depth_needed children child checked.
Proof.
  unfold depth_needed.
  destruct (str_in child checked) eqn:Hc; cbn [negb andb]; [lia |].
  destruct (Dict.mem String.eqb child children) eqn:Hm; [| lia].
  destruct (@dict_mem_In _ _ _ Hm) as [v Hv].
  unfold unchecked.
  assert (In (child, v) (filter (fun it => negb (str_in (fst it) checked)) children)) as Hin
      by (apply filter_In; split; [exact Hv | simpl; rewrite Hc; reflexivity]).
  destruct (filter (fun it => negb (str_in (fst it) checked)) children);
    [contradiction | simpl; lia].
Qed.

(** A call with the depth it needs returns; it leaves the state as it
    is, only adds to [checked], and unless it answers [True] for a child
    of the parent it has put that child into [checked].  Asked for a
    column given as a string it never answers [True]: the keys it looks
    among are tuples. *)
Lemma tables_are_linked_by_returns :
  forall depth child checked,
    depth_needed children child checked <= depth ->
    exists r checked',
      tables_are_linked_by dialect built_in_schemas depth parent_table child
                           parent_column checked st = (Ok (r, checked'), st) /\
      subset checked checked' /\
      (r <> Some true -> Dict.mem String.eqb child children = true ->
       str_in child checked' = true) /\
      (forall c, parent_column = KStr c -> r <> Some true).
Proof.
  induction depth as [| d IH]; intros child checked Hd.
  - pose proof (depth_needed_pos child checked). lia.
  - cbn [tables_are_linked_by]. unfold bind at 1.
    rewrite get_foreign_keys_built.
    destruct (Dict.lookup String.eqb child children) as [fkeys |] eqn:El.
    + destruct (key_in parent_column fkeys) eqn:Ek.
      * exists (Some true), checked.
        split; [reflexivity | split; [apply subset_refl | split; [congruence |]]].
        intros c Hc. subst parent_column. simpl in Ek. discriminate.
      * assert (Dict.mem String.eqb child children = true) as Hmem
            by (unfold Dict.mem; rewrite El; reflexivity).
        assert (length (unchecked children (Dict.set_add String.eqb child checked)) <= d)
          as Hd1.
        { unfold depth_needed in Hd. rewrite Hmem, andb_true_r in Hd.
          destruct (str_in child checked) eqn:Hc; cbn [negb] in Hd.
          - pose proof (@unchecked_le children _ _ (subset_set_add child checked)). lia.
          - destruct (@dict_mem_In _ _ _ Hmem) as [v Hv].
            pose proof (@unchecked_lt children _ _ _ _ (subset_set_add child checked) Hv Hc
                                      (str_in_set_add_self child checked)).
            lia. }
        destruct (@linked_outer_ok d
                   (fun sub_child checked =>
                      tables_are_linked_by dialect built_in_schemas d parent_table
                                           sub_child parent_column checked)
                   IH children (Dict.set_add String.eqb child checked)
                                   (incl_refl _) Hd1) as [b [cur [Hrun [Hs Hb]]]].
        unfold bind at 1. rewrite Hrun. cbn [fst snd].
        assert (subset checked cur) as Hsub
            by (eapply subset_trans; [apply subset_set_add | exact Hs]).
        assert (str_in child cur = true) as Hin
            by (apply Hs; apply str_in_set_add_self).
        destruct b.
        -- exists (Some true), cur.
           split; [reflexivity | split; [exact Hsub | split; [congruence |]]].
           intros c Hc. specialize (Hb c Hc). discriminate.
        -- exists None, cur.
           split; [reflexivity | split; [exact Hsub | split; [auto | discriminate]]].
    + exists (Some false), checked.
      split; [reflexivity | split; [apply subset_refl | split; [| discriminate]]].
      intros _ Hm. unfold Dict.mem in Hm. rewrite El in Hm. discriminate.
Qed.
End Traversal.

(** Once the graph is in the cache and the parent has children in it, the
    traversal returns whenever the call depth left exceeds the number of
    the parent's children, cycles or not, without a query and without a
    change of state. *)
Theorem tables_are_linked_by_terminates :
  forall (B : Backend) (dialect : SQLDialect) (built_in_schemas : list string)
         (st : state B) (parent_table child_table : string) (children : children_t)
         (parent_column : pykey) (checked : list string) (depth : nat),
    Dict.lookup String.eqb parent_table (st_relationships st) = Some children ->
    length children < depth ->
    exists r checked',
      tables_are_linked_by dialect built_in_schemas depth parent_table child_table
                           parent_column checked st = (Ok (r, checked'), st).
Proof.
  intros B dialect bis st parent child children col checked depth Hb Hd.
  destruct (@tables_are_linked_by_returns B dialect bis st parent children col Hb
                                          depth child checked) as [r [c' [H _]]].
  - unfold depth_needed. pose proof (unchecked_length children checked).
    destruct (negb (str_in child checked) && Dict.mem String.eqb child children); lia.
  - exists r, c'. exact H.
Qed.

(** X21.  Asked for a parent column given as a string, as the signature has
    it, the traversal never answers [True]. *)
Theorem tables_are_linked_by_string_column_never_true :
  forall (B : Backend) (dialect : SQLDialect) (built_in_schemas : list string)
         (st : state B) (parent_table child_table : string) (children : children_t)
         (c : string) (checked : list string) (depth : nat),
    Dict.lookup String.eqb parent_table (st_relationships st) = Some children ->
    length children < depth ->
    exists r checked',
      tables_are_linked_by dialect built_in_schemas depth parent_table child_table
                           (KStr c) checked st = (Ok (r, checked'), st) /\
      r <> Some true.
Proof.
  intros B dialect bis st parent child children c checked depth Hb Hd.
  destruct (@tables_are_linked_by_returns B dialect bis st parent children (KStr c) Hb
                                          depth child checked) as [r [c' [H [_ [_ Hs]]]]].
  - unfold depth_needed. pose proof (unchecked_length children checked).
    destruct (negb (str_in child checked) && Dict.mem String.eqb child children); lia.
  - exists r, c'. split; [exact H | apply (Hs c); reflexivity].
Qed.

(** From a table the cache has no entry for, the traversal stops at once
    with the [TypeError] of the membership test on [None]. *)
Lemma tables_are_linked_by_no_children :
  forall (B : Backend) (dialect : SQLDialect) (built_in_schemas : list string)
         (st : state B) (parent_table child_table : string)
         (parent_column : pykey) (checked : list string) (depth : nat),
    st_relationships st <> [] ->
    Dict.lookup String.eqb parent_table (st_relationships st) = None ->
    tables_are_linked_by dialect built_in_schemas (S depth) parent_table child_table
                         parent_column checked st
    = (Raise (TypeError "argument of type 'NoneType' is not iterable"), st).
Proof.
  intros B dialect bis st parent child col checked depth Hne Hl.
  cbn [tables_are_linked_by].
  unfold bind at 1, get_foreign_keys, setup_fkey_relationships, bind, get_state, ret.
  destruct (st_relationships st) as [| r rs] eqn:E; [contradiction |].
  cbn. rewrite E, Hl. reflexivity.
Qed.

(** X20.  On every graph in the cache, with or without cycles, the traversal
    stops within a call depth of one more than the number of children of
    the parent: it never runs out of depth.  It leaves the state as it
    is, and either returns or raises the [TypeError] above. *)
Theorem tables_are_linked_by_stops :
  forall (B : Backend) (dialect : SQLDialect) (built_in_schemas : list string)
         (st : state B) (parent_table child_table : string)
         (parent_column : pykey) (checked : list string) (depth : nat),
    st_relationships st <> [] ->
    length (children_of (st_relationships st) parent_table) < depth ->
    (exists r checked',
        tables_are_linked_by dialect built_in_schemas depth parent_table child_table
                             parent_column checked st = (Ok (r, checked'), st)) \/
    tables_are_linked_by dialect built_in_schemas depth parent_table child_table
                         parent_column checked st
    = (Raise (TypeError "argument of type 'NoneType' is not iterable"), st).
Proof.
  intros B dialect bis st parent child col checked depth Hne Hd.
  unfold children_of in Hd.
  destruct (Dict.lookup String.eqb parent (st_relationships st)) as [children |] eqn:El.
  - left. eapply tables_are_linked_by_terminates; eassumption.
  - right. destruct depth as [| depth]; [simpl in Hd; lia |].
    apply tables_are_linked_by_no_children; assumption.
Qed.

(** On the cyclic schema two levels are enough, whatever is asked. *)
Example tables_are_linked_by_stops_on_cycle :
  forall child_table parent_column checked,
    (exists r checked',
        tables_are_linked_by POSTGRES ["public"] 2 "public.parent" child_table
                             parent_column checked built_cyclic
        = (Ok (r, checked'), built_cyclic)).
Proof.
  intros child col checked.
  eapply tables_are_linked_by_terminates; [reflexivity | simpl; lia].
Qed.

(* ===================================================================== *)
(** * Writing an empty data set *)
(* ===================================================================== *)

Lemma table_exists_probe_only {B} dialect table :
  inv (is_existence_probe table) (table_exists (B:=B) dialect table None).
Proof.
  inv_auto ltac:(try (simpl; auto; fail)).
Qed.

(** C7 (as the code has it).  A call of [write] with an empty data set is
    not rejected.  The only statement it runs is the probe for the
    existence of the table, on a session of the connector's own; when the
    probe finds the table the call returns normally, in the state the
    probe left, with no insert, delete or merge built or run.  [upsert]
    called with an empty data set returns at once and touches nothing. *)
Theorem write_empty_returns_after_probe :
  forall (B : Backend) (dialect : SQLDialect) (built_in_schemas : list string)
         (depth : nat) (table_name : string) (mode : WriteMode)
         (session : option session_id) (do_explicit_cast : bool)
         (table_schema : option (list (string * string)))
         (upsert_cols : option (list string)) (do_commit : bool)
         (st st1 : state B),
    table_exists dialect table_name None st = (Ok true, st1) ->
    write dialect built_in_schemas (S depth) [] table_name mode session
          do_explicit_cast table_schema upsert_cols do_commit st = (Ok tt, st1) /\
    inv (is_existence_probe table_name)
        (write (B:=B) dialect built_in_schemas (S depth) [] table_name mode session
               do_explicit_cast table_schema upsert_cols do_commit) /\
    upsert_top dialect built_in_schemas depth [] table_name upsert_cols session
               do_commit st = (Ok tt, st).
Proof.
  intros B dialect bis depth table mode session cast schema ucols do_commit st st1 H.
  split; [| split].
  - cbn [write]. unfold write_body, bind. rewrite H. reflexivity.
  - cbn [write]. unfold write_body.
    apply inv_bind; [apply table_exists_probe_only | intros present].
    destruct present; cbn [negb]; [apply inv_ret | apply inv_raise].
  - reflexivity.
Qed.

Lemma write_empty_returns_after_probe_witness :
  table_exists POSTGRES "public.parent" None
    (Toy.fresh (Toy.unreferenced Toy.parent_table) Toy.two_tables (fun n => n))
  = (Ok true,
     snd (table_exists POSTGRES "public.parent" None
            (Toy.fresh (Toy.unreferenced Toy.parent_table) Toy.two_tables (fun n => n)))) /\
  write POSTGRES ["public"] 1 [] "public.parent" APPEND None false None None false
        (Toy.fresh (Toy.unreferenced Toy.parent_table) Toy.two_tables (fun n => n))
  = (Ok tt,
     snd (table_exists POSTGRES "public.parent" None
            (Toy.fresh (Toy.unreferenced Toy.parent_table) Toy.two_tables (fun n => n)))).
Proof.
  split; [reflexivity |].
  apply (@write_empty_returns_after_probe
           (Toy.backend (Toy.unreferenced Toy.parent_table)) POSTGRES ["public"] 0
           "public.parent" APPEND None false None None false
           (Toy.fresh (Toy.unreferenced Toy.parent_table) Toy.two_tables (fun n => n))
           (snd (table_exists POSTGRES "public.parent" None
                   (Toy.fresh (Toy.unreferenced Toy.parent_table) Toy.two_tables
                              (fun n => n))))).
  reflexivity.
Defined.

(** C7, refuted as stated.  Writing the empty list to an existing table
    raises nothing, and a statement has been run by the time the call
    returns: the existence probe. *)
Lemma write_empty_is_not_rejected :
  fst (write POSTGRES ["public"] 1 [] "public.parent" APPEND None false None None false
         (Toy.fresh (Toy.unreferenced Toy.parent_table) Toy.two_tables (fun n => n)))
  = Ok tt /\
  is_value_error
    (fst (write POSTGRES ["public"] 1 [] "public.parent" APPEND None false None None false
            (Toy.fresh (Toy.unreferenced Toy.parent_table) Toy.two_tables (fun n => n))))
  = false /\
  st_log (snd (write POSTGRES ["public"] 1 [] "public.parent" APPEND None false None None
                 false
                 (Toy.fresh (Toy.unreferenced Toy.parent_table) Toy.two_tables
                            (fun n => n))))
  = [EvExec (OwnSession 0) (SelectTrueLimit1 "public.parent"); EvClose (OwnSession 0)].
Proof. repeat split; reflexivity. Qed.

(* ===================================================================== *)
(** * Chunked writing *)
(* ===================================================================== *)

Example chunk_sizes_25000 : chunk_sizes CHUNK_SIZE 25000 = [10000; 10000; 5000].
Proof. vm_compute. reflexivity. Qed.

Example chunk_sizes_20000 : chunk_sizes CHUNK_SIZE 20000 = [10000; 10000].
Proof. vm_compute. reflexivity. Qed.

Example toy_chunks :
  let st := Toy.fresh (Toy.unreferenced Toy.parent_table) Toy.two_tables (fun n => n) in
  let run := write POSTGRES ["public"] 2 many_records "public.parent" APPEND None
                   false None None false st in
  fst run = Ok tt /\
  session_actions (OwnSession 1) (st_log (snd run))
  = [AInsert "public.parent" 10000; ACommit;
     AInsert "public.parent" 10000; ACommit;
     AInsert "public.parent" 5000; ACommit; AClose].
Proof. vm_compute. split; reflexivity. Qed.

(** *** Single steps *)



Lemma lift_run {B A} (x : res A) (st st' : state B) r :
  lift x st = (r, st') -> st' = st /\ r = x.
Proof.
  destruct x; unfold lift, ret, raise; intros H; inversion H; split; reflexivity.
Qed.



Opaque CHUNK_SIZE.




Lemma session_eqb_eq s s' : session_eqb s s' = true -> s = s'.
Proof.
  destruct s, s'; simpl; intros H; try discriminate;
    apply Nat.eqb_eq in H; subst; reflexivity.
Qed.


Lemma coerce_data_length c d d' :
  coerce_data c d = Ok d' -> length d' = length d.
Proof.
  revert d'. induction d as [| r d IH]; simpl; intros d' H.
  - inversion H. reflexivity.
  - destruct (coerce_record c r); [| discriminate].
    destruct (coerce_data c d); [| discriminate].
    inversion H; subst. simpl. f_equal. apply IH. reflexivity.
Qed.

Lemma keep_columns_length cols d : length (keep_columns cols d) = length d.
Proof. unfold keep_columns. apply length_map. Qed.

Lemma write_unfold {B} dialect bis d :
  write (B:=B) dialect bis (S d) = write_body dialect bis (write dialect bis d).
Proof. reflexivity. Qed.






(** The sizes of the chunks: none is empty, none exceeds the chunk size,
    and together they are all the records. *)
Lemma chunk_sizes_bounds cs n :
  Forall (fun k => 0 < k <= cs) (chunk_sizes cs n).
Proof.
  unfold chunk_sizes. apply Forall_forall. intros k Hk.
  apply filter_In in Hk. destruct Hk as [Hin Hnz].
  apply in_map_iff in Hin. destruct Hin as [i [E _]].
  apply negb_true_iff, Nat.eqb_neq in Hnz. subst k. lia.
Qed.

Lemma sum_filter_nonzero l :
  list_sum (filter (fun k => negb (Nat.eqb k 0)) l) = list_sum l.
Proof.
  induction l as [| k l IH]; [reflexivity |].
  simpl. destruct (Nat.eqb k 0) eqn:E; simpl.
  - apply Nat.eqb_eq in E. subst. simpl. exact IH.
  - rewrite IH. reflexivity.
Qed.

Lemma sum_slices cs : 0 < cs -> forall m n,
  n <= m * cs ->
  list_sum (map (fun i => Nat.min cs (n - i * cs)) (seq 0 m)) = n.
Proof.
  intros Hcs. induction m as [| m IH]; intros n Hn.
  - simpl in *. lia.
  - rewrite seq_S, map_app, list_sum_app. simpl.
    destruct (Nat.le_gt_cases n (m * cs)) as [Hle | Hgt].
    + rewrite IH by assumption. replace (n - m * cs) with 0 by lia. lia.
    + assert (list_sum (map (fun i => Nat.min cs (n - i * cs)) (seq 0 m)) = m * cs) as ->.
      { clear IH Hn. 
        assert (forall k, k <= m ->
                  list_sum (map (fun i => Nat.min cs (n - i * cs)) (seq 0 k)) = k * cs) as G.
        { induction k as [| k IHk]; intros Hk; [reflexivity |].
          rewrite seq_S, map_app, list_sum_app. simpl. rewrite IHk by lia.
          assert (cs <= n - k * cs) by nia. lia. }
        apply G. lia. }
      simpl in Hn. lia.
Qed.

Lemma chunk_sizes_sum cs n : 0 < cs -> list_sum (chunk_sizes cs n) = n.
Proof.
  intros Hcs. unfold chunk_sizes. rewrite sum_filter_nonzero.
  apply sum_slices; [assumption |].
  pose proof (Nat.div_mod_eq n cs). pose proof (Nat.mod_upper_bound n cs). nia.
Qed.

(* ===================================================================== *)
(** * The paths of an upsert *)
(* ===================================================================== *)






(** *** Runs that return normally *)








Lemma get_merge_columns_run {B} name data ign (st st' : state B) r :
  get_merge_columns name data ign st = (r, st') ->
  st_log st' = st_log st /\ st_db st' = st_db st /\
  st_relationships st' = st_relationships st /\
  st_next_session st' = st_next_session st.
Proof.
  unfold get_merge_columns, get_table_obj, bind, get_state, ret, raise.
  destruct (reflect B (st_db st) name) as [t |];
    [| intros H; inversion H; subst; repeat split; reflexivity].
  destruct (merge_columns_plan t data ign) as [[cols | cands] | e]; cbn [lift];
    unfold ret, raise;
    try (intros H; inversion H; subst; repeat split; reflexivity).
  destruct cands as [| c cands];
    [intros H; inversion H; subst; repeat split; reflexivity |].
  unfold random_choice, bind, draw, ret, raise.
  destruct (nth_error _ _); intros H; inversion H; subst; repeat split; reflexivity.
Qed.




Lemma upsert_top_split {B} dialect bis depth data table ucols session dc (st : state B) p :
  data <> [] ->
  fst (upsert_decide dialect bis data table ucols session st) = Ok p ->
  upsert_top dialect bis depth data table ucols session dc st
  = upsert_apply dialect (write dialect bis depth) data table dc p
                 (snd (upsert_decide dialect bis data table ucols session st)).
Proof.
  intros Hne Hp. unfold upsert_top, upsert.
  destruct data as [| r0 data0]; [contradiction |].
  unfold bind.
  destruct (upsert_decide dialect bis (r0 :: data0) table ucols session st) as [r st1].
  simpl in Hp. subst r. reflexivity.
Qed.



(** The scenario of the specification, run: the child row is found, the
    record is staged and merged on [code], and [extra] is what the
    [MERGE] updates. *)
Example spec_scenario_run :
  let run := upsert_top POSTGRES ["public"] 3 [Toy.record_A] "public.parent"
                        (Some ["code"]) (Some (CallerSession 0)) false spec_state in
  fst run = Ok tt /\
  st_log (snd run) =
  [EvExec (OwnSession 0) (FkeyCatalog false false "public");
   EvClose (OwnSession 0);
   EvExec (OwnSession 1) (SelectTrueLimit1 "public.child");
   EvClose (OwnSession 1);
   EvExec (OwnSession 2)
          (JoinExists "public.parent" "public.child" [("code", "parent_code")]
                      ["code"] [["'A'"]]);
   EvClose (OwnSession 2);
   EvExec (CallerSession 0) (DropTableIfExists "public.parent_staging");
   EvExec (CallerSession 0) (LockCreateLike "public.parent_staging" "public.parent");
   EvExec (OwnSession 3) (SelectTrueLimit1 "public.parent_staging");
   EvClose (OwnSession 3);
   EvExec (OwnSession 4) (DeleteAll "public.parent_staging");
   EvExec (OwnSession 4)
          (Insert "public.parent_staging" None None
                  [[("code", VStr "A"); ("extra", VStr "v2")]]);
   EvCommit (OwnSession 4); EvClose (OwnSession 4);
   EvExec (OwnSession 5) TempSchemas; EvClose (OwnSession 5);
   EvExec (OwnSession 6) (SelectTrueLimit1 "parent_source_2");
   EvClose (OwnSession 6);
   EvExec (CallerSession 0)
          (CreateTempTableAs "parent_source_2" ["code"; "extra"]
                             "public.parent_staging" ["code"] [["'A'"]]);
   EvExec (CallerSession 0) (FullTempTableName "parent_source_2");
   EvExec (CallerSession 0) (NullProbe "pg_temp_3.parent_source_2" "code");
   EvExec (CallerSession 0) (NullProbe "pg_temp_3.parent_source_2" "extra");
   EvExec (CallerSession 0) (NullProbe "public.parent" "id");
   EvExec (CallerSession 0) (NullProbe "public.parent" "code");
   EvExec (CallerSession 0) (NullProbe "public.parent" "extra");
   EvExec (CallerSession 0)
          (Merge "public.parent" "pg_temp_3.parent_source_2" [("code", false)]
                 ["code"; "extra"] ["extra"]);
   EvExec (OwnSession 7) (DropTable "public.parent_staging");
   EvCommit (OwnSession 7); EvClose (OwnSession 7)].
Proof. vm_compute. split; reflexivity. Qed.

(** With a plain primary key the [MERGE] of the same upsert matches on
    [id], which the record does not have, and [code] is among the columns
    it updates. *)
Example plain_pk_scenario_merge :
  let run := upsert_top POSTGRES ["public"] 3 [Toy.record_A] "public.parent"
                        (Some ["code"]) (Some (CallerSession 0)) false plain_pk_state in
  In (EvExec (CallerSession 0)
             (Merge "public.parent" "pg_temp_3.parent_source_1" [("id", false)]
                    ["id"; "code"; "extra"] ["code"; "extra"]))
     (st_log (snd run)).
Proof. vm_compute. repeat (first [left; reflexivity | right]). Qed.

(* ===================================================================== *)
(** * Merge columns without a constraint behind them *)
(* ===================================================================== *)

Lemma tuple_eqb_refl c : Dict.tuple_eqb c c = true.
Proof.
  unfold Dict.tuple_eqb. induction c as [| x c IH]; simpl; [reflexivity |].
  rewrite String.eqb_refl. exact IH.
Qed.

Lemma in_key_constraints_backed t c :
  In c (key_constraints t) -> backed_by_constraint t c = true.
Proof.
  intros H. unfold backed_by_constraint. apply existsb_exists.
  exists c. split; [assumption | apply tuple_eqb_refl].
Qed.

Lemma unique_names_in_key_constraints t k :
  In k (constraints t) -> is_UniqueConstraint k = true ->
  constraint_names k <> [] ->
  In (constraint_names k) (key_constraints t).
Proof.
  intros Hin Hu Hne. unfold key_constraints. apply in_flat_map.
  exists k. split; [assumption |].
  destruct k; try discriminate.
  destruct (constraint_names (UniqueConstraint cols)) eqn:E; [contradiction |].
  left. reflexivity.
Qed.

Lemma pk_names_in_key_constraints t :
  primary_key_columns t <> [] ->
  In (map col_name (primary_key_columns t)) (key_constraints t).
Proof.
  unfold primary_key_columns.
  destruct (filter is_PrimaryKeyConstraint (constraints t)) as [| k ks] eqn:F;
    [intros H; contradiction |].
  intros Hne.
  assert (In k (filter is_PrimaryKeyConstraint (constraints t))) as Hk
      by (rewrite F; left; reflexivity).
  apply filter_In in Hk. destruct Hk as [Hin Hpk].
  unfold key_constraints. apply in_flat_map. exists k. split; [assumption |].
  destruct k; try discriminate. simpl in *.
  unfold constraint_names. simpl.
  destruct cols as [| c cols]; [contradiction |]. left. reflexivity.
Qed.

(** Whatever [get_merge_columns] plans to return is empty or the columns
    of a unique or primary-key constraint. *)
Lemma merge_columns_plan_backed t data ign plan :
  merge_columns_plan t data ign = Ok plan ->
  match plan with
  | UsePrimaryKey cols => backed_by_constraint t cols = true
  | ChooseAmong cands =>
      forall c, In c cands -> c = [] \/ backed_by_constraint t c = true
  end.
Proof.
  unfold merge_columns_plan. fold (primary_key_columns t).
  set (U0 := filter is_UniqueConstraint (constraints t)).
  set (U1 := if ign
             then filter (fun const => negb (existsb identity_always (constraint_columns const))) U0
             else U0).
  set (U2 := map constraint_names U1).
  set (U3 := match data with
             | Some (r0 :: _) => filter (fun const => forallb (fun c => record_has c r0) const) U2
             | _ => U2
             end).
  assert (forall c, In c U3 -> c = [] \/ backed_by_constraint t c = true) as HU.
  { intros c Hc.
    assert (In c U2) as Hc2.
    { unfold U3 in Hc. destruct data as [[| r0 rest] |]; try assumption.
      apply filter_In in Hc. tauto. }
    unfold U2 in Hc2. apply in_map_iff in Hc2. destruct Hc2 as [k [Ek Hk]].
    assert (In k U0) as Hk0.
    { unfold U1 in Hk. destruct ign; [apply filter_In in Hk; tauto | assumption]. }
    unfold U0 in Hk0. apply filter_In in Hk0. destruct Hk0 as [Hin Hu].
    destruct c as [| x c]; [left; reflexivity | right].
    apply in_key_constraints_backed. rewrite <- Ek.
    apply unique_names_in_key_constraints; try assumption.
    rewrite Ek. discriminate. }
  destruct (negb (Nat.eqb (length (primary_key_columns t)) 0) &&
            negb (existsb identity_always (primary_key_columns t))) eqn:Epk.
  - intros H. inversion H; subst.
    apply in_key_constraints_backed, pk_names_in_key_constraints.
    apply andb_true_iff in Epk. destruct Epk as [Hlen _].
    apply negb_true_iff, Nat.eqb_neq in Hlen.
    destruct (primary_key_columns t); [contradiction | discriminate].
  - destruct (max_key (group_by_width U3)) as [m | e] eqn:Mx; [| discriminate].
    intros H. inversion H; subst. intros c Hc.
    apply filter_In in Hc. destruct Hc as [Hc _].
    rewrite group_by_width_lookup in Hc.
    apply HU.
    destruct (of_width m U3) as [| g0 g] eqn:Ew; [contradiction |].
    rewrite <- Ew in Hc. unfold of_width in Hc. apply filter_In in Hc. tauto.
Qed.

Lemma get_merge_columns_backed {B} name data ign (st st' : state B) mc :
  get_merge_columns name data ign st = (Ok mc, st') ->
  exists t, reflect B (st_db st) name = Some t /\
            (mc = [] \/ backed_by_constraint t mc = true).
Proof.
  unfold get_merge_columns. intros H.
  apply bind_ok_inv in H. destruct H as [t [st1 [Ht H]]].
  apply get_table_obj_ok in Ht. destruct Ht as [Ht ->].
  exists t. split; [assumption |].
  apply bind_ok_inv in H. destruct H as [plan [st2 [Hp H]]].
  destruct (merge_columns_plan t data ign) as [plan' | e] eqn:P; [| discriminate].
  simpl in Hp. inversion Hp; subst plan' st2. clear Hp.
  pose proof (merge_columns_plan_backed _ _ _ P) as Hb.
  destruct plan as [cols | cands].
  - inversion H; subst. right. assumption.
  - destruct cands as [| c cands].
    + inversion H; subst. left. reflexivity.
    + apply random_choice_In in H. apply Hb. assumption.
Qed.

(** The columns of a constraint pass the test [upsert] makes before it
    merges, and so does the empty list: the test never fails on what
    [get_merge_columns] returned. *)
Lemma backed_passes_guard t mc :
  mc = [] \/ backed_by_constraint t mc = true -> is_unique_constraint_of t mc = true.
Proof.
  intros [-> | Hb]; [reflexivity |].
  unfold backed_by_constraint in Hb. apply existsb_exists in Hb.
  destruct Hb as [c [Hin Heq]].
  assert (mc = c) as ->.
  { clear Hin. unfold Dict.tuple_eqb in Heq. revert c Heq.
    induction mc as [| x mc IH]; intros [| y c] H; simpl in H; try discriminate;
      [reflexivity |].
    apply andb_true_iff in H. destruct H as [H1 H2].
    apply String.eqb_eq in H1. subst. f_equal. apply IH. assumption. }
  unfold is_unique_constraint_of. apply forallb_forall. intros x Hx.
  unfold key_constraints in Hin. apply in_flat_map in Hin.
  destruct Hin as [k [Hk Hc]].
  assert (forall l, In x l -> str_in x l = true) as Hstr.
  { induction l as [| y l IHl]; simpl; [contradiction |].
    intros [-> | H]; [rewrite String.eqb_refl; reflexivity |].
    rewrite IHl by assumption. apply orb_true_r. }
  apply Hstr. apply in_flat_map. exists k. split; [assumption |].
  destruct k; simpl in Hc |- *; try contradiction;
    (destruct (constraint_names _) eqn:E in Hc; [contradiction |];
     destruct Hc as [Hc | []]; rewrite <- Hc in Hx; rewrite <- E in Hx; exact Hx).
Qed.

(** *** Computations that never return normally *)











(** What the upsert of the witness raises, and when: the staging table has
    been made and filled, and the error comes from [merge_tables] before
    it builds the [MERGE]. *)
Example keyless_upsert_error :
  fst (upsert_top POSTGRES ["public"] 3 [keyless_record] "public.parent"
                  (Some ["code"]) None false keyless_state)
  = Raise (ValueError "Could not determine columns to perform merge with.").
Proof. vm_compute. reflexivity. Qed.

(* ===================================================================== *)
(** * The staging table *)
(* ===================================================================== *)




(* ===================================================================== *)
(** * The session of the caller *)
(* ===================================================================== *)

Lemma quiet_uncommitted s0 e : quiet s0 e -> uncommitted s0 e.
Proof. destruct e; simpl; auto. Qed.

Ltac quiet_leaf :=
  try (simpl; first [ discriminate | intros; discriminate | intros; reflexivity
                    | exact I | congruence ]; fail).

Ltac too_long :=
  try (exfalso;
       match goal with
       | H : coerce_data _ _ = Ok ?a, E : Nat.ltb _ (length ?a) = true |- _ =>
           apply coerce_data_length in H; rewrite keep_columns_length in H;
           apply Nat.ltb_lt in E; simpl in *; lia
       end).

(** A write on a session of the connector's own, whatever it does, leaves
    the session of the caller alone. *)
Lemma own_write_quiet {B} dialect bis c depth :
  forall data t mode session cast schema ucols dc,
    own_or_none session ->
    inv (quiet (CallerSession c))
        (write (B:=B) dialect bis depth data t mode session cast schema ucols dc).
Proof.
  induction depth as [| d IH]; intros data t mode session cast schema ucols dc Hs.
  - apply inv_raise.
  - rewrite write_unfold. unfold write_body.
    destruct session as [[c' | k] |]; [contradiction | |];
      inv_auto ltac:(quiet_leaf; try (apply IH; exact I)).
Qed.

(** A write that is not an upsert, of at most 10,000 records, on the
    session of the caller and without [do_commit]. *)
Lemma sub_write_quiet {B} dialect bis c depth data t mode cast schema ucols :
  mode <> UPSERT -> length data <= CHUNK_SIZE ->
  inv (quiet (CallerSession c))
      (write (B:=B) dialect bis depth data t mode (Some (CallerSession c))
             cast schema ucols false).
Proof.
  intros Hm Hlen. destruct depth as [| d]; [apply inv_raise |].
  rewrite write_unfold. unfold write_body.
  destruct mode; try contradiction;
    inv_auto ltac:(quiet_leaf; too_long).
Qed.

Ltac uncommitted_leaf :=
  try (simpl; first [ exact I | discriminate | intros; discriminate | congruence ]; fail).

(** An upsert of at most 10,000 records on the session of the caller and
    without [do_commit] never commits that session or rolls it back. *)
Lemma sub_upsert_uncommitted {B} dialect bis c depth data table ucols :
  length data <= CHUNK_SIZE ->
  inv (uncommitted (CallerSession c))
      (upsert_top (B:=B) dialect bis depth data table ucols (Some (CallerSession c)) false).
Proof.
  intros Hlen. unfold upsert_top, upsert.
  destruct data as [| r0 data0]; [apply inv_ret |].
  inv_auto ltac:(uncommitted_leaf;
                 try (eapply inv_weaken;
                      [apply quiet_uncommitted
                      | first [ apply own_write_quiet; exact I
                              | apply sub_write_quiet; [discriminate | assumption] ] ])).
Qed.

(** The decision stage of an upsert leaves the session of the caller
    alone. *)
Lemma sub_decide_quiet {B} dialect bis c data table ucols :
  inv (quiet (CallerSession c))
      (upsert_decide (B:=B) dialect bis data table ucols (Some (CallerSession c))).
Proof. inv_auto ltac:(quiet_leaf). Qed.

(** So does the delete-then-insert branch, for at most 10,000 records. *)
Lemma sub_delete_insert_quiet {B} dialect bis c depth data table p :
  up_session p = CallerSession c -> up_is_sub p = true -> up_merge p = false ->
  length data <= CHUNK_SIZE ->
  inv (quiet (CallerSession c))
      (upsert_apply (B:=B) dialect (write dialect bis depth) data table false p).
Proof.
  intros Hs Hsub Hm Hlen. unfold upsert_apply. rewrite Hs, Hsub, Hm.
  inv_auto ltac:(quiet_leaf;
                 try (apply sub_write_quiet; [discriminate | assumption])).
Qed.

Lemma finalize_transaction_sub_noop {B} s (st : state B) :
  finalize_transaction s true false st = (Ok tt, st).
Proof. reflexivity. Qed.

(** C10 (as the code has it).  With a session of the caller, [do_commit]
    left false and at most 10,000 records: [__finalize_transaction] does
    nothing; a write that is not an upsert neither commits, closes nor
    rolls back the session and runs no self-committing statement on it;
    an upsert never commits it or rolls it back; and an upsert that takes
    the delete-then-insert branch leaves it alone in the same sense as a
    write.  (The merge branch runs the block that makes the staging table,
    which has its own [COMMIT], on the session, and a statement that fails
    in [execute] closes it; more than 10,000 records are committed chunk
    by chunk on the session, which is closed at the end.) *)
Theorem caller_session_left_to_the_caller :
  forall (B : Backend) (dialect : SQLDialect) (built_in_schemas : list string)
         (depth : nat) (c : nat) (data : list record) (table : string)
         (do_explicit_cast : bool) (table_schema : option (list (string * string)))
         (upsert_cols : option (list string)),
    length data <= CHUNK_SIZE ->
    (forall st : state B,
        finalize_transaction (CallerSession c) true false st = (Ok tt, st)) /\
    (forall mode, mode <> UPSERT ->
                  inv (quiet (CallerSession c))
                      (write (B:=B) dialect built_in_schemas depth data table mode
                             (Some (CallerSession c)) do_explicit_cast table_schema
                             upsert_cols false)) /\
    inv (uncommitted (CallerSession c))
        (upsert_top (B:=B) dialect built_in_schemas depth data table upsert_cols
                    (Some (CallerSession c)) false) /\
    (forall (st : state B) p,
        fst (upsert_decide dialect built_in_schemas data table upsert_cols
                           (Some (CallerSession c)) st) = Ok p ->
        up_merge p = false ->
        exists evs,
          st_log (snd (upsert_top dialect built_in_schemas depth data table upsert_cols
                                  (Some (CallerSession c)) false st))
          = st_log st ++ evs /\
          Forall (quiet (CallerSession c)) evs).
Proof.
  intros B dialect bis depth c data table cast schema ucols Hlen.
  split; [intros st; reflexivity |].
  split; [intros mode Hm; apply sub_write_quiet; assumption |].
  split; [apply sub_upsert_uncommitted; assumption |].
  intros st p Hp Hm.
  destruct data as [| r0 data0] eqn:Ed.
  - exists []. rewrite app_nil_r. split; [reflexivity | constructor].
  - rewrite <- Ed in *.
    assert (data <> []) as Hne by (rewrite Ed; discriminate).
    rewrite (@upsert_top_split B dialect bis depth data table ucols (Some (CallerSession c)) false st p Hne Hp).
    destruct (upsert_decide dialect bis data table ucols (Some (CallerSession c)) st)
      as [r st1] eqn:E.
    simpl in Hp. subst r. cbn [snd].
    assert (up_session p = CallerSession c /\ up_is_sub p = true) as [Hs Hsub]
        by (eapply returns_upsert_decide_sub; exact E).
    pose proof E as E'.
    eapply inv_run in E'; [| apply sub_decide_quiet].
    destruct E' as [evs0 [E0 F0]].
    destruct (@sub_delete_insert_quiet B dialect bis c depth data table p Hs Hsub Hm Hlen st1)
      as [evs1 [E1 F1]].
    exists (evs0 ++ evs1). split.
    + rewrite E1, E0, app_assoc. reflexivity.
    + apply Forall_app. split; assumption.
Qed.

Lemma caller_session_left_to_the_caller_witness :
  length [Toy.record_A] <= CHUNK_SIZE /\
  (forall st : state (Toy.backend spec_scenario),
      finalize_transaction (CallerSession 0) true false st = (Ok tt, st)) /\
  (forall mode, mode <> UPSERT ->
                inv (quiet (CallerSession 0))
                    (write (B:=Toy.backend spec_scenario) POSTGRES ["public"] 3
                           [Toy.record_A] "public.parent" mode
                           (Some (CallerSession 0)) false None (Some ["code"]) false)) /\
  inv (uncommitted (CallerSession 0))
      (upsert_top (B:=Toy.backend spec_scenario) POSTGRES ["public"] 3 [Toy.record_A]
                  "public.parent" (Some ["code"]) (Some (CallerSession 0)) false) /\
  (forall (st : state (Toy.backend spec_scenario)) p,
      fst (upsert_decide POSTGRES ["public"] [Toy.record_A] "public.parent"
                         (Some ["code"]) (Some (CallerSession 0)) st) = Ok p ->
      up_merge p = false ->
      exists evs,
        st_log (snd (upsert_top POSTGRES ["public"] 3 [Toy.record_A] "public.parent"
                                (Some ["code"]) (Some (CallerSession 0)) false st))
        = st_log st ++ evs /\
        Forall (quiet (CallerSession 0)) evs).
Proof.
  split.
  - apply Nat.leb_le. vm_compute. reflexivity.
  - apply (@caller_session_left_to_the_caller
             (Toy.backend spec_scenario) POSTGRES ["public"] 3 0 [Toy.record_A]
             "public.parent" false None (Some ["code"])).
    apply Nat.leb_le. vm_compute. reflexivity.
Defined.

(** An upsert into an unreferenced table on the session of the caller: the
    delete and the insert are all that session is asked to do. *)
Example delete_then_insert_on_callers_session :
  let st := Toy.fresh (Toy.unreferenced Toy.parent_table) Toy.two_tables (fun n => n) in
  let run := upsert_top POSTGRES ["public"] 3 [Toy.record_A] "public.parent"
                        (Some ["code"]) (Some (CallerSession 0)) false st in
  fst run = Ok tt /\
  on_session (CallerSession 0) (st_log (snd run))
  = [EvExec (CallerSession 0) (DeleteIn "public.parent" ["code"] [[VStr "A"]]);
     EvExec (CallerSession 0)
            (Insert "public.parent" None None [[("code", VStr "A"); ("extra", VStr "v2")]])].
Proof. vm_compute. split; reflexivity. Qed.

(** C10, refuted as stated.  An append of 25,000 records on the session
    of the caller, [do_commit] left false, commits that session after
    each of the three chunks and closes it at the end. *)
Lemma chunked_write_commits_and_closes_callers_session :
  let st := Toy.fresh (Toy.unreferenced Toy.parent_table) Toy.two_tables (fun n => n) in
  let run := write POSTGRES ["public"] 2 many_records "public.parent" APPEND
                   (Some (CallerSession 0)) false None None false st in
  fst run = Ok tt /\
  session_actions (CallerSession 0) (st_log (snd run))
  = [AInsert "public.parent" 10000; ACommit;
     AInsert "public.parent" 10000; ACommit;
     AInsert "public.parent" 5000; ACommit; AClose] /\
  ~ Forall (quiet (CallerSession 0)) (st_log (snd run)).
Proof.
  split; [vm_compute; reflexivity |].
  split; [vm_compute; reflexivity |].
  intros H.
  assert (Forall (fun a => a <> ACommit)
                 (session_actions (CallerSession 0)
                    (st_log (snd (write POSTGRES ["public"] 2 many_records "public.parent"
                                        APPEND (Some (CallerSession 0)) false None None false
                                        (Toy.fresh (Toy.unreferenced Toy.parent_table)
                                                   Toy.two_tables (fun n => n))))))) as G.
  { unfold session_actions, on_session.
    induction H as [| e evs He _ IH]; [constructor |].
    simpl. destruct (session_eqb (event_session e) (CallerSession 0)) eqn:Es; [| exact IH].
    simpl. constructor; [| exact IH].
    apply session_eqb_eq in Es.
    destruct e as [s q | s | s | s]; simpl in *; subst;
      try (destruct q; discriminate); try discriminate.
    exfalso. apply He. reflexivity. }
  revert G. vm_compute. intros G.
  inversion G as [| a l _ G1]; subst.
  inversion G1 as [| a' l' Hc _]; subst.
  apply Hc. reflexivity.
Qed.

(** On the merge path the block that makes the staging table, which
    commits by itself, is run on the session of the caller. *)
Example merge_path_commits_in_staging_block :
  let run := upsert_top POSTGRES ["public"] 3 [Toy.record_A] "public.parent"
                        (Some ["code"]) (Some (CallerSession 0)) false spec_state in
  existsb (fun e => match e with
                    | EvExec (CallerSession 0) q => self_committing q
                    | _ => false
                    end) (st_log (snd run)) = true.
Proof. vm_compute. reflexivity. Qed.

(* ===================================================================== *)
(** * Single statements: [execute] and [table_exists] *)
(* ===================================================================== *)


(** X2.  A statement that fails on a session handed in by the caller closes
    that session before the error goes up, although the session is not
    the connector's own. *)
Theorem execute_closes_callers_session_on_error :
  forall (B : Backend) (q : sql) (s : session_id) (rollback_stmt : bool)
         (st : state B) (e : db_error),
    run B (st_db st) q = Failed e ->
    fst (execute q (Some s) rollback_stmt st) = Raise (SQLAlchemyError e) /\
    st_log (snd (execute q (Some s) rollback_stmt st))
    = st_log st ++ [EvExec s q; EvClose s].
Proof.
  intros B q s rb st e H.
  unfold execute, bind, try_except, session_execute, bind, emit, get_state,
    session_close, ret, raise, emit.
  cbn. rewrite H. cbn.
  split; [reflexivity |]. rewrite <- app_assoc. reflexivity.
Qed.

Lemma execute_closes_callers_session_on_error_witness :
  run (Toy.backend (Toy.unreferenced Toy.parent_table))
      (st_db (Toy.fresh (Toy.unreferenced Toy.parent_table) [] (fun n => n)))
      (DeleteAll "public.parent") = Failed UndefinedTable /\
  fst (execute (DeleteAll "public.parent") (Some (CallerSession 0)) false
               (Toy.fresh (Toy.unreferenced Toy.parent_table) [] (fun n => n)))
  = Raise (SQLAlchemyError UndefinedTable) /\
  st_log (snd (execute (DeleteAll "public.parent") (Some (CallerSession 0)) false
                       (Toy.fresh (Toy.unreferenced Toy.parent_table) [] (fun n => n))))
  = st_log (Toy.fresh (Toy.unreferenced Toy.parent_table) [] (fun n => n))
    ++ [EvExec (CallerSession 0) (DeleteAll "public.parent"); EvClose (CallerSession 0)].
Proof.
  split; [reflexivity |].
  apply (@execute_closes_callers_session_on_error
           (Toy.backend (Toy.unreferenced Toy.parent_table))
           (DeleteAll "public.parent") (CallerSession 0) false
           (Toy.fresh (Toy.unreferenced Toy.parent_table) [] (fun n => n))
           UndefinedTable).
  reflexivity.
Defined.

(** With [rollback_stmt] set, a session the connector opened itself is
    rolled back when the statement succeeds but is not closed. *)
Theorem execute_rollback_leaves_own_session_open :
  forall (B : Backend) (q : sql) (st : state B),
    is_ok (execute_result (run B (st_db st) q)) = true ->
    st_log (snd (execute q None true st))
    = st_log st ++ [EvExec (OwnSession (st_next_session st)) q;
                    EvRollback (OwnSession (st_next_session st))].
Proof.
  intros B q st H.
  unfold execute, bind, try_except, new_session, session_execute, bind, emit, get_state,
    session_rollback, set_db, ret, raise, emit.
  cbn.
  destruct (run B (st_db st) q) as [e | rs db' | db']; cbn in *;
    [discriminate | |]; rewrite <- app_assoc; reflexivity.
Qed.

Lemma execute_rollback_leaves_own_session_open_witness :
  is_ok (execute_result
           (run (Toy.backend (Toy.unreferenced Toy.parent_table))
                (st_db (Toy.fresh (Toy.unreferenced Toy.parent_table) Toy.two_tables
                                  (fun n => n)))
                (DeleteAll "public.parent"))) = true /\
  st_log (snd (execute (DeleteAll "public.parent") None true
                       (Toy.fresh (Toy.unreferenced Toy.parent_table) Toy.two_tables
                                  (fun n => n))))
  = [EvExec (OwnSession 0) (DeleteAll "public.parent"); EvRollback (OwnSession 0)].
Proof.
  split; [reflexivity |].
  apply (@execute_rollback_leaves_own_session_open
           (Toy.backend (Toy.unreferenced Toy.parent_table))
           (DeleteAll "public.parent")
           (Toy.fresh (Toy.unreferenced Toy.parent_table) Toy.two_tables (fun n => n))).
  reflexivity.
Defined.

(** X3.  [table_exists] answers [False] only for the two errors of the driver
    that say the table is not there; any other error of the driver goes
    up, rows or none mean [True], and a dialect other than Postgres and
    T-SQL is refused with nothing sent. *)
Theorem table_exists_answer :
  forall (B : Backend) (dialect : SQLDialect) (table_name : string)
         (session : option session_id) (st : state B),
    match existence_probe dialect table_name with
    | Some q => fst (table_exists dialect table_name session st)
                = probe_answer (run B (st_db st) q)
    | None => table_exists dialect table_name session st
              = (Raise (RuntimeError "Not supported for dialect."), st)
    end.
Proof.
  intros B dialect t session st.
  destruct dialect; cbn [existence_probe]; try reflexivity;
    unfold table_exists, read, execute, bind, try_except, new_session, session_execute,
      bind, emit, get_state, session_commit, session_close, set_db, ret, raise, emit;
    destruct session as [s |]; cbn;
    match goal with
    | |- context [run B (st_db st) ?q] =>
        destruct (run B (st_db st) q) as [[| | msg] | rs db' | db']; reflexivity
    end.
Qed.

(* ===================================================================== *)
(** * Writing: what is checked first and what is sent *)
(* ===================================================================== *)

(** A write to a table the probe does not find is refused with a
    [ValueError], whatever the data (empty or not), the mode and the
    session, and nothing but the probe has been run. *)
Theorem write_rejects_missing_table :
  forall (B : Backend) (dialect : SQLDialect) (built_in_schemas : list string)
         (depth : nat) (data : list record) (table_name : string) (mode : WriteMode)
         (session : option session_id) (do_explicit_cast : bool)
         (table_schema : option (list (string * string)))
         (upsert_cols : option (list string)) (do_commit : bool)
         (st st1 : state B),
    table_exists dialect table_name None st = (Ok false, st1) ->
    write dialect built_in_schemas (S depth) data table_name mode session
          do_explicit_cast table_schema upsert_cols do_commit st
    = (Raise (ValueError "table_name does not exist at current connection."), st1).
Proof.
  intros B dialect bis depth data t mode session cast schema ucols dc st st1 H.
  rewrite write_unfold. unfold write_body, bind at 1. rewrite H. reflexivity.
Qed.

Lemma write_rejects_missing_table_witness :
  table_exists POSTGRES "public.absent" None
    (Toy.fresh (Toy.unreferenced Toy.parent_table) Toy.two_tables (fun n => n))
  = (Ok false,
     snd (table_exists POSTGRES "public.absent" None
            (Toy.fresh (Toy.unreferenced Toy.parent_table) Toy.two_tables (fun n => n)))) /\
  write POSTGRES ["public"] 1 [Toy.record_A] "public.absent" APPEND None false None None
        false (Toy.fresh (Toy.unreferenced Toy.parent_table) Toy.two_tables (fun n => n))
  = (Raise (ValueError "table_name does not exist at current connection."),
     snd (table_exists POSTGRES "public.absent" None
            (Toy.fresh (Toy.unreferenced Toy.parent_table) Toy.two_tables (fun n => n)))).
Proof.
  split; [reflexivity |].
  apply (@write_rejects_missing_table
           (Toy.backend (Toy.unreferenced Toy.parent_table)) POSTGRES ["public"] 0
           [Toy.record_A] "public.absent" APPEND None false None None false).
  reflexivity.
Defined.

(** X4.  A table name that is not of the shape [schema.table] or
    [database.schema.table] passes the existence probe but cannot be
    written to: with data to write and a mode other than upsert the call
    ends in the [KeyError] of the metadata lookup, and no statement
    follows the probe. *)
Theorem write_needs_a_qualified_name :
  forall (B : Backend) (dialect : SQLDialect) (built_in_schemas : list string)
         (depth : nat) (data : list record) (table_name : string) (mode : WriteMode)
         (session : option session_id) (do_explicit_cast : bool)
         (table_schema : option (list (string * string)))
         (upsert_cols : option (list string)) (do_commit : bool)
         (st st1 : state B),
    format_table_for_metadata table_name = None ->
    table_exists dialect table_name None st = (Ok true, st1) ->
    data <> [] -> mode <> UPSERT ->
    fst (write dialect built_in_schemas (S depth) data table_name mode session
               do_explicit_cast table_schema upsert_cols do_commit st)
    = Raise (KeyError "None") /\
    st_log (snd (write dialect built_in_schemas (S depth) data table_name mode session
                       do_explicit_cast table_schema upsert_cols do_commit st))
    = st_log st1.
Proof.
  intros B dialect bis depth data t mode session cast schema ucols dc st st1 Hf He Hd Hm.
  assert (exists st2,
             write dialect bis (S depth) data t mode session cast schema ucols dc st
             = (Raise (KeyError "None"), st2) /\ st_log st2 = st_log st1) as [st2 [E L]].
  { rewrite write_unfold. unfold write_body, bind at 1. rewrite He. cbn [negb].
    destruct data as [| r0 data]; [contradiction |].
    destruct mode; try contradiction; cbn [mode_eqb]; rewrite Hf;
      destruct session as [s |]; eexists; split; reflexivity. }
  rewrite E. split; [reflexivity | exact L].
Qed.

Lemma write_needs_a_qualified_name_witness :
  format_table_for_metadata "parent" = None /\
  fst (write POSTGRES ["public"] 1 [Toy.record_A] "parent" APPEND None false None None
             false (Toy.fresh (Toy.unreferenced Toy.parent_table) ["parent"] (fun n => n)))
  = Raise (KeyError "None") /\
  st_log (snd (write POSTGRES ["public"] 1 [Toy.record_A] "parent" APPEND None false None
                     None false
                     (Toy.fresh (Toy.unreferenced Toy.parent_table) ["parent"]
                                (fun n => n))))
  = st_log (snd (table_exists POSTGRES "parent" None
                   (Toy.fresh (Toy.unreferenced Toy.parent_table) ["parent"]
                              (fun n => n)))).
Proof.
  split; [reflexivity |].
  apply (@write_needs_a_qualified_name
           (Toy.backend (Toy.unreferenced Toy.parent_table)) POSTGRES ["public"] 0
           [Toy.record_A] "parent" APPEND None false None None false
           (Toy.fresh (Toy.unreferenced Toy.parent_table) ["parent"] (fun n => n))
           (snd (table_exists POSTGRES "parent" None
                   (Toy.fresh (Toy.unreferenced Toy.parent_table) ["parent"]
                              (fun n => n)))));
    [reflexivity | reflexivity | discriminate | discriminate].
Defined.

(** [__finalize_transaction] never fails. *)
Lemma finalize_transaction_ok {B} s is_sub dc (st : state B) :
  exists st', finalize_transaction s is_sub dc st = (Ok tt, st').
Proof.
  unfold finalize_transaction, bind, session_commit, session_close, emit, ret.
  destruct dc, is_sub; cbn; eexists; reflexivity.
Qed.

Lemma bind_fail_congr {B A C} (m : M B A) (f g : A -> M B C) st e st' :
  (forall a st1, f a st1 = (Raise e, st') -> g a st1 = (Raise e, st')) ->
  bind m f st = (Raise e, st') -> bind m g st = (Raise e, st').
Proof.
  intros H. unfold bind. destruct (m st) as [[a | e0] st1]; [apply H | exact (fun E => E)].
Qed.

Ltac fail_step :=
  lazymatch goal with
  | |- ?x = _ -> ?x = _ => exact (fun H => H)
  | |- finalize_transaction ?s ?b ?d ?st = (Raise _, _) -> _ =>
      let H := fresh in
      let st2 := fresh in
      let E := fresh in
      intros H; destruct (finalize_transaction_ok s b d st) as [st2 E];
      rewrite E in H; discriminate H
  | |- bind _ _ _ = _ -> bind _ _ _ = _ => apply bind_fail_congr; intros ? ?; cbv beta
  | |- (if ?b then _ else _) _ = _ -> _ => destruct b eqn:?
  | |- (match ?x with _ => _ end) _ = _ -> _ => destruct x eqn:?
  end.

(** A write that fails has failed before its closing
    [__finalize_transaction], so it fails in the same way, and leaves the
    same state, whatever [do_commit] is. *)
Lemma failed_write_ignores_do_commit {B} dialect bis depth data t mode session cast schema
      ucols (st st' : state B) e :
  mode <> UPSERT ->
  write dialect bis depth data t mode session cast schema ucols true st = (Raise e, st') ->
  write dialect bis depth data t mode session cast schema ucols false st = (Raise e, st').
Proof.
  intros Hm.
  destruct depth as [| d]; [exact (fun H => H) |].
  rewrite !write_unfold. unfold write_body.
  assert (mode_eqb mode UPSERT = false) as Eu
      by (destruct mode; try reflexivity; contradiction).
  rewrite Eu. cbv zeta.
  repeat fail_step.
Qed.

(** X5.  All or nothing on the session of the caller: when a write of at most
    10,000 records in a mode other than upsert fails, although it was
    asked to commit, it has not committed the session it was given, nor
    closed it or rolled it back; whatever it ran there, the delete of an
    overwrite included, is still the caller's to roll back. *)
Theorem failed_write_leaves_callers_session_uncommitted :
  forall (B : Backend) (dialect : SQLDialect) (built_in_schemas : list string)
         (depth : nat) (c : nat) (data : list record) (table_name : string)
         (mode : WriteMode) (do_explicit_cast : bool)
         (table_schema : option (list (string * string)))
         (upsert_cols : option (list string)) (st : state B) (e : exn),
    mode <> UPSERT ->
    length data <= CHUNK_SIZE ->
    fst (write dialect built_in_schemas depth data table_name mode
               (Some (CallerSession c)) do_explicit_cast table_schema upsert_cols true st)
    = Raise e ->
    exists evs,
      st_log (snd (write dialect built_in_schemas depth data table_name mode
                         (Some (CallerSession c)) do_explicit_cast table_schema
                         upsert_cols true st))
      = st_log st ++ evs /\
      Forall (quiet (CallerSession c)) evs.
Proof.
  intros B dialect bis depth c data t mode cast schema ucols st e Hm Hlen Hf.
  destruct (write dialect bis depth data t mode (Some (CallerSession c)) cast schema ucols
                  true st) as [r st'] eqn:E.
  simpl in Hf. subst r. cbn [snd].
  apply failed_write_ignores_do_commit in E; [| exact Hm].
  eapply inv_run; [| exact E].
  apply sub_write_quiet; assumption.
Qed.

(** An overwrite whose insert the database rejects: the delete has run
    on the session of the caller, the insert has failed there, and the
    session is neither committed nor closed. *)
Example failed_overwrite_run :
  let run := write POSTGRES ["public"] 1 [Toy.record_A] "public.parent" OVERWRITE
                   (Some (CallerSession 0)) false None None true rejecting_state in
  fst run = Raise (SQLAlchemyError
                     (DbFailure "null value in column violates not-null constraint")) /\
  on_session (CallerSession 0) (st_log (snd run))
  = [EvExec (CallerSession 0) (DeleteAll "public.parent");
     EvExec (CallerSession 0) (Insert "public.parent" None None [Toy.record_A])].
Proof. vm_compute. split; reflexivity. Qed.

Lemma failed_write_leaves_callers_session_uncommitted_witness :
  OVERWRITE <> UPSERT /\
  length [Toy.record_A] <= CHUNK_SIZE /\
  fst (write POSTGRES ["public"] 1 [Toy.record_A] "public.parent" OVERWRITE
             (Some (CallerSession 0)) false None None true rejecting_state)
  = Raise (SQLAlchemyError
             (DbFailure "null value in column violates not-null constraint")) /\
  exists evs,
    st_log (snd (write POSTGRES ["public"] 1 [Toy.record_A] "public.parent" OVERWRITE
                       (Some (CallerSession 0)) false None None true rejecting_state))
    = st_log rejecting_state ++ evs /\
    Forall (quiet (CallerSession 0)) evs.
Proof.
  split; [discriminate |].
  split; [apply Nat.leb_le; vm_compute; reflexivity |].
  split; [vm_compute; reflexivity |].
  apply (@failed_write_leaves_callers_session_uncommitted
           rejecting_backend POSTGRES ["public"] 1 0 [Toy.record_A] "public.parent"
           OVERWRITE false None None rejecting_state
           (SQLAlchemyError
              (DbFailure "null value in column violates not-null constraint")));
    [discriminate | apply Nat.leb_le; vm_compute; reflexivity | vm_compute; reflexivity].
Defined.

(* ===================================================================== *)
(** * Writing: the columns of the records sent *)
(* ===================================================================== *)

(** The conversions of [_COERCE_METHODS] change values, never the
    columns of a record or their order. *)
Lemma coerce_record_keys coerce r r' :
  coerce_record coerce r = Ok r' -> record_keys r' = record_keys r.
Proof.
  revert r'. induction r as [| [col v] r IH]; intros r' H; simpl in H.
  - inversion H. reflexivity.
  - destruct (match Dict.lookup String.eqb col coerce with
              | Some f => if is_None v then Ok v else f v
              | None => Ok v
              end) as [v' | e]; [| discriminate].
    destruct (coerce_record coerce r) as [r'' | e]; [| discriminate].
    inversion H; subst. unfold record_keys in *. simpl. rewrite (IH r'' eq_refl).
    reflexivity.
Qed.

Lemma coerce_data_keys coerce data data' :
  coerce_data coerce data = Ok data' -> map record_keys data' = map record_keys data.
Proof.
  revert data'. induction data as [| r data IH]; intros data' H; simpl in H.
  - inversion H. reflexivity.
  - destruct (coerce_record coerce r) as [r' |] eqn:Er; [| discriminate].
    destruct (coerce_data coerce data) as [d |]; [| discriminate].
    inversion H; subst. simpl. rewrite (coerce_record_keys _ _ Er), (IH d eq_refl).
    reflexivity.
Qed.

Lemma dict_mem_keys {V} k (d : list (string * V)) :
  Dict.mem String.eqb k d = true -> In k (map fst d).
Proof.
  intros H. destruct (dict_mem_In _ _ H) as [v Hv].
  apply in_map_iff. exists (k, v). split; [reflexivity | exact Hv].
Qed.

(** After [keep_columns] every column of every record is one of
    [columns]. *)
Lemma keep_columns_keys columns data r k :
  In r (keep_columns columns data) -> In k (record_keys r) -> In k (map fst columns).
Proof.
  unfold keep_columns, record_keys. intros Hr Hk.
  apply in_map_iff in Hr. destruct Hr as [r0 [<- _]].
  apply in_map_iff in Hk. destruct Hk as [[k' v] [<- Hkv]].
  apply filter_In in Hkv. destruct Hkv as [_ Hm]. simpl in *.
  apply dict_mem_keys. exact Hm.
Qed.

Lemma coerced_kept_keys coerce columns data data' r k :
  coerce_data coerce (keep_columns columns data) = Ok data' ->
  In r data' -> In k (record_keys r) -> In k (map fst columns).
Proof.
  intros Hc Hr Hk.
  apply coerce_data_keys in Hc.
  assert (In (record_keys r) (map record_keys data')) as Hin
      by (apply in_map; exact Hr).
  rewrite Hc in Hin. apply in_map_iff in Hin. destruct Hin as [r0 [E Hr0]].
  rewrite <- E in Hk. eapply keep_columns_keys; eassumption.
Qed.

Lemma returns_metadata_table {B} f :
  returns (metadata_table (B:=B) f)
          (fun tbl => exists db name, f = Some name /\ reflect B db name = Some tbl).
Proof.
  unfold returns. intros st tbl st' H. unfold metadata_table in H.
  destruct f as [name |]; [| discriminate].
  unfold bind, get_state in H.
  destruct (reflect B (st_db st) name) as [t |] eqn:E; [| discriminate].
  inversion H; subst. eexists; exists name. split; [reflexivity | exact E].
Qed.

Ltac fits_step :=
  lazymatch goal with
  | |- inv _ (bind (metadata_table _) _) =>
      eapply inv_bind_val;
      [| apply returns_metadata_table
       | let tbl := fresh "tbl" in let db := fresh "db" in let name := fresh "name" in
         let Hf := fresh "Hformat" in let Hr := fresh "Hreflect" in
         intros tbl [db [name [Hf Hr]]] ]
  end.

(** X6.  Given records (dictionaries), whatever the mode and the session,
    with the columns taken from the reflected table ([table_schema] not
    passed), every [INSERT] a write sends carries only columns that the
    table it inserts into has and that are not always-generated
    identities: columns of the records the table does not have are
    dropped, not sent. *)
Theorem write_inserts_only_writable_columns :
  forall (B : Backend) (dialect : SQLDialect) (built_in_schemas : list string)
         (depth : nat) (data : list record) (table_name : string) (mode : WriteMode)
         (session : option session_id) (do_explicit_cast : bool)
         (upsert_cols : option (list string)) (do_commit : bool),
    inv (insert_fits B)
        (write (B:=B) dialect built_in_schemas depth data table_name mode session
               do_explicit_cast None upsert_cols do_commit).
Proof.
  intros B dialect bis depth.
  induction depth as [| d IH]; intros data t mode session cast ucols dc.
  - apply inv_raise.
  - rewrite write_unfold. unfold write_body.
    repeat (first [ progress cbn [negb andb orb is_some mode_eqb]
                  | fits_step | inv_step | inv_head ]);
      try (simpl; exact I); try apply IH.
    all: simpl; exists db, tbl;
      (split;
       [ rewrite Hformat; exact Hreflect
       | let r := fresh "r" in let k := fresh "k" in
         let Hr := fresh "Hr" in let Hk := fresh "Hk" in
         intros r k Hr Hk; eapply coerced_kept_keys; eassumption ]).
Qed.

(* ===================================================================== *)
(** * Upsert by delete and insert: nothing is committed when it fails *)
(* ===================================================================== *)

Lemma failed_apply_ignores_do_commit {B} dialect bis depth data table p
      (st st' : state B) e :
  up_merge p = false ->
  upsert_apply dialect (write dialect bis depth) data table true p st = (Raise e, st') ->
  upsert_apply dialect (write dialect bis depth) data table false p st = (Raise e, st').
Proof.
  intros Hm H. unfold upsert_apply in *. rewrite Hm in *.
  unfold bind at 1 in H. unfold bind at 1.
  destruct ((session_execute (up_session p)
               (DeleteIn table (up_lookup p) (up_values p)) ;;
             write dialect bis depth data table APPEND (Some (up_session p)) false None
                   None true) st) as [[u | e1] st1] eqn:E1.
  - exfalso.
    destruct (finalize_transaction_ok (up_session p) (up_is_sub p) true st1) as [st2 E2].
    rewrite E2 in H. discriminate H.
  - inversion H; subst e1 st1. clear H.
    assert ((session_execute (up_session p)
               (DeleteIn table (up_lookup p) (up_values p)) ;;
             write dialect bis depth data table APPEND (Some (up_session p)) false None
                   None false) st = (Raise e, st')) as E2.
    { revert E1. apply bind_fail_congr. intros a s1.
      apply failed_write_ignores_do_commit. discriminate. }
    rewrite E2. reflexivity.
Qed.

(** X7.  All or nothing, for an upsert on the session of the caller that
    takes the delete-then-insert path with at most 10,000 records: when
    it fails, although it was asked to commit, the session has not been
    committed, closed or rolled back, so the delete it may have run
    there is still the caller's to roll back. *)
Theorem failed_upsert_leaves_callers_session_uncommitted :
  forall (B : Backend) (dialect : SQLDialect) (built_in_schemas : list string)
         (depth : nat) (c : nat) (data : list record) (table_name : string)
         (upsert_cols : option (list string)) (st : state B) (p : upsert_plan)
         (e : exn),
    length data <= CHUNK_SIZE ->
    fst (upsert_decide dialect built_in_schemas data table_name upsert_cols
                       (Some (CallerSession c)) st) = Ok p ->
    up_merge p = false ->
    fst (upsert_top dialect built_in_schemas depth data table_name upsert_cols
                    (Some (CallerSession c)) true st) = Raise e ->
    exists evs,
      st_log (snd (upsert_top dialect built_in_schemas depth data table_name upsert_cols
                              (Some (CallerSession c)) true st))
      = st_log st ++ evs /\
      Forall (quiet (CallerSession c)) evs.
Proof.
  intros B dialect bis depth c data t ucols st p e Hlen Hp Hm Hf.
  assert (data <> []) as Hne.
  { intros ->. cbn in Hf. discriminate Hf. }
  rewrite (@upsert_top_split B dialect bis depth data t ucols (Some (CallerSession c)) true
                             st p Hne Hp) in *.
  destruct (upsert_decide dialect bis data t ucols (Some (CallerSession c)) st)
    as [r st1] eqn:Ed.
  cbn [fst snd] in *. subst r.
  assert (up_session p = CallerSession c /\ up_is_sub p = true) as [Hs Hsub]
      by (eapply returns_upsert_decide_sub; exact Ed).
  destruct (upsert_apply dialect (write dialect bis depth) data t true p st1)
    as [r st'] eqn:Ea.
  cbn [fst snd] in *. subst r.
  apply failed_apply_ignores_do_commit in Ea; [| exact Hm].
  pose proof Ed as Ed'.
  eapply inv_run in Ed'; [| apply sub_decide_quiet].
  destruct Ed' as [evs0 [E0 F0]].
  eapply inv_run in Ea; [| apply sub_delete_insert_quiet; eassumption].
  destruct Ea as [evs1 [E1 F1]].
  exists (evs0 ++ evs1). split.
  - rewrite E1, E0, app_assoc. reflexivity.
  - apply Forall_app. split; assumption.
Qed.

(** An upsert into a table nothing references, which the database lets
    delete but not insert: the delete and the insert have run on the
    session of the caller and nothing is committed. *)
Example failed_upsert_run :
  let run := upsert_top POSTGRES ["public"] 2 [Toy.record_A] "public.parent"
                        (Some ["code"]) (Some (CallerSession 0)) true rejecting_state in
  fst run = Raise (SQLAlchemyError
                     (DbFailure "null value in column violates not-null constraint")) /\
  on_session (CallerSession 0) (st_log (snd run))
  = [EvExec (CallerSession 0) (DeleteIn "public.parent" ["code"] [[VStr "A"]]);
     EvExec (CallerSession 0) (Insert "public.parent" None None [Toy.record_A])].
Proof. vm_compute. split; reflexivity. Qed.

Lemma failed_upsert_leaves_callers_session_uncommitted_witness :
  length [Toy.record_A] <= CHUNK_SIZE /\
  up_merge
    {| up_lookup := ["code"]; up_values := [[VStr "A"]];
       up_session := CallerSession 0; up_is_sub := true; up_merge := false |} = false /\
  exists evs,
    st_log (snd (upsert_top POSTGRES ["public"] 2 [Toy.record_A] "public.parent"
                            (Some ["code"]) (Some (CallerSession 0)) true
                            rejecting_state))
    = st_log rejecting_state ++ evs /\
    Forall (quiet (CallerSession 0)) evs.
Proof.
  split; [apply Nat.leb_le; vm_compute; reflexivity |].
  split; [reflexivity |].
  apply (@failed_upsert_leaves_callers_session_uncommitted
           rejecting_backend POSTGRES ["public"] 2 0 [Toy.record_A] "public.parent"
           (Some ["code"]) rejecting_state
           {| up_lookup := ["code"]; up_values := [[VStr "A"]];
              up_session := CallerSession 0; up_is_sub := true; up_merge := false |}
           (SQLAlchemyError
              (DbFailure "null value in column violates not-null constraint")));
    [apply Nat.leb_le; vm_compute; reflexivity
    | vm_compute; reflexivity | reflexivity | vm_compute; reflexivity].
Defined.

(* ===================================================================== *)
(** * The constraint columns handed to [ON CONFLICT] and to [MERGE] *)
(* ===================================================================== *)









(** X9.  Whatever [get_merge_columns] returns for a table, with or without
    data, passes [is_unique_constraint] for that table: the test with
    which [upsert] guards its merge can never refuse the columns
    [get_merge_columns] has just given it. *)
Theorem merge_columns_always_pass_the_guard :
  forall (B : Backend) (table_name : string) (data : option (list record))
         (ignore_identity : bool) (st st' : state B) (merge_cols : list string),
    get_merge_columns table_name data ignore_identity st = (Ok merge_cols, st') ->
    is_unique_constraint table_name merge_cols st' = (Ok true, st').
Proof.
  intros B name data ign st st' mc H.
  destruct (get_merge_columns_backed _ _ _ _ H) as [t [Hr Hb]].
  destruct (get_merge_columns_run _ _ _ _ H) as [_ [Hdb _]].
  unfold is_unique_constraint, get_table_obj, bind, get_state, ret.
  rewrite Hdb, Hr. rewrite (backed_passes_guard t Hb). reflexivity.
Qed.

Lemma merge_columns_always_pass_the_guard_witness :
  get_merge_columns "public.parent" (Some [Toy.record_A]) true spec_state
  = (Ok ["code"],
     snd (get_merge_columns "public.parent" (Some [Toy.record_A]) true spec_state)) /\
  is_unique_constraint "public.parent" ["code"]
    (snd (get_merge_columns "public.parent" (Some [Toy.record_A]) true spec_state))
  = (Ok true,
     snd (get_merge_columns "public.parent" (Some [Toy.record_A]) true spec_state)).
Proof.
  split; [reflexivity |].
  apply (@merge_columns_always_pass_the_guard
           _ "public.parent" (Some [Toy.record_A]) true spec_state _ ["code"]).
  reflexivity.
Defined.

Lemma of_width_In m l c : In c (of_width m l) -> In c l.
Proof. unfold of_width. intros H. apply filter_In in H. tauto. Qed.

(** X10.  When records are passed and the primary key is not used (the table
    has none, or it has an always-generated identity column), the merge
    columns returned are all columns of the first record. *)
Theorem merge_columns_from_constraints_are_in_the_data :
  forall (B : Backend) (table_name : string) (r0 : record) (rest : list record)
         (ignore_identity : bool) (st st' : state B) (t : Table)
         (merge_cols : list string),
    reflect B (st_db st) table_name = Some t ->
    pk_usable t = false ->
    get_merge_columns table_name (Some (r0 :: rest)) ignore_identity st
    = (Ok merge_cols, st') ->
    forall c, In c merge_cols -> record_has c r0 = true.
Proof.
  intros B name r0 rest ign st st' t mc Hr Hpk H c Hc.
  unfold get_merge_columns, get_table_obj in H.
  unfold bind at 1 in H. unfold bind at 1 in H. unfold get_state at 1 in H.
  rewrite Hr in H. unfold ret at 1 in H. unfold bind at 1 in H. unfold lift at 1 in H.
  unfold merge_columns_plan in H.
  unfold pk_usable, primary_key_columns in Hpk.
  rewrite Hpk in H.
  match type of H with
  | context [max_key (group_by_width ?l)] => set (consts := l) in *
  end.
  destruct (max_key (group_by_width consts)) as [m |] eqn:Em; [| discriminate H].
  destruct (widest_group _ Em) as [Hl _]. rewrite Hl in H.
  match type of H with
  | context [ChooseAmong ?l] => set (cands := l) in *
  end.
  assert (forall k, In k cands -> forallb (fun c => record_has c r0) k = true) as Hall.
  { intros k Hk. subst cands. apply filter_In in Hk. destruct Hk as [Hk _].
    apply of_width_In in Hk. subst consts. apply filter_In in Hk. tauto. }
  assert (In mc cands) as Hin.
  { destruct cands as [| k1 ks].
    - inversion H; subst. contradiction.
    - eapply random_choice_In. exact H. }
  specialize (Hall mc Hin). rewrite forallb_forall in Hall. apply Hall. exact Hc.
Qed.

Lemma merge_columns_from_constraints_are_in_the_data_witness :
  reflect (Toy.backend spec_scenario) (st_db spec_state) "public.parent"
  = Some Toy.parent_table /\
  pk_usable Toy.parent_table = false /\
  fst (get_merge_columns "public.parent" (Some [Toy.record_A]) true spec_state)
  = Ok ["code"] /\
  forall c, In c ["code"] -> record_has c Toy.record_A = true.
Proof.
  split; [reflexivity |]. split; [reflexivity |]. split; [reflexivity |].
  apply (@merge_columns_from_constraints_are_in_the_data
           _ "public.parent" Toy.record_A [] true spec_state
           (snd (get_merge_columns "public.parent" (Some [Toy.record_A]) true spec_state))
           Toy.parent_table ["code"]); reflexivity.
Defined.

(* ===================================================================== *)
(** * Upsert: the check of the upsert columns *)
(* ===================================================================== *)

Lemma str_in_In x l : str_in x l = true <-> In x l.
Proof.
  induction l as [| y l IH]; simpl.
  - split; [discriminate | contradiction].
  - rewrite orb_true_iff, IH, String.eqb_eq. split; intros [H | H]; auto.
Qed.

Lemma str_in_false x l : str_in x l = false <-> ~ In x l.
Proof.
  rewrite <- str_in_In. destruct (str_in x l); split; intros H; congruence.
Qed.

Lemma get_column_schema_names_eq {B} t sch name tbl (st : state B) :
  split_dot (lower t) = [sch; name] ->
  reflect B (st_db st) (lower t) = Some tbl ->
  get_column_schema_names (Some t) st
  = (Ok (map (fun c => lower (col_name c)) (columns tbl)), st).
Proof.
  intros Hs Hr. unfold get_column_schema_names. rewrite Hs.
  unfold bind, get_table_obj, bind, get_state, ret. rewrite Hr. reflexivity.
Qed.

Lemma upsert_unknown_column_run {B} dialect bis depth data t cols session dc
      (st : state B) tbl tbl' sch name c :
  data <> [] ->
  reflect B (st_db st) t = Some tbl ->
  split_dot (lower t) = [sch; name] ->
  reflect B (st_db st) (lower t) = Some tbl' ->
  In c cols ->
  ~ In c (map (fun col => lower (col_name col)) (columns tbl')) ->
  exists st1,
    upsert_top dialect bis depth data t (Some cols) session dc st
    = (Raise (ValueError "The following upsert columns not present in the table."), st1) /\
    st_log st1 = st_log st.
Proof.
  intros Hd Hr Hs Hr' Hc Hn.
  unfold upsert_top, upsert. destruct data as [| r0 data]; [contradiction |].
  unfold bind at 1. unfold upsert_decide, resolve_upsert_cols.
  unfold bind at 1. unfold ret at 1.
  assert (exists i rest,
             filter (fun c0 => negb (str_in c0 (map (fun col => lower (col_name col))
                                                    (columns tbl')))) cols
             = i :: rest) as [i [rest Hi]].
  { assert (In c (filter (fun c0 => negb (str_in c0 (map (fun col => lower (col_name col))
                                                        (columns tbl')))) cols)) as Hin.
    { apply filter_In. split; [exact Hc |].
      apply negb_true_iff. apply str_in_false. exact Hn. }
    destruct (filter _ cols) as [| i rest]; [contradiction |].
    exists i, rest. reflexivity. }
  destruct session as [s |].
  - unfold bind at 1. unfold ret at 1.
    unfold bind at 1. unfold get_table_obj at 1, bind at 1, get_state at 1.
    rewrite Hr. unfold ret at 1.
    unfold bind at 1. rewrite (@get_column_schema_names_eq B t sch name tbl' st Hs Hr').
    rewrite Hi. eexists. split; reflexivity.
  - unfold bind at 1. unfold new_session at 1.
    unfold bind at 1. unfold get_table_obj at 1, bind at 1, get_state at 1.
    cbn [st_db]. rewrite Hr. unfold ret at 1.
    unfold bind at 1.
    match goal with
    | |- context [get_column_schema_names (Some t) ?s] =>
        rewrite (@get_column_schema_names_eq B t sch name tbl' s Hs Hr')
    end.
    rewrite Hi. eexists. split; reflexivity.
Qed.

(** X11.  An upsert that is given an upsert column the table does not have (the
    names of the table's columns taken in lower case) is refused with a
    [ValueError] before anything is sent to the database: no probe, no
    delete, no insert. *)
Theorem upsert_rejects_unknown_upsert_columns :
  forall (B : Backend) (dialect : SQLDialect) (built_in_schemas : list string)
         (depth : nat) (data : list record) (table_name : string)
         (upsert_cols : list string) (session : option session_id) (do_commit : bool)
         (st : state B) (tbl tbl' : Table) (sch name c : string),
    data <> [] ->
    reflect B (st_db st) table_name = Some tbl ->
    split_dot (lower table_name) = [sch; name] ->
    reflect B (st_db st) (lower table_name) = Some tbl' ->
    In c upsert_cols ->
    ~ In c (map (fun col => lower (col_name col)) (columns tbl')) ->
    fst (upsert_top dialect built_in_schemas depth data table_name (Some upsert_cols)
                    session do_commit st)
    = Raise (ValueError "The following upsert columns not present in the table.") /\
    st_log (snd (upsert_top dialect built_in_schemas depth data table_name
                            (Some upsert_cols) session do_commit st))
    = st_log st.
Proof.
  intros B dialect bis depth data t cols session dc st tbl tbl' sch name c
         Hd Hr Hs Hr' Hc Hn.
  destruct (@upsert_unknown_column_run B dialect bis depth data t cols session dc st
                                       tbl tbl' sch name c Hd Hr Hs Hr' Hc Hn)
    as [st1 [E L]].
  rewrite E. split; [reflexivity | exact L].
Qed.

Lemma upsert_rejects_unknown_upsert_columns_witness :
  fst (upsert_top POSTGRES ["public"] 3 [Toy.record_A] "public.parent"
                  (Some ["code"; "colour"]) None false
                  (Toy.fresh (Toy.unreferenced Toy.parent_table) Toy.two_tables
                             (fun n => n)))
  = Raise (ValueError "The following upsert columns not present in the table.") /\
  st_log (snd (upsert_top POSTGRES ["public"] 3 [Toy.record_A] "public.parent"
                          (Some ["code"; "colour"]) None false
                          (Toy.fresh (Toy.unreferenced Toy.parent_table) Toy.two_tables
                                     (fun n => n))))
  = st_log (Toy.fresh (Toy.unreferenced Toy.parent_table) Toy.two_tables (fun n => n)).
Proof.
  apply (@upsert_rejects_unknown_upsert_columns
           (Toy.backend (Toy.unreferenced Toy.parent_table)) POSTGRES ["public"] 3
           [Toy.record_A] "public.parent" ["code"; "colour"] None false
           (Toy.fresh (Toy.unreferenced Toy.parent_table) Toy.two_tables (fun n => n))
           Toy.parent_table Toy.parent_table "public" "parent" "colour").
  - discriminate.
  - reflexivity.
  - reflexivity.
  - reflexivity.
  - right. left. reflexivity.
  - simpl. intros [H | [H | [H | []]]]; discriminate.
Defined.

Lemma lower_ascii_idem a : lower_ascii (lower_ascii a) = lower_ascii a.
Proof.
  destruct a as [[|] [|] [|] [|] [|] [|] [|] [|]]; reflexivity.
Qed.

Lemma lower_idem s : lower (lower s) = lower s.
Proof.
  induction s as [| a s IH]; simpl; [reflexivity |].
  rewrite lower_ascii_idem, IH. reflexivity.
Qed.

(** X12.  The names of the table are compared in lower case, those passed in
    are not: an upsert column spelled with a capital letter is refused
    whatever columns the table has. *)
Theorem upsert_rejects_capitalised_upsert_columns :
  forall (B : Backend) (dialect : SQLDialect) (built_in_schemas : list string)
         (depth : nat) (data : list record) (table_name : string)
         (upsert_cols : list string) (session : option session_id) (do_commit : bool)
         (st : state B) (tbl tbl' : Table) (sch name c : string),
    data <> [] ->
    reflect B (st_db st) table_name = Some tbl ->
    split_dot (lower table_name) = [sch; name] ->
    reflect B (st_db st) (lower table_name) = Some tbl' ->
    In c upsert_cols ->
    lower c <> c ->
    fst (upsert_top dialect built_in_schemas depth data table_name (Some upsert_cols)
                    session do_commit st)
    = Raise (ValueError "The following upsert columns not present in the table.").
Proof.
  intros B dialect bis depth data t cols session dc st tbl tbl' sch name c
         Hd Hr Hs Hr' Hc Hl.
  assert (~ In c (map (fun col => lower (col_name col)) (columns tbl'))) as Hn.
  { intros Hin. apply in_map_iff in Hin. destruct Hin as [col [E _]].
    apply Hl. rewrite <- E. apply lower_idem. }
  destruct (@upsert_unknown_column_run B dialect bis depth data t cols session dc st
                                       tbl tbl' sch name c Hd Hr Hs Hr' Hc Hn)
    as [st1 [E _]].
  rewrite E. reflexivity.
Qed.

(** The parent table has a column [code]; asked to upsert on [Code] the
    connector refuses. *)
Lemma upsert_rejects_capitalised_upsert_columns_witness :
  lower "Code" <> "Code" /\
  fst (upsert_top POSTGRES ["public"] 3 [[("Code", VStr "A")]] "public.parent"
                  (Some ["Code"]) None false
                  (Toy.fresh (Toy.unreferenced Toy.parent_table) Toy.two_tables
                             (fun n => n)))
  = Raise (ValueError "The following upsert columns not present in the table.").
Proof.
  split; [discriminate |].
  apply (@upsert_rejects_capitalised_upsert_columns
           (Toy.backend (Toy.unreferenced Toy.parent_table)) POSTGRES ["public"] 3
           [[("Code", VStr "A")]] "public.parent" ["Code"] None false
           (Toy.fresh (Toy.unreferenced Toy.parent_table) Toy.two_tables (fun n => n))
           Toy.parent_table Toy.parent_table "public" "parent" "Code").
  - discriminate.
  - reflexivity.
  - reflexivity.
  - reflexivity.
  - left. reflexivity.
  - discriminate.
Defined.

(* ===================================================================== *)
(** * Temporary table names *)
(* ===================================================================== *)

(** X13.  Asked for a name that must not exist, [get_random_temp_table_name]
    does not look whether the name it has drawn exists: the loop that
    probes and draws again runs only when [must_not_exist] is false, and
    with it set the one statement sent is the query for the temporary
    schemas. *)
Theorem temp_name_that_must_not_exist_is_never_probed :
  forall (B : Backend) (dialect : SQLDialect) (base_name : option string)
         (session : option session_id),
    inv asks_temp_schemas_only
        (get_random_temp_table_name (B:=B) dialect base_name session true).
Proof.
  intros B dialect base session.
  unfold get_random_temp_table_name.
  repeat (first [ progress cbn [negb andb orb is_some retry_temp_name]
                | inv_step | inv_head ]);
    try (simpl; first [exact I | reflexivity]).
Qed.

Lemma retry_temp_name_found_free {B} dialect base session :
  forall remaining tmp (st st' : state B) name k,
    retry_temp_name dialect remaining base false session tmp st = (Ok (name, S k), st') ->
    exists st0, table_exists dialect name session st0 = (Ok false, st').
Proof.
  induction remaining as [| r IH]; intros tmp st st' name k H.
  - cbn [retry_temp_name] in H. apply bind_ok_inv in H.
    destruct H as [taken [st1 [_ H]]]. inversion H.
  - cbn [retry_temp_name] in H. apply bind_ok_inv in H.
    destruct H as [taken [st1 [Ht H]]].
    destruct taken.
    + apply bind_ok_inv in H. destruct H as [n [st2 [_ H]]].
      eapply IH. exact H.
    + inversion H; subst. exists st. exact Ht.
Qed.

(** X14.  With [must_not_exist] false, a name that is returned is one the
    connector has just probed and found no table for. *)
Theorem temp_name_returned_was_found_free :
  forall (B : Backend) (dialect : SQLDialect) (base_name : option string)
         (session : option session_id) (st st' : state B) (name : string),
    get_random_temp_table_name dialect base_name session false st = (Ok name, st') ->
    exists st0, table_exists dialect name session st0 = (Ok false, st').
Proof.
  intros B dialect base session st st' name H.
  unfold get_random_temp_table_name in H.
  apply bind_ok_inv in H. destruct H as [schemas [st1 [_ H]]].
  apply bind_ok_inv in H. destruct H as [base1 [st2 [_ H]]].
  destruct base1 as [base1 |]; [| discriminate H].
  apply bind_ok_inv in H. destruct H as [base2 [st3 [_ H]]].
  apply bind_ok_inv in H. destruct H as [r [st4 [_ H]]].
  apply bind_ok_inv in H. destruct H as [[n rem] [st5 [Hr H]]].
  cbn [fst snd] in H. destruct rem as [| k]; [discriminate H |].
  inversion H; subst.
  eapply retry_temp_name_found_free. exact Hr.
Qed.

Lemma temp_name_returned_was_found_free_witness :
  get_random_temp_table_name POSTGRES (Some "public.parent_source_") None false
    (Toy.fresh (Toy.unreferenced Toy.parent_table) Toy.two_tables (fun n => n))
  = (Ok "parent_source_1",
     snd (get_random_temp_table_name POSTGRES (Some "public.parent_source_") None false
            (Toy.fresh (Toy.unreferenced Toy.parent_table) Toy.two_tables
                       (fun n => n)))) /\
  exists st0,
    table_exists POSTGRES "parent_source_1" None st0
    = (Ok false,
       snd (get_random_temp_table_name POSTGRES (Some "public.parent_source_") None false
              (Toy.fresh (Toy.unreferenced Toy.parent_table) Toy.two_tables
                         (fun n => n)))).
Proof.
  split; [reflexivity |].
  apply (@temp_name_returned_was_found_free
           (Toy.backend (Toy.unreferenced Toy.parent_table)) POSTGRES
           (Some "public.parent_source_") None
           (Toy.fresh (Toy.unreferenced Toy.parent_table) Toy.two_tables (fun n => n))).
  reflexivity.
Defined.

(* ===================================================================== *)
(** * The literal wrapper, without type information *)
(* ===================================================================== *)

(** X15.  Wrapping a string is idempotent: the text a string is wrapped to is
    left as it is when wrapped again.  (A string that already begins or
    ends with a single quote is not touched at all, and quotes inside a
    string are never escaped.) *)
Theorem wrap_literal_string_idempotent :
  forall (s s' : string),
    wrap_literal_untyped (VStr s) = Ok s' ->
    wrap_literal_untyped (VStr s') = Ok s'.
Proof.
  intros s s' H. unfold wrap_literal_untyped, wrap_literal in *. cbn in *.
  destruct (negb (startswith s "'") && negb (endswith s "'")) eqn:E.
  - inversion H; subst. clear H. cbn.
    replace (prefix "" (s ++ "'")) with true by (destruct (s ++ "'")%string; reflexivity).
    reflexivity.
  - inversion H; subst. rewrite E. reflexivity.
Qed.

Lemma wrap_literal_string_idempotent_witness :
  wrap_literal_untyped (VStr "O'Brien") = Ok "'O'Brien'" /\
  wrap_literal_untyped (VStr "'O'Brien'") = Ok "'O'Brien'".
Proof.
  split; [reflexivity |].
  apply (@wrap_literal_string_idempotent "O'Brien" "'O'Brien'"). reflexivity.
Defined.

(** X16.  Every boolean is wrapped as [True]: the value is rebuilt from its
    text with [bool(...)], and the text of [False] is a string that is
    not empty. *)
Theorem wrap_literal_bool_is_always_True :
  forall (b : bool) (type_name : option string) (backend : option LiteralBackend)
         (dialect : option SQLDialect) (s : string),
    wrap_literal (VBool b) type_name backend dialect = Ok s -> s = "True".
Proof.
  intros b tn be d s H. unfold wrap_literal in H.
  assert (normalise (VBool b) = Ok (VBool true)) as En by (destruct b; reflexivity).
  rewrite En in H.
  destruct tn as [t |], be as [bk |]; cbn in H;
    try (inversion H; reflexivity);
    destruct (String.eqb t ""); try (inversion H; reflexivity);
    destruct d; inversion H; reflexivity.
Qed.

Lemma wrap_literal_bool_is_always_True_witness :
  wrap_literal (VBool false) None None None = Ok "True" /\ "True" = "True".
Proof.
  split; [reflexivity |].
  apply (@wrap_literal_bool_is_always_True false None None None "True"). reflexivity.
Defined.








(* ===================================================================== *)
(** * Coercion and chunking of the records *)
(* ===================================================================== *)

Lemma coerce_record_fields coerce r r' :
  coerce_record coerce r = Ok r' -> Forall2 (field_coerced coerce) r r'.
Proof.
  revert r'. induction r as [| [col v] r IH]; intros r' H; simpl in H.
  - inversion H. constructor.
  - destruct (Dict.lookup String.eqb col coerce) as [f |] eqn:El.
    + destruct (is_None v) eqn:En.
      * destruct (coerce_record coerce r) as [r'' |]; [| discriminate].
        inversion H; subst. constructor; [| apply IH; reflexivity].
        unfold field_coerced. cbn [fst snd]. rewrite El, En.
        split; [reflexivity | split; [reflexivity | discriminate]].
      * destruct (f v) as [v' |] eqn:Ef; [| discriminate].
        destruct (coerce_record coerce r) as [r'' |]; [| discriminate].
        inversion H; subst. constructor; [| apply IH; reflexivity].
        unfold field_coerced. cbn [fst snd]. rewrite El, En.
        split; [reflexivity | split; [discriminate | intros _; exact Ef]].
    + destruct (coerce_record coerce r) as [r'' |]; [| discriminate].
      inversion H; subst. constructor; [| apply IH; reflexivity].
      unfold field_coerced. cbn [fst snd]. rewrite El.
      split; [reflexivity | split; reflexivity].
Qed.

(** X18.  The conversions [write] applies before inserting keep the shape of
    the data: as many records, each with the same columns in the same
    order; a [None] is never handed to a conversion and stays [None]; a
    column whose type has no conversion keeps its value. *)
Theorem coercion_keeps_columns_and_nulls :
  forall (coerce : list (string * (pyval -> res pyval))) (data data' : list record),
    coerce_data coerce data = Ok data' ->
    Forall2 (Forall2 (field_coerced coerce)) data data'.
Proof.
  intros coerce data. induction data as [| r data IH]; intros data' H; simpl in H.
  - inversion H. constructor.
  - destruct (coerce_record coerce r) as [r' |] eqn:Er; [| discriminate].
    destruct (coerce_data coerce data) as [d |]; [| discriminate].
    inversion H; subst. constructor.
    + apply coerce_record_fields. exact Er.
    + apply IH. reflexivity.
Qed.

Lemma coercion_keeps_columns_and_nulls_witness :
  coerce_data [("flag", fun v => Ok (VBool true))]
              [[("flag", VNone); ("code", VStr "A")]; [("flag", VStr "false")]]
  = Ok [[("flag", VNone); ("code", VStr "A")]; [("flag", VBool true)]] /\
  Forall2 (Forall2 (field_coerced [("flag", fun v => Ok (VBool true))]))
          [[("flag", VNone); ("code", VStr "A")]; [("flag", VStr "false")]]
          [[("flag", VNone); ("code", VStr "A")]; [("flag", VBool true)]].
Proof.
  split; [reflexivity |].
  apply (@coercion_keeps_columns_and_nulls
           [("flag", fun v => Ok (VBool true))]
           [[("flag", VNone); ("code", VStr "A")]; [("flag", VStr "false")]]).
  reflexivity.
Defined.





(* ===================================================================== *)
(** * The traversal of the relationship graph, on the cyclic schema *)
(* ===================================================================== *)

Lemma tables_are_linked_by_stops_witness :
  st_relationships built_cyclic <> [] /\
  length (children_of (st_relationships built_cyclic) "public.parent") < 2 /\
  ((exists r checked',
       tables_are_linked_by POSTGRES ["public"] 2 "public.parent" "public.child"
                            (KStr "extra") [] built_cyclic
       = (Ok (r, checked'), built_cyclic)) \/
   tables_are_linked_by POSTGRES ["public"] 2 "public.parent" "public.child"
                        (KStr "extra") [] built_cyclic
   = (Raise (TypeError "argument of type 'NoneType' is not iterable"), built_cyclic)).
Proof.
  split; [discriminate |].
  split; [simpl; lia |].
  apply (@tables_are_linked_by_stops
           _ POSTGRES ["public"] built_cyclic "public.parent" "public.child"
           (KStr "extra") [] 2).
  - discriminate.
  - simpl. lia.
Defined.

Lemma tables_are_linked_by_string_column_never_true_witness :
  Dict.lookup String.eqb "public.parent" (st_relationships built_cyclic)
  = Some (children_of (st_relationships built_cyclic) "public.parent") /\
  exists r checked',
    tables_are_linked_by POSTGRES ["public"] 2 "public.parent" "public.child"
                         (KStr "code") [] built_cyclic
    = (Ok (r, checked'), built_cyclic) /\
    r <> Some true.
Proof.
  split; [reflexivity |].
  apply (@tables_are_linked_by_string_column_never_true
           _ POSTGRES ["public"] built_cyclic "public.parent" "public.child"
           (children_of (st_relationships built_cyclic) "public.parent")
           "code" [] 2).
  - reflexivity.
  - simpl. lia.
Defined.

(* ===================================================================== *)
(** * The relationship graph: what a build puts in it *)
(* ===================================================================== *)

Lemma tuple_eqb_spec a b : Dict.tuple_eqb a b = true <-> a = b.
Proof.
  unfold Dict.tuple_eqb. revert b. induction a as [| x a IH]; intros [| y b]; simpl;
    try (split; [discriminate | discriminate]); [split; reflexivity |].
  rewrite andb_true_iff, String.eqb_eq, IH. split.
  - intros [-> ->]. reflexivity.
  - intros H. inversion H. split; reflexivity.
Qed.

Lemma string_eqb_spec a b : String.eqb a b = true <-> a = b.
Proof. apply String.eqb_eq. Qed.

Lemma set_add_keeps {A} (eqb : A -> A -> bool) x y s :
  In x s -> In x (Dict.set_add eqb y s).
Proof.
  unfold Dict.set_add. destruct (Dict.set_mem eqb y s); [auto |].
  intros H. apply in_or_app. left. exact H.
Qed.

Lemma set_mem_In {A} (eqb : A -> A -> bool) x s :
  (forall a b, eqb a b = true <-> a = b) ->
  Dict.set_mem eqb x s = true -> In x s.
Proof.
  intros Hspec. induction s as [| y s IH]; simpl; [discriminate |].
  rewrite orb_true_iff. intros [H | H].
  - left. symmetry. apply Hspec. exact H.
  - right. apply IH. exact H.
Qed.

Lemma set_add_has {A} (eqb : A -> A -> bool) y s :
  (forall a b, eqb a b = true <-> a = b) ->
  In y (Dict.set_add eqb y s).
Proof.
  intros Hspec. unfold Dict.set_add.
  destruct (Dict.set_mem eqb y s) eqn:E.
  - eapply set_mem_In; eassumption.
  - apply in_or_app. right. left. reflexivity.
Qed.

Lemma lookup_ensured {K V} (keq : K -> K -> bool) (k : K) (d : list (K * V)) (v0 : V) :
  (forall a b, keq a b = true <-> a = b) ->
  Dict.lookup keq k (if Dict.mem keq k d then d else Dict.set keq k v0 d)
  = Some (match Dict.lookup keq k d with Some v => v | None => v0 end).
Proof.
  intros Hspec. unfold Dict.mem.
  destruct (Dict.lookup keq k d) as [v |] eqn:E; [exact E |].
  apply lookup_set_same. exact Hspec.
Qed.

Lemma lookup_ensured_other {K V} (keq : K -> K -> bool) (k k' : K) (d : list (K * V))
      (v0 : V) :
  (forall a b, keq a b = true <-> a = b) ->
  k <> k' ->
  Dict.lookup keq k' (if Dict.mem keq k d then d else Dict.set keq k v0 d)
  = Dict.lookup keq k' d.
Proof.
  intros Hspec Hne. destruct (Dict.mem keq k d); [reflexivity |].
  apply lookup_set_other; assumption.
Qed.

Lemma string_eq_dec_prop (a b : string) : a = b \/ a <> b.
Proof. destruct (String.string_dec a b); auto. Qed.

Lemma tuple_eq_dec_prop (a b : list string) : a = b \/ a <> b.
Proof. destruct (list_eq_dec String.string_dec a b); auto. Qed.

(** The relationship that is added can be looked up. *)
Lemma add_relationship_adds rels p c pk fk :
  linked (add_relationship rels p c pk fk) p c pk fk.
Proof.
  unfold linked, add_relationship. cbv zeta.
  unfold relationships_t, children_t, fkeys_t in *.
  rewrite (@lookup_ensured _ _ String.eqb p _ _ string_eqb_spec).
  set (ch0 := match Dict.lookup String.eqb p rels with Some v => v | None => [] end).
  rewrite (@lookup_ensured _ _ String.eqb c _ _ string_eqb_spec).
  set (keys0 := match Dict.lookup String.eqb c ch0 with Some v => v | None => [] end).
  rewrite (@lookup_ensured _ _ Dict.tuple_eqb pk _ _ tuple_eqb_spec).
  set (fks0 := match Dict.lookup Dict.tuple_eqb pk keys0 with Some v => v | None => [] end).
  eexists; eexists; eexists.
  split; [apply (lookup_set_same string_eqb_spec) |].
  split; [apply (lookup_set_same string_eqb_spec) |].
  split; [apply (lookup_set_same tuple_eqb_spec) |].
  apply (@set_add_has _ Dict.tuple_eqb _ _ tuple_eqb_spec).
Qed.

(** A relationship that was there is still there after another is
    added. *)
Lemma add_relationship_keeps rels p c pk fk p0 c0 pk0 fk0 :
  linked rels p0 c0 pk0 fk0 ->
  linked (add_relationship rels p c pk fk) p0 c0 pk0 fk0.
Proof.
  intros [children [keys [fks [Hp [Hc [Hk Hf]]]]]].
  unfold linked, add_relationship. cbv zeta.
  unfold relationships_t, children_t, fkeys_t in *.
  rewrite (@lookup_ensured _ _ String.eqb p _ _ string_eqb_spec).
  set (ch0 := match Dict.lookup String.eqb p rels with Some v => v | None => [] end).
  rewrite (@lookup_ensured _ _ String.eqb c _ _ string_eqb_spec).
  set (keys0 := match Dict.lookup String.eqb c ch0 with Some v => v | None => [] end).
  rewrite (@lookup_ensured _ _ Dict.tuple_eqb pk _ _ tuple_eqb_spec).
  set (fks0 := match Dict.lookup Dict.tuple_eqb pk keys0 with Some v => v | None => [] end).
  destruct (string_eq_dec_prop p p0) as [-> | Np].
  - (* same parent *)
    assert (ch0 = children) as Ech by (subst ch0; rewrite Hp; reflexivity).
    destruct (string_eq_dec_prop c c0) as [-> | Nc].
    + assert (keys0 = keys) as Ek by (subst keys0; rewrite Ech, Hc; reflexivity).
      destruct (tuple_eq_dec_prop pk pk0) as [-> | Nk].
      * assert (fks0 = fks) as Ef by (subst fks0; rewrite Ek, Hk; reflexivity).
        do 3 eexists.
        split; [apply (lookup_set_same string_eqb_spec) |].
        split; [apply (lookup_set_same string_eqb_spec) |].
        split; [apply (lookup_set_same tuple_eqb_spec) |].
        apply set_add_keeps. rewrite Ef. exact Hf.
      * do 3 eexists.
        split; [apply (lookup_set_same string_eqb_spec) |].
        split; [apply (lookup_set_same string_eqb_spec) |].
        split; [| exact Hf].
        rewrite (lookup_set_other tuple_eqb_spec _ _ _ _ Nk).
        rewrite (@lookup_ensured_other _ _ Dict.tuple_eqb _ _ _ _ tuple_eqb_spec Nk).
        rewrite Ek. exact Hk.
    + do 3 eexists.
      split; [apply (lookup_set_same string_eqb_spec) |].
      split; [| split; [exact Hk | exact Hf]].
      rewrite (lookup_set_other string_eqb_spec _ _ _ _ Nc).
      rewrite (@lookup_ensured_other _ _ String.eqb _ _ _ _ string_eqb_spec Nc).
      rewrite Ech. exact Hc.
  - do 3 eexists.
    split; [| split; [exact Hc | split; [exact Hk | exact Hf]]].
    rewrite (lookup_set_other string_eqb_spec _ _ _ _ Np).
    rewrite (@lookup_ensured_other _ _ String.eqb _ _ _ _ string_eqb_spec Np).
    exact Hp.
Qed.

(** The parents of the graph after a relationship is added: those
    before, and the parent added. *)
Lemma add_relationship_parents rels p c pk fk p0 :
  Dict.mem String.eqb p0 (add_relationship rels p c pk fk)
  = String.eqb p0 p || Dict.mem String.eqb p0 rels.
Proof.
  unfold add_relationship, Dict.mem at 1. cbv zeta.
  unfold relationships_t, children_t, fkeys_t in *.
  destruct (String.eqb p0 p) eqn:E.
  - apply String.eqb_eq in E. subst p0.
    rewrite (lookup_set_same string_eqb_spec). reflexivity.
  - assert (p <> p0) as Np by (intros ->; rewrite String.eqb_refl in E; discriminate).
    rewrite (lookup_set_other string_eqb_spec _ _ _ _ Np).
    rewrite (@lookup_ensured_other _ _ String.eqb _ _ _ _ string_eqb_spec Np).
    reflexivity.
Qed.

Lemma execute_own_result {B} q (st : state B) :
  exists st1,
    execute q None false st = (execute_result (run B (st_db st) q), st1) /\
    st_relationships st1 = st_relationships st /\
    st_db st1 = match run B (st_db st) q with
                | Failed _ => st_db st
                | Rows _ db' | Done db' => db'
                end.
Proof.
  unfold execute, bind, try_except, new_session, session_execute, bind, emit, get_state,
    session_commit, session_close, set_db, ret, raise, emit.
  cbn.
  destruct (run B (st_db st) q) as [e | rs db' | db']; cbn;
    eexists; split; try reflexivity; split; reflexivity.
Qed.

(** What a build of the graph does once it has decided to build: it
    empties the cache, asks the catalog, and adds the rows one by one. *)
Lemma setup_rebuild_eq {B} bis skip overwrite pk (st : state B) :
  overwrite = true \/ st_relationships st = [] ->
  setup_fkey_relationships POSTGRES bis skip overwrite pk st
  = (set_relationships [] ;;
     data <- read (catalog_query bis skip pk) None ;;
     match data with
     | None => raise (TypeError "'NoneType' object is not iterable")
     | Some data =>
         forM_ (fun r =>
                  parent_table <- lift (row_str "parent_table" r) ;;
                  child_table <- lift (row_str "child_table" r) ;;
                  parent_cols <- lift (row_strs "parent_keys" r) ;;
                  fkey_cols <- lift (row_strs "child_keys" r) ;;
                  st <- get_state ;;
                  set_relationships
                    (add_relationship (st_relationships st)
                       parent_table child_table parent_cols fkey_cols))
               data
     end) st.
Proof.
  intros H. unfold setup_fkey_relationships, catalog_query.
  unfold bind at 1. unfold get_state at 1.
  destruct (st_relationships st) as [| x xs] eqn:E.
  - destruct overwrite; reflexivity.
  - destruct H as [-> | H]; [reflexivity | discriminate H].
Qed.

Lemma graph_loop_run {B} : forall data (st st' : state B),
  forM_ (fun r =>
           parent_table <- lift (row_str "parent_table" r) ;;
           child_table <- lift (row_str "child_table" r) ;;
           parent_cols <- lift (row_strs "parent_keys" r) ;;
           fkey_cols <- lift (row_strs "child_keys" r) ;;
           st <- get_state ;;
           set_relationships
             (add_relationship (st_relationships st)
                parent_table child_table parent_cols fkey_cols))
        data st = (Ok tt, st') ->
  (forall p c pk fk, linked (st_relationships st) p c pk fk ->
                     linked (st_relationships st') p c pk fk) /\
  (forall r, In r data ->
             exists p c pk fk,
               fkey_fields r = Ok (p, c, pk, fk) /\
               linked (st_relationships st') p c pk fk) /\
  (forall p, Dict.mem String.eqb p (st_relationships st') = true ->
             Dict.mem String.eqb p (st_relationships st) = true \/
             exists r, In r data /\ row_str "parent_table" r = Ok p).
Proof.
  induction data as [| r data IH]; intros st st' H.
  - cbn in H. inversion H; subst.
    split; [auto |]. split; [intros r [] |]. intros p Hp. left. exact Hp.
  - cbn [forM_] in H. apply bind_ok_inv in H. destruct H as [u [st1 [Hb Hrest]]].
    apply bind_ok_inv in Hb. destruct Hb as [p0 [s1 [H1 Hb]]].
    apply lift_run in H1. destruct H1 as [-> E1].
    apply bind_ok_inv in Hb. destruct Hb as [c0 [s2 [H2 Hb]]].
    apply lift_run in H2. destruct H2 as [-> E2].
    apply bind_ok_inv in Hb. destruct Hb as [pk0 [s3 [H3 Hb]]].
    apply lift_run in H3. destruct H3 as [-> E3].
    apply bind_ok_inv in Hb. destruct Hb as [fk0 [s4 [H4 Hb]]].
    apply lift_run in H4. destruct H4 as [-> E4].
    unfold bind, get_state, set_relationships in Hb. inversion Hb; subst st1. clear Hb.
    destruct (IH _ _ Hrest) as [Hkeep [Hrows Hpar]]. cbn [st_relationships] in *.
    split; [| split].
    + intros p c pk fk Hl. apply Hkeep. apply add_relationship_keeps. exact Hl.
    + intros r' [<- | Hin].
      * exists p0, c0, pk0, fk0. split.
        -- unfold fkey_fields. rewrite <- E1, <- E2, <- E3, <- E4. reflexivity.
        -- apply Hkeep. apply add_relationship_adds.
      * apply Hrows. exact Hin.
    + intros p Hp. destruct (Hpar p Hp) as [Hm | [r' [Hin Hr']]].
      * rewrite add_relationship_parents in Hm. apply orb_true_iff in Hm.
        destruct Hm as [Hm | Hm].
        -- right. exists r. split; [left; reflexivity |].
           apply String.eqb_eq in Hm. subst p. symmetry. exact E1.
        -- left. exact Hm.
      * right. exists r'. split; [right; exact Hin | exact Hr'].
Qed.

Lemma setup_rebuild_run {B} bis skip overwrite pk (st st' : state B) data db' :
  overwrite = true \/ st_relationships st = [] ->
  run B (st_db st) (catalog_query bis skip pk) = Rows data db' ->
  setup_fkey_relationships POSTGRES bis skip overwrite pk st = (Ok tt, st') ->
  (forall r, In r data ->
             exists p c pk fk,
               fkey_fields r = Ok (p, c, pk, fk) /\
               linked (st_relationships st') p c pk fk) /\
  (forall p, Dict.mem String.eqb p (st_relationships st') = true ->
             exists r, In r data /\ row_str "parent_table" r = Ok p).
Proof.
  intros Hb Hrun H. rewrite (setup_rebuild_eq _ _ _ _ Hb) in H.
  unfold bind at 1 in H. unfold set_relationships at 1 in H.
  apply bind_ok_inv in H. destruct H as [d [st1 [Hread Hloop]]].
  unfold read in Hread.
  match type of Hread with
  | execute ?q None false ?s = _ =>
      destruct (@execute_own_result B q s) as [st2 [Ex [Hrel _]]]
  end.
  rewrite Ex in Hread. cbn [st_db] in Hread. rewrite Hrun in Hread.
  cbn [execute_result] in Hread. inversion Hread; subst d st2. clear Hread.
  cbn [st_relationships] in Hrel.
  destruct (graph_loop_run _ _ Hloop) as [_ [Hrows Hpar]].
  split; [exact Hrows |].
  intros p Hp. destruct (Hpar p Hp) as [Hm | Hr]; [| exact Hr].
  rewrite Hrel in Hm. discriminate Hm.
Qed.

(** X22.  Insert and look up: after a build of the graph that returns, every
    row the catalog query gave can be found in the graph, under its
    parent table, its child table and its tuple of parent columns. *)
Theorem catalog_rows_are_in_the_graph :
  forall (B : Backend) (built_in_schemas : list string)
         (skip_builtins overwrite pkeys_only : bool) (st st' : state B)
         (data : list row) (db' : DB B),
    overwrite = true \/ st_relationships st = [] ->
    run B (st_db st) (catalog_query built_in_schemas skip_builtins pkeys_only)
    = Rows data db' ->
    setup_fkey_relationships POSTGRES built_in_schemas skip_builtins overwrite pkeys_only st
    = (Ok tt, st') ->
    forall r, In r data ->
              exists p c pk fk,
                fkey_fields r = Ok (p, c, pk, fk) /\
                linked (st_relationships st') p c pk fk.
Proof.
  intros B bis skip overwrite pk st st' data db' Hb Hrun H.
  exact (proj1 (setup_rebuild_run _ _ _ _ Hb Hrun H)).
Qed.

Lemma catalog_rows_are_in_the_graph_witness :
  exists p c pk fk,
    fkey_fields parent_fkey_back = Ok (p, c, pk, fk) /\
    linked (st_relationships built_cyclic) p c pk fk.
Proof.
  apply (@catalog_rows_are_in_the_graph
           (Toy.backend cyclic_scenario) ["public"] false false false
           (Toy.fresh cyclic_scenario Toy.two_tables (fun n => n)) built_cyclic
           [Toy.child_fkey; parent_fkey_back] Toy.two_tables).
  - right. reflexivity.
  - reflexivity.
  - reflexivity.
  - right. left. reflexivity.
Defined.

(** X23.  After a build of the graph that returns, the tables
    [has_dependent_tables] answers [True] for are exactly the parent
    tables of the rows the catalog query gave. *)
Theorem dependents_are_the_catalog_parents :
  forall (B : Backend) (built_in_schemas : list string)
         (skip_builtins overwrite pkeys_only : bool) (st st' : state B)
         (data : list row) (db' : DB B) (parent_table : string),
    overwrite = true \/ st_relationships st = [] ->
    run B (st_db st) (catalog_query built_in_schemas skip_builtins pkeys_only)
    = Rows data db' ->
    setup_fkey_relationships POSTGRES built_in_schemas skip_builtins overwrite pkeys_only st
    = (Ok tt, st') ->
    (has_dependent_tables parent_table st' = (Ok true, st') <->
     exists r, In r data /\ row_str "parent_table" r = Ok parent_table).
Proof.
  intros B bis skip overwrite pk st st' data db' p Hb Hrun H.
  destruct (setup_rebuild_run _ _ _ _ Hb Hrun H) as [Hrows Hpar].
  unfold has_dependent_tables, bind, get_state, ret. split.
  - intros E. apply Hpar. congruence.
  - intros [r [Hin Hr]].
    destruct (Hrows r Hin) as [p' [c [pks [fks [Hf [ch [keys [fkeys [Hl _]]]]]]]]].
    assert (p' = p) as ->.
    { unfold fkey_fields in Hf. rewrite Hr in Hf.
      destruct (row_str "child_table" r); [| discriminate].
      destruct (row_strs "parent_keys" r); [| discriminate].
      destruct (row_strs "child_keys" r); [| discriminate].
      inversion Hf. reflexivity. }
    unfold Dict.mem. rewrite Hl. reflexivity.
Qed.

Lemma dependents_are_the_catalog_parents_witness :
  has_dependent_tables "public.parent" built_parent_child = (Ok true, built_parent_child) <->
  exists r, In r [Toy.child_fkey] /\ row_str "parent_table" r = Ok "public.parent".
Proof.
  apply (@dependents_are_the_catalog_parents
           (Toy.backend (Toy.referenced Toy.parent_table false)) ["public"] false false
           false
           (Toy.fresh (Toy.referenced Toy.parent_table false) Toy.two_tables (fun n => n))
           built_parent_child [Toy.child_fkey] Toy.two_tables "public.parent").
  - right. reflexivity.
  - reflexivity.
  - reflexivity.
Defined.

(** X24.  A build that fails at its first step, because the dialect is not
    Postgres or because the catalog query is rejected, has already
    emptied the cache: with the overwrite flag, the graph built before
    is lost. *)
Theorem failed_rebuild_empties_the_cache :
  forall (B : Backend) (dialect : SQLDialect) (built_in_schemas : list string)
         (skip_builtins pkeys_only : bool) (st : state B),
    dialect <> POSTGRES \/
    (exists e, run B (st_db st) (catalog_query built_in_schemas skip_builtins pkeys_only)
               = Failed e) ->
    (exists e, fst (setup_fkey_relationships dialect built_in_schemas skip_builtins true
                                             pkeys_only st) = Raise e) /\
    st_relationships (snd (setup_fkey_relationships dialect built_in_schemas skip_builtins
                                                    true pkeys_only st)) = [].
Proof.
  intros B dialect bis skip pk st H.
  assert (exists e st1,
             setup_fkey_relationships dialect bis skip true pk st = (Raise e, st1) /\
             st_relationships st1 = []) as [e [st1 [E R]]].
  { destruct (dialect_eqb dialect POSTGRES) eqn:Ed.
    - assert (dialect = POSTGRES) as -> by (destruct dialect; try discriminate; reflexivity).
      destruct H as [H | [e He]]; [contradiction H; reflexivity |].
      rewrite (setup_rebuild_eq _ _ _ _ (or_introl eq_refl)).
      unfold bind at 1. unfold set_relationships at 1.
      unfold bind at 1. unfold read.
      match goal with
      | |- context [execute ?q None false ?s] =>
          destruct (@execute_own_result B q s) as [st2 [Ex [Hrel _]]]
      end.
      rewrite Ex. cbn [st_db]. rewrite He. cbn [execute_result].
      eexists; eexists. split; [reflexivity | exact Hrel].
    - unfold setup_fkey_relationships, bind, get_state, set_relationships.
      destruct (st_relationships st); destruct dialect; try discriminate Ed;
        cbn; eexists; eexists; split; reflexivity. }
  rewrite E. split; [exists e; reflexivity | exact R].
Qed.

Lemma failed_rebuild_empties_the_cache_witness :
  st_relationships built_parent_child <> [] /\
  (exists e, fst (setup_fkey_relationships TSQL ["public"] false true false
                                           built_parent_child) = Raise e) /\
  st_relationships (snd (setup_fkey_relationships TSQL ["public"] false true false
                                                  built_parent_child)) = [].
Proof.
  split; [discriminate |].
  apply (@failed_rebuild_empties_the_cache
           (Toy.backend (Toy.referenced Toy.parent_table false)) TSQL ["public"] false
           false built_parent_child).
  left. discriminate.
Defined.

(* ===================================================================== *)
(** * Questions about the relationship graph *)
(* ===================================================================== *)

(** X25.  [tables_have_relationship(l_table, r_table)] checks that [l_table]
    exists twice and [r_table] never: the only statements it can send
    are existence probes of [l_table] and the catalog query. *)
Theorem tables_have_relationship_never_probes_the_right_table :
  forall (B : Backend) (dialect : SQLDialect) (built_in_schemas : list string)
         (l_table r_table : string),
    inv (asks_about_left_only l_table)
        (tables_have_relationship (B:=B) dialect built_in_schemas l_table r_table).
Proof.
  intros B dialect bis l r.
  unfold tables_have_relationship, get_foreign_keys_full.
  repeat (first [ progress cbn [negb andb orb is_some] | inv_step | inv_head ]);
    try (simpl; first [exact I | reflexivity]).
Qed.

Lemma execute_keeps_relationships {B} q session rb (st : state B) :
  st_relationships (snd (execute q session rb st)) = st_relationships st.
Proof.
  unfold execute, bind, try_except, new_session, session_execute, bind, emit, get_state,
    session_commit, session_close, session_rollback, set_db, ret, raise, emit.
  destruct session as [s |]; cbn;
    destruct (run B (st_db st) q) as [e | rs db' | db']; cbn;
    destruct rb; reflexivity.
Qed.

Lemma table_exists_keeps_relationships {B} dialect t session (st : state B) :
  st_relationships (snd (table_exists dialect t session st)) = st_relationships st.
Proof.
  unfold table_exists.
  assert (forall q, st_relationships
                      (snd (try_except (read q session ;; ret true)
                              (fun ex =>
                                 match ex with
                                 | SQLAlchemyError UndefinedTable
                                 | SQLAlchemyError InvalidObjectName => ret false
                                 | _ => raise ex
                                 end) st)) = st_relationships st) as H.
  { intros q. unfold try_except, bind, read.
    pose proof (execute_keeps_relationships q session false st) as Hk.
    destruct (execute q session false st) as [[r | e] st1]; cbn in *.
    - exact Hk.
    - destruct e as [| | | | | | | | | [| | msg]]; cbn; exact Hk. }
  destruct dialect; cbn; try reflexivity; apply H.
Qed.

(** X26.  With the graph in the cache, when [tables_have_relationship]
    answers, its answer is whether the cache lists [r_table] among the
    children of [l_table]; whether [r_table] exists plays no part. *)
Theorem tables_have_relationship_answer :
  forall (B : Backend) (dialect : SQLDialect) (built_in_schemas : list string)
         (l_table r_table : string) (st st' : state B) (b : bool),
    st_relationships st <> [] ->
    tables_have_relationship dialect built_in_schemas l_table r_table st = (Ok b, st') ->
    b = Dict.mem String.eqb r_table (children_of (st_relationships st) l_table).
Proof.
  intros B dialect bis l r st st' b Hne H.
  unfold tables_have_relationship in H.
  apply bind_ok_inv in H. destruct H as [e1 [st1 [H1 H]]].
  apply bind_ok_inv in H. destruct H as [e2 [st2 [H2 H]]].
  assert (st_relationships st2 = st_relationships st) as Hrel.
  { pose proof (table_exists_keeps_relationships dialect l None st) as K1.
    pose proof (table_exists_keeps_relationships dialect l None st1) as K2.
    rewrite H1 in K1. rewrite H2 in K2. cbn [snd] in *. congruence. }
  destruct e1, e2; cbn in H; try discriminate H.
  apply bind_ok_inv in H. destruct H as [ans [st3 [Ha H]]].
  inversion H; subst. clear H.
  unfold get_foreign_keys_full in Ha.
  unfold bind at 1 in Ha.
  unfold setup_fkey_relationships, bind at 1, get_state at 1 in Ha.
  destruct (st_relationships st2) as [| x xs] eqn:E; [congruence |].
  unfold ret at 1 in Ha. unfold bind at 1, get_state at 1 in Ha. rewrite E in Ha.
  unfold children_of. rewrite <- Hrel.
  destruct (Dict.lookup String.eqb l (x :: xs)) as [ch |]; cbn in Ha.
  - unfold Dict.mem.
    destruct (Dict.lookup String.eqb r ch); inversion Ha; reflexivity.
  - inversion Ha. reflexivity.
Qed.

Lemma tables_have_relationship_answer_witness :
  st_relationships built_parent_child <> [] /\
  fst (tables_have_relationship POSTGRES ["public"] "public.parent" "public.child"
                                built_parent_child) = Ok true /\
  true = Dict.mem String.eqb "public.child"
                  (children_of (st_relationships built_parent_child) "public.parent").
Proof.
  split; [discriminate |].
  split; [reflexivity |].
  apply (@tables_have_relationship_answer
           _ POSTGRES ["public"] "public.parent" "public.child" built_parent_child
           (snd (tables_have_relationship POSTGRES ["public"] "public.parent" "public.child"
                                          built_parent_child))).
  - discriminate.
  - reflexivity.
Defined.

(** An example of the check that is not made: the right table is not in
    the database, the cache lists it, the answer is [True]. *)
Example relationship_with_a_table_that_is_gone :
  let st := {| st_db := (["public.parent"] : DB (Toy.backend (Toy.referenced
                                                                 Toy.parent_table false)));
               st_relationships := st_relationships built_parent_child;
               st_log := [];
               st_next_session := 0;
               st_rand := fun n => n;
               st_tick := 0 |} in
  fst (table_exists POSTGRES "public.child" None st) = Ok false /\
  fst (tables_have_relationship POSTGRES ["public"] "public.parent" "public.child" st)
  = Ok true.
Proof. split; reflexivity. Qed.

(** The method of this name with only the parent passed is the one used
    by the traversal and by the probe for dependent rows. *)
Lemma get_foreign_keys_full_parent_only {B} dialect bis parent (st : state B) :
  get_foreign_keys_full dialect bis parent None None st
  = match get_foreign_keys dialect bis parent st with
    | (Ok (Some children), st') => (Ok (FkChildren children), st')
    | (Ok None, st') => (Ok FkNone, st')
    | (Raise e, st') => (Raise e, st')
    end.
Proof.
  unfold get_foreign_keys_full, get_foreign_keys, bind.
  destruct (setup_fkey_relationships dialect bis true false false st) as [[u | e] st1];
    [| reflexivity].
  unfold get_state, ret. cbn.
  destruct (Dict.lookup String.eqb parent (st_relationships st1)) as [ch |];
    [| reflexivity].
  assert (forall keys : fkeys_t, filter (fun _ => true) keys = keys) as Hf.
  { induction keys as [| kv keys IHk]; [reflexivity |]. cbn. rewrite IHk. reflexivity. }
  assert (map (fun ct : string * fkeys_t => (fst ct, filter (fun _ => true) (snd ct))) ch
          = ch) as ->.
  { induction ch as [| [c keys] ch IH]; [reflexivity |].
    cbn [map fst snd]. rewrite IH, Hf. reflexivity. }
  reflexivity.
Qed.

Lemma append_key_nowhere parent fkeys pkey out :
  append_key [] parent fkeys pkey = Ok out -> fkeys = [] /\ out = [].
Proof.
  destruct fkeys as [| fk rest]; cbn; intros H.
  - inversion H. split; reflexivity.
  - discriminate H.
Qed.

Lemma parents_of_named_nothing parent fkey items out :
  parents_of_named [] parent fkey items = Ok out -> out = [].
Proof.
  revert out. induction items as [| [pkey fkeys] rest IH]; intros out H; cbn in H.
  - inversion H. reflexivity.
  - destruct (key_given fkey && key_missing fkey fkeys).
    + inversion H. reflexivity.
    + destruct (key_given fkey).
      * cbn in H. discriminate H.
      * destruct (append_key [] parent fkeys pkey) as [o |] eqn:E; [| discriminate H].
        apply append_key_nowhere in E. destruct E as [_ ->].
        apply IH. exact H.
Qed.

(** X27.  With the parent table named, [get_foreign_key_parents] never returns
    a relationship: what it returns is [None] or the empty dictionary.
    (It stores under [out[parent_table]] without having made that entry,
    so where it has something to store it raises a [KeyError].) *)
Theorem get_foreign_key_parents_named_parent_finds_nothing :
  forall (B : Backend) (dialect : SQLDialect) (built_in_schemas : list string)
         (child_table parent_table : string) (fkey : option pykey)
         (st st' : state B) (r : option parents_t),
    get_foreign_key_parents dialect built_in_schemas child_table (Some parent_table)
                            fkey st = (Ok r, st') ->
    r = None \/ r = Some [].
Proof.
  intros B dialect bis child parent fkey st st' r H.
  unfold get_foreign_key_parents in H.
  apply bind_ok_inv in H. destruct H as [u [st1 [_ H]]].
  unfold bind at 1, get_state at 1 in H.
  destruct (Dict.lookup String.eqb parent (st_relationships st1)) as [children |];
    [| inversion H; left; reflexivity].
  destruct (Dict.lookup String.eqb child children) as [keys |];
    [| inversion H; left; reflexivity].
  apply bind_ok_inv in H. destruct H as [out [st2 [Hl H]]].
  apply lift_run in Hl. destruct Hl as [_ Hl]. symmetry in Hl.
  apply parents_of_named_nothing in Hl. subst out.
  inversion H. right. reflexivity.
Qed.

Lemma get_foreign_key_parents_named_parent_finds_nothing_witness :
  get_foreign_key_parents POSTGRES ["public"] "public.child" (Some "public.parent")
                          (Some (KStr "other_code")) built_parent_child
  = (Ok (Some ([] : parents_t)), built_parent_child) /\
  (Some ([] : parents_t) = None \/ Some ([] : parents_t) = Some []).
Proof.
  split; [reflexivity |].
  apply (@get_foreign_key_parents_named_parent_finds_nothing
           _ POSTGRES ["public"] "public.child" "public.parent"
           (Some (KStr "other_code")) built_parent_child built_parent_child).
  reflexivity.
Defined.

Lemma parents_of_named_raises parent items :
  (exists pkey fkeys fk, In (pkey, fkeys) items /\ In fk fkeys) ->
  parents_of_named [] parent None items = Raise (KeyError parent).
Proof.
  induction items as [| [pkey fkeys] rest IH]; intros [pk [fks [fk [Hin Hfk]]]].
  - contradiction.
  - cbn. destruct fkeys as [| f fs].
    + cbn. apply IH. destruct Hin as [E | Hin].
      * inversion E; subst. contradiction.
      * exists pk, fks, fk. split; assumption.
    + reflexivity.
Qed.

Lemma lookup_In {K V} (keq : K -> K -> bool) k (d : list (K * V)) v :
  (forall a b, keq a b = true <-> a = b) ->
  Dict.lookup keq k d = Some v -> In (k, v) d.
Proof.
  intros Hspec. induction d as [| [k' v'] d IH]; cbn; [discriminate |].
  destruct (keq k k') eqn:E.
  - intros H. inversion H; subst. apply Hspec in E. subst. left. reflexivity.
  - intros H. right. apply IH. exact H.
Qed.

(** X28.  With the graph in the cache, asked for the parents of a child under
    a parent table that does have a relationship with it, and no foreign
    key given, [get_foreign_key_parents] raises a [KeyError] on the name
    of the parent table. *)
Theorem get_foreign_key_parents_named_parent_raises :
  forall (B : Backend) (dialect : SQLDialect) (built_in_schemas : list string)
         (child_table parent_table : string) (pk fk : list string) (st : state B),
    linked (st_relationships st) parent_table child_table pk fk ->
    get_foreign_key_parents dialect built_in_schemas child_table (Some parent_table)
                            None st
    = (Raise (KeyError parent_table), st).
Proof.
  intros B dialect bis child parent pk fk st [children [keys [fks [Hp [Hc [Hk Hf]]]]]].
  unfold get_foreign_key_parents.
  unfold bind at 1.
  unfold setup_fkey_relationships, bind at 1, get_state at 1.
  destruct (st_relationships st) as [| x xs] eqn:E; [discriminate Hp |].
  unfold ret at 1. unfold bind at 1, get_state at 1. rewrite E, Hp, Hc.
  cbn [option_map].
  rewrite parents_of_named_raises; [reflexivity |].
  exists pk, fks, fk. split; [| exact Hf].
  eapply lookup_In; [apply tuple_eqb_spec | exact Hk].
Qed.

Lemma get_foreign_key_parents_named_parent_raises_witness :
  linked (st_relationships built_parent_child) "public.parent" "public.child"
         ["code"] ["parent_code"] /\
  get_foreign_key_parents POSTGRES ["public"] "public.child" (Some "public.parent") None
                          built_parent_child
  = (Raise (KeyError "public.parent"), built_parent_child).
Proof.
  assert (linked (st_relationships built_parent_child) "public.parent" "public.child"
                 ["code"] ["parent_code"]) as L.
  { do 3 eexists. repeat split; try reflexivity. left. reflexivity. }
  split; [exact L |].
  apply (@get_foreign_key_parents_named_parent_raises
           _ POSTGRES ["public"] "public.child" "public.parent" ["code"] ["parent_code"]
           built_parent_child).
  exact L.
Defined.

(* ===================================================================== *)
(** * Rows given by position: to columns and back to records *)
(* ===================================================================== *)

Lemma set_new {V} k (v : V) d :
  ~ In k (map fst d) -> Dict.set String.eqb k v d = d ++ [(k, v)].
Proof.
  induction d as [| [k' v'] d IH]; cbn; intros H; [reflexivity |].
  destruct (String.eqb k k') eqn:E.
  - apply String.eqb_eq in E. subst. exfalso. apply H. left. reflexivity.
  - rewrite IH; [reflexivity |]. intros Hin. apply H. right. exact Hin.
Qed.

Lemma map_fst_combine {A C} (l : list A) (l' : list C) :
  length l = length l' -> map fst (combine l l') = l.
Proof.
  revert l'. induction l as [| a l IH]; intros [| c l'] H; cbn in *;
    try reflexivity; try discriminate.
  rewrite IH; [reflexivity | lia].
Qed.

Lemma combine_snoc {A C} (l : list A) (l' : list C) a c :
  length l = length l' -> combine (l ++ [a]) (l' ++ [c]) = combine l l' ++ [(a, c)].
Proof.
  revert l'. induction l as [| x l IH]; intros [| y l'] H; cbn in *;
    try reflexivity; try discriminate.
  rewrite IH; [reflexivity | lia].
Qed.

Lemma empty_columns_from pre names :
  NoDup (pre ++ names) ->
  fold_left (fun df n => Dict.set String.eqb n ([] : list pyval) df) names
            (combine pre (repeat [] (length pre)))
  = combine (pre ++ names) (repeat [] (length (pre ++ names))).
Proof.
  revert pre. induction names as [| n names IH]; intros pre Hnd.
  - rewrite app_nil_r. reflexivity.
  - cbn [fold_left].
    rewrite set_new.
    + replace (combine pre (repeat [] (length pre)) ++ [(n, [])])
        with (combine (pre ++ [n]) (repeat ([] : list pyval) (length (pre ++ [n])))).
      * rewrite IH; rewrite <- app_assoc; [reflexivity | exact Hnd].
      * rewrite length_app. cbn [length]. rewrite repeat_app. cbn [repeat].
        apply combine_snoc. rewrite repeat_length. reflexivity.
    + rewrite map_fst_combine by (rewrite repeat_length; reflexivity).
      apply NoDup_remove_2 in Hnd. intros Hin. apply Hnd.
      apply in_or_app. left. exact Hin.
Qed.

Lemma empty_columns_eq names :
  NoDup names -> empty_columns names = combine names (repeat [] (length names)).
Proof.
  intros H. unfold empty_columns.
  exact (empty_columns_from [] names H).
Qed.

Lemma lookup_combine_mid {V} pre c post (apre : list V) l apost :
  ~ In c pre -> length pre = length apre ->
  Dict.lookup String.eqb c (combine (pre ++ c :: post) (apre ++ l :: apost)) = Some l.
Proof.
  revert apre. induction pre as [| p pre IH]; intros [| a apre] Hn Hl; cbn in *;
    try discriminate.
  - rewrite String.eqb_refl. reflexivity.
  - destruct (String.eqb c p) eqn:E.
    + apply String.eqb_eq in E. subst. exfalso. apply Hn. left. reflexivity.
    + apply IH; [intros H; apply Hn; right; exact H | lia].
Qed.

Lemma set_combine_mid {V} pre c post (apre : list V) l v apost :
  ~ In c pre -> length pre = length apre ->
  Dict.set String.eqb c v (combine (pre ++ c :: post) (apre ++ l :: apost))
  = combine (pre ++ c :: post) (apre ++ v :: apost).
Proof.
  revert apre. induction pre as [| p pre IH]; intros [| a apre] Hn Hl; cbn in *;
    try discriminate.
  - rewrite String.eqb_refl. reflexivity.
  - destruct (String.eqb c p) eqn:E.
    + apply String.eqb_eq in E. subst. exfalso. apply Hn. left. reflexivity.
    + rewrite IH; [reflexivity | intros H; apply Hn; right; exact H | lia].
Qed.

Lemma lookup_combine_In {V} c names (cols : list V) :
  length names = length cols -> In c names ->
  exists l, Dict.lookup String.eqb c (combine names cols) = Some l /\ In l cols.
Proof.
  revert cols. induction names as [| n names IH]; intros [| l cols] Hl Hin;
    cbn in *; try discriminate; try contradiction.
  destruct (String.eqb c n) eqn:E.
  - exists l. split; [reflexivity | left; reflexivity].
  - destruct Hin as [-> | Hin]; [rewrite String.eqb_refl in E; discriminate |].
    destruct (IH cols) as [l' [H1 H2]]; [lia | exact Hin |].
    exists l'. split; [exact H1 | right; exact H2].
Qed.

Lemma not_in_front {A} (c : A) pre post : NoDup (pre ++ c :: post) -> ~ In c pre.
Proof.
  intros Hnd Hin. apply (NoDup_remove_2 _ _ _ Hnd). apply in_or_app. left. exact Hin.
Qed.

(** One row: the value at each position goes to the end of the column at
    that position. *)
Lemma assign_row_from row : forall pre post apre apost,
  NoDup (pre ++ post) -> length pre = length apre ->
  length post = length row -> length apost = length row ->
  assign_row (pre ++ post) (length pre) row (combine (pre ++ post) (apre ++ apost))
  = Ok (combine (pre ++ post) (apre ++ push apost row)).
Proof.
  induction row as [| v row IH]; intros pre post apre apost Hnd Hp Hpost Hap.
  - destruct apost; [| discriminate]. reflexivity.
  - destruct post as [| c post]; [discriminate |].
    destruct apost as [| l apost]; [discriminate |].
    cbn [assign_row].
    rewrite nth_error_app2 by lia. rewrite Nat.sub_diag. cbn [nth_error].
    rewrite lookup_combine_mid; [| eapply not_in_front; eassumption | exact Hp].
    rewrite set_combine_mid; [| eapply not_in_front; eassumption | exact Hp].
    change (push (l :: apost) (v :: row)) with ((l ++ [v]) :: push apost row).
    replace (pre ++ c :: post) with ((pre ++ [c]) ++ post)
      by (rewrite <- app_assoc; reflexivity).
    replace (S (length pre)) with (length (pre ++ [c]))
      by (rewrite length_app; cbn [length]; lia).
    replace (apre ++ (l ++ [v]) :: apost) with ((apre ++ [l ++ [v]]) ++ apost)
      by (rewrite <- app_assoc; reflexivity).
    replace (apre ++ (l ++ [v]) :: push apost row)
      with ((apre ++ [l ++ [v]]) ++ push apost row)
      by (rewrite <- app_assoc; reflexivity).
    apply IH.
    + rewrite <- app_assoc. exact Hnd.
    + rewrite !length_app. cbn [length]. lia.
    + cbn [length] in Hpost. lia.
    + cbn [length] in Hap. lia.
Qed.

Lemma push_length cols row :
  length cols = length row -> length (push cols row) = length cols.
Proof.
  intros H. unfold push. rewrite length_map, length_combine. lia.
Qed.

Lemma assign_rows_ok names :
  NoDup names ->
  forall data cols,
    length cols = length names ->
    Forall (fun row => length row = length names) data ->
    assign_rows names data (combine names cols)
    = Ok (combine names (fold_left push data cols)).
Proof.
  intros Hnd. induction data as [| row data IH]; intros cols Hc Hd.
  - reflexivity.
  - inversion Hd as [| ? ? Hrow Hrest]; subst.
    cbn [assign_rows fold_left].
    pose proof (@assign_row_from row [] names [] cols Hnd eq_refl) as E.
    cbn [app length] in E. rewrite E by lia.
    apply IH; [rewrite push_length; lia | exact Hrest].
Qed.

(** *** The columns are the rows, transposed *)

Lemma push_Forall_length k cols row :
  length cols = length row ->
  Forall (fun l => length l = k) cols ->
  Forall (fun l => length l = S k) (push cols row).
Proof.
  revert row. induction cols as [| l cols IH]; intros [| v row] Hl HF;
    cbn in *; try discriminate; constructor.
  - inversion HF; subst. rewrite length_app. cbn. lia.
  - inversion HF; subst. apply IH; [lia | assumption].
Qed.

Lemma push_keeps r cols row' :
  Forall2 (fun l v => nth_error l r = Some v) cols row' ->
  forall row, length cols = length row ->
  Forall2 (fun l v => nth_error l r = Some v) (push cols row) row'.
Proof.
  induction 1 as [| l v cols row' Hlv HF IH]; intros [| x row] Hl;
    cbn in *; try discriminate; constructor.
  - rewrite nth_error_app1; [exact Hlv |].
    apply nth_error_Some. rewrite Hlv. discriminate.
  - apply IH. lia.
Qed.

Lemma push_last k cols row :
  length cols = length row ->
  Forall (fun l => length l = k) cols ->
  Forall2 (fun l v => nth_error l k = Some v) (push cols row) row.
Proof.
  revert row. induction cols as [| l cols IH]; intros [| v row] Hl HF;
    cbn in *; try discriminate; constructor.
  - inversion HF; subst. rewrite nth_error_app2 by lia.
    rewrite Nat.sub_diag. reflexivity.
  - inversion HF; subst. apply IH; [lia | assumption].
Qed.

Lemma transposed n data :
  Forall (fun row => length row = n) data ->
  length (fold_left push data (repeat [] n)) = n /\
  Forall (fun l => length l = length data) (fold_left push data (repeat [] n)) /\
  forall r row, nth_error data r = Some row ->
    Forall2 (fun l v => nth_error l r = Some v) (fold_left push data (repeat [] n)) row.
Proof.
  induction data as [| row data IH] using rev_ind; intros HF.
  - cbn. split; [apply repeat_length |]. split.
    + apply Forall_forall. intros l Hl. apply repeat_spec in Hl. subst. reflexivity.
    + intros [| r] row H; discriminate H.
  - apply Forall_app in HF. destruct HF as [HF Hrow].
    inversion Hrow as [| ? ? Hlen _]; subst.
    destruct (IH HF) as [I1 [I2 I3]].
    rewrite fold_left_app. cbn [fold_left].
    split; [rewrite push_length; lia |]. split.
    + rewrite length_app. cbn [length]. rewrite Nat.add_1_r.
      apply push_Forall_length; [lia | exact I2].
    + intros r row' Hr.
      destruct (Nat.lt_ge_cases r (length data)) as [Hlt | Hge].
      * rewrite nth_error_app1 in Hr by exact Hlt.
        apply push_keeps; [apply I3; exact Hr | lia].
      * rewrite nth_error_app2 in Hr by exact Hge.
        destruct (r - length data) as [| [| k]] eqn:Ek; cbn in Hr; try discriminate.
        inversion Hr; subst row'.
        assert (r = length data) by lia. subst r.
        apply push_last; [lia | exact I2].
Qed.

(** *** Back to records *)

Lemma record_at_from r : forall post pre apre apost vs,
  NoDup (pre ++ post) -> length pre = length apre ->
  Forall2 (fun l v => nth_error l r = Some v) apost vs ->
  length post = length apost ->
  record_at (combine (pre ++ post) (apre ++ apost)) post r = Ok (combine post vs).
Proof.
  induction post as [| c post IH]; intros pre apre apost vs Hnd Hp HF Hl.
  - reflexivity.
  - destruct HF as [| l v apost vs Hlv HF]; [discriminate |].
    cbn [record_at].
    rewrite lookup_combine_mid; [| eapply not_in_front; eassumption | exact Hp].
    rewrite Hlv.
    replace (pre ++ c :: post) with ((pre ++ [c]) ++ post)
      by (rewrite <- app_assoc; reflexivity).
    replace (apre ++ l :: apost) with ((apre ++ [l]) ++ apost)
      by (rewrite <- app_assoc; reflexivity).
    rewrite (IH (pre ++ [c]) (apre ++ [l]) apost vs).
    + reflexivity.
    + rewrite <- app_assoc. exact Hnd.
    + rewrite !length_app. cbn [length]. lia.
    + exact HF.
    + cbn [length] in Hl. lia.
Qed.

Lemma records_at_spec names df rs rows :
  Forall2 (fun r row => record_at df (Dict.keys df) r = Ok (combine names row)) rs rows ->
  records_at df rs = Ok (map (combine names) rows).
Proof.
  induction 1 as [| r row rs rows Hr HF IH]; [reflexivity |].
  cbn [records_at map]. rewrite Hr, IH. reflexivity.
Qed.

Lemma seq_nth_from {A} (data : list A) : forall pre,
  Forall2 (fun r row => nth_error (pre ++ data) r = Some row)
          (seq (length pre) (length data)) data.
Proof.
  induction data as [| row data IH]; intros pre; cbn [length seq]; constructor.
  - rewrite nth_error_app2 by lia. rewrite Nat.sub_diag. reflexivity.
  - specialize (IH (pre ++ [row])).
    rewrite <- app_assoc, length_app in IH. cbn [app length] in IH.
    rewrite Nat.add_1_r in IH. exact IH.
Qed.

Lemma filter_first {A} (f : A -> bool) c l :
  In c l -> f c = true ->
  exists c0 rest, filter f l = c0 :: rest /\ f c0 = true.
Proof.
  intros Hin Hf.
  assert (H : In c (filter f l)) by (apply filter_In; split; assumption).
  destruct (filter f l) as [| c0 rest] eqn:E; [contradiction |].
  exists c0, rest. split; [reflexivity |].
  assert (H0 : In c0 (filter f l)) by (rewrite E; left; reflexivity).
  apply filter_In in H0. apply H0.
Qed.

Lemma rows_to_records names data columns :
  NoDup names ->
  Forall (fun row => length row = length names) data ->
  (exists c, In c (map fst columns) /\ In c names) ->
  exists df,
    assign_rows names data (empty_columns names) = Ok df /\
    records_of_columns columns df = Ok (map (combine names) data).
Proof.
  intros Hnd HF [c [Hc Hn]].
  destruct (transposed HF) as [T1 [T2 T3]].
  set (cols := fold_left push data (repeat [] (length names))) in *.
  exists (combine names cols). split.
  - rewrite empty_columns_eq by exact Hnd.
    apply assign_rows_ok; [exact Hnd | apply repeat_length | exact HF].
  - unfold records_of_columns.
    assert (Hmem : forall k, In k names ->
                     exists l, Dict.lookup String.eqb k (combine names cols) = Some l
                               /\ length l = length data).
    { intros k Hk. destruct (@lookup_combine_In _ k names cols) as [l [H1 H2]];
        [lia | exact Hk |].
      exists l. split; [exact H1 |].
      rewrite Forall_forall in T2. apply T2. exact H2. }
    destruct (@filter_first _ (fun col => Dict.mem String.eqb col (combine names cols))
                            c (map fst columns) Hc) as [c0 [rest [E Hc0]]].
    { unfold Dict.mem. destruct (Hmem c Hn) as [l [-> _]]. reflexivity. }
    rewrite E.
    assert (Hin0 : In c0 names).
    { apply dict_mem_In in Hc0. destruct Hc0 as [l Hl].
      apply in_combine_l in Hl. exact Hl. }
    destruct (Hmem c0 Hin0) as [l [-> Hlen]]. rewrite Hlen.
    apply records_at_spec.
    eapply Forall2_impl; [| exact (seq_nth_from data [])].
    intros r row Hr. cbn [app] in Hr.
    unfold Dict.keys. rewrite map_fst_combine by lia.
    pose proof (@record_at_from r names [] [] cols row Hnd eq_refl (T3 r row Hr)) as R.
    cbn [app] in R. apply R. lia.
Qed.

(** X29.  [write] given rows by position.  When the target table is
    reflected, the names of its columns other than [timestamp], [row_id]
    and [id] are distinct, every row has one value for each of them and one
    of them is a column [write] can fill, [assign_columns] returns without
    touching the connection and the records [write] builds from its result
    pair these names with the values of each row, in order: identity
    columns with another name are assigned to like the others. *)
Theorem rows_by_position_become_records
  (B : Backend) (data : list (list pyval)) (target formatted : string)
  (table : Table) (columns : list (string * string)) (st : state B) :
  format_table_for_metadata target = Some formatted ->
  reflect B (st_db st) formatted = Some table ->
  NoDup (assignable_names table) ->
  Forall (fun row => length row = length (assignable_names table)) data ->
  (exists c, In c (map fst columns) /\ In c (assignable_names table)) ->
  exists df,
    assign_columns data target st = (Ok df, st) /\
    records_of_columns columns df
    = Ok (map (combine (assignable_names table)) data).
Proof.
  intros Hf Hr Hnd HF Hc.
  destruct (@rows_to_records (assignable_names table) data columns Hnd HF Hc)
    as [df [H1 H2]].
  exists df. split; [| exact H2].
  unfold assign_columns. rewrite Hf.
  unfold bind, get_state. rewrite Hr. cbv zeta. rewrite H1. reflexivity.
Qed.

(** A row with more values than the table has assignable columns is
    refused with a [KeyError] on the first position without a column. *)
Lemma assign_row_too_long row : forall pre post apre apost v rest,
  NoDup (pre ++ post) -> length pre = length apre ->
  length post = length row -> length apost = length row ->
  assign_row (pre ++ post) (length pre) (row ++ v :: rest)
             (combine (pre ++ post) (apre ++ apost))
  = Raise (KeyError (str_nat (length (pre ++ post)))).
Proof.
  induction row as [| x row IH]; intros pre post apre apost v rest Hnd Hp Hpost Hap.
  - destruct post; [| discriminate]. cbn [app assign_row].
    rewrite app_nil_r.
    replace (nth_error pre (length pre)) with (@None string)
      by (symmetry; apply nth_error_None; lia).
    reflexivity.
  - destruct post as [| c post]; [discriminate |].
    destruct apost as [| l apost]; [discriminate |].
    cbn [app assign_row].
    rewrite nth_error_app2 by lia. rewrite Nat.sub_diag. cbn [nth_error].
    rewrite lookup_combine_mid; [| eapply not_in_front; eassumption | exact Hp].
    rewrite set_combine_mid; [| eapply not_in_front; eassumption | exact Hp].
    replace (pre ++ c :: post) with ((pre ++ [c]) ++ post)
      by (rewrite <- app_assoc; reflexivity).
    replace (S (length pre)) with (length (pre ++ [c]))
      by (rewrite length_app; cbn [length]; lia).
    replace (apre ++ (l ++ [x]) :: apost) with ((apre ++ [l ++ [x]]) ++ apost)
      by (rewrite <- app_assoc; reflexivity).
    apply IH.
    + rewrite <- app_assoc. exact Hnd.
    + rewrite !length_app. cbn [length]. lia.
    + cbn [length] in Hpost. lia.
    + cbn [length] in Hap. lia.
Qed.

(** The table [parent(id, code, extra)]: two rows of two values become
    two records on [code] and [extra]. *)
Lemma rows_by_position_become_records_witness :
  exists df,
    assign_columns (B := Toy.backend (Toy.unreferenced Toy.parent_table))
      [[VStr "A"; VStr "v1"]; [VStr "B"; VNone]] "public.parent"
      (Toy.fresh (Toy.unreferenced Toy.parent_table) Toy.two_tables (fun n => n))
    = (Ok df, Toy.fresh (Toy.unreferenced Toy.parent_table) Toy.two_tables (fun n => n)) /\
    records_of_columns [("code", "text"); ("extra", "text")] df
    = Ok [[("code", VStr "A"); ("extra", VStr "v1")];
          [("code", VStr "B"); ("extra", VNone)]].
Proof.
  apply (@rows_by_position_become_records
           (Toy.backend (Toy.unreferenced Toy.parent_table))
           [[VStr "A"; VStr "v1"]; [VStr "B"; VNone]] "public.parent" "public.parent"
           Toy.parent_table [("code", "text"); ("extra", "text")]
           (Toy.fresh (Toy.unreferenced Toy.parent_table) Toy.two_tables (fun n => n))).
  - reflexivity.
  - reflexivity.
  - repeat constructor; simpl; intuition discriminate.
  - repeat constructor.
  - exists "code". split; simpl; auto.
Defined.

Lemma assign_rows_app names a b df :
  assign_rows names (a ++ b) df
  = match assign_rows names a df with
    | Ok df' => assign_rows names b df'
    | Raise e => Raise e
    end.
Proof.
  revert df. induction a as [| row a IH]; intros df; cbn [app assign_rows];
    [reflexivity |].
  destruct (assign_row names 0 row df); [apply IH | reflexivity].
Qed.

Lemma fold_push_length n data : forall cols,
  Forall (fun row => length row = n) data -> length cols = n ->
  length (fold_left push data cols) = n.
Proof.
  induction data as [| row data IH]; intros cols HF Hc; [exact Hc |].
  inversion HF; subst. cbn [fold_left].
  apply IH; [assumption | rewrite push_length; lia].
Qed.

(** X30.  A row with more values than the table has columns to assign to
    makes [assign_columns] fail with a [KeyError] on the first position
    past them, whatever the rows before and after it: the value is not
    dropped and the row is not cut. *)
Theorem rows_longer_than_the_table_are_refused
  (B : Backend) (before after : list (list pyval)) (row rest : list pyval) (v : pyval)
  (target formatted : string) (table : Table) (st : state B) :
  format_table_for_metadata target = Some formatted ->
  reflect B (st_db st) formatted = Some table ->
  NoDup (assignable_names table) ->
  Forall (fun r => length r = length (assignable_names table)) before ->
  length row = length (assignable_names table) ->
  assign_columns (before ++ (row ++ v :: rest) :: after) target st
  = (Raise (KeyError (str_nat (length (assignable_names table)))), st).
Proof.
  intros Hf Hr Hnd HF Hrow.
  unfold assign_columns. rewrite Hf.
  unfold bind, get_state. rewrite Hr. cbv zeta.
  rewrite assign_rows_app, empty_columns_eq by exact Hnd.
  rewrite (@assign_rows_ok _ Hnd before _ (repeat_length _ _) HF).
  cbn [assign_rows].
  pose proof (@assign_row_too_long row [] (assignable_names table) []
                (fold_left push before (repeat [] (length (assignable_names table))))
                v rest Hnd eq_refl) as E.
  cbn [app length] in E. rewrite E.
  - reflexivity.
  - lia.
  - rewrite (@fold_push_length (length (assignable_names table)));
      [lia | exact HF | apply repeat_length].
Qed.

(** The table [parent(id, code, extra)] takes two values in a row; a row
    of three is refused at position 2. *)
Lemma rows_longer_than_the_table_are_refused_witness :
  assign_columns (B := Toy.backend (Toy.unreferenced Toy.parent_table))
    ([[VStr "A"; VStr "v1"]] ++ ([VStr "B"; VNone] ++ VInt 7 :: []) :: [])
    "public.parent"
    (Toy.fresh (Toy.unreferenced Toy.parent_table) Toy.two_tables (fun n => n))
  = (Raise (KeyError "2"),
     Toy.fresh (Toy.unreferenced Toy.parent_table) Toy.two_tables (fun n => n)).
Proof.
  apply (@rows_longer_than_the_table_are_refused
           (Toy.backend (Toy.unreferenced Toy.parent_table))
           [[VStr "A"; VStr "v1"]] [] [VStr "B"; VNone] [] (VInt 7)
           "public.parent" "public.parent" Toy.parent_table
           (Toy.fresh (Toy.unreferenced Toy.parent_table) Toy.two_tables (fun n => n))).
  - reflexivity.
  - reflexivity.
  - repeat constructor; simpl; intuition discriminate.
  - repeat constructor.
  - reflexivity.
Defined.
